(** * Luau compatibility shim (LuauCompat): model and verified properties

    The header under verification makes a host written against the Lua 5.4
    C API run on Luau.  Its functions are short wrappers around VM
    primitives, so the embedding has two layers:

    - [VM]: the Luau primitives the shim calls (value stack, tables,
      userdata, finalizer table, call depth).  They are not part of the
      header; each is written down with the stack effect the shim relies on.
    - the shim itself, translated function by function, keeping the C names.

    Failing API checks (an index that does not denote a stack slot, a
    non-table where a table is required) are [None] in the option monad. *)

From Stdlib Require Import ZArith Lia List Ascii SpecFloat.
From stdpp Require Import base option list gmap strings pretty.

Open Scope Z_scope.

Set Warnings "-clear-no-such-hyp".

(** ** C integers *)

Module CInt.

Definition INT_MIN : Z := - 2 ^ 31.
Definition INT_MAX : Z := 2 ^ 31 - 1.

(** Two's complement reduction of a mathematical integer to [int]. *)
Definition wrap (z : Z) : Z := (z + 2 ^ 31) mod 2 ^ 32 - 2 ^ 31.

Definition INT64_MIN : Z := - 2 ^ 63.
Definition INT64_MAX : Z := 2 ^ 63 - 1.

End CInt.

(** ** IEEE 754 binary64 ([double], Luau's [lua_Number]) *)

Module Double.

Definition prec : Z := 53.
Definition emax : Z := 1024.

(** A double is a [spec_float]: signed zero, signed infinity, NaN, or
    [(-1)^s * m * 2^e]. *)
Definition double : Type := spec_float.

Definition zero : double := S754_zero false.

(** [static_cast<double>(int64_t)]: round to nearest, ties to even. *)
Definition of_int64 (z : Z) : double := binary_normalize prec emax z 0 false.

(** [m * 2^e] with the fraction dropped ([Z.shiftl] by a negative amount
    shifts right). *)
Definition magnitude (m : positive) (e : Z) : Z := Z.shiftl (Zpos m) e.

(** The whole part of a finite double, the fraction dropped (rounding
    toward zero). *)
Definition trunc (f : double) : option Z :=
  match f with
  | S754_zero _ => Some 0
  | S754_finite s m e => Some (cond_Zopp s (magnitude m e))
  | S754_infinity _ | S754_nan => None
  end.

(** [static_cast<int64_t>(double)]: truncation toward zero.  When the
    truncated value does not fit (or the operand is infinite or NaN) the
    C++ result is unspecified; the x86-64 conversion instruction the header
    is compiled to yields the "integer indefinite" value [INT64_MIN]. *)
Definition to_int64 (f : double) : Z :=
  match trunc f with
  | Some z =>
      if (CInt.INT64_MIN <=? z) && (z <=? CInt.INT64_MAX) then z
      else CInt.INT64_MIN
  | None => CInt.INT64_MIN
  end.

(** The C [==] on doubles: NaN differs from everything, [+0 == -0]. *)
Definition eqb (x y : double) : bool := SFeqb x y.

(** The value of the double is a whole number. *)
Definition integral (f : double) : Prop :=
  match f with
  | S754_zero _ => True
  | S754_finite _ m e => 0 <= e \/ (Zpos m) mod 2 ^ (- e) = 0
  | S754_infinity _ | S754_nan => False
  end.

(** The whole part of the double fits [int64_t]. *)
Definition in_int64_range (f : double) : Prop :=
  match trunc f with
  | Some z => CInt.INT64_MIN <= z <= CInt.INT64_MAX
  | None => False
  end.

(** The doubles that exist: normalised mantissa, exponent in range. *)
Definition valid (f : double) : Prop := valid_binary prec emax f = true.

End Double.

(** ** The VM primitives used by the shim *)

Module VM.

Import Double.

(** Values, as the spec's data model lists them.  Heap objects are
    references into the state. *)
Inductive Value : Type :=
  | Nil
  | Boolean (b : bool)
  | Number (n : double)
  | Str (s : string)
  | Table (r : nat)
  | Function (r : nat)
  | Userdata (r : nat)
  | Thread (r : nat).

Inductive lua_Type : Type :=
  | LUA_TNONE | LUA_TNIL | LUA_TBOOLEAN | LUA_TNUMBER | LUA_TSTRING
  | LUA_TTABLE | LUA_TFUNCTION | LUA_TUSERDATA | LUA_TTHREAD.

#[global] Instance lua_Type_eq_dec : EqDecision lua_Type.
Proof. solve_decision. Defined.

Definition ttype (v : Value) : lua_Type :=
  match v with
  | Nil => LUA_TNIL
  | Boolean _ => LUA_TBOOLEAN
  | Number _ => LUA_TNUMBER
  | Str _ => LUA_TSTRING
  | Table _ => LUA_TTABLE
  | Function _ => LUA_TFUNCTION
  | Userdata _ => LUA_TUSERDATA
  | Thread _ => LUA_TTHREAD
  end.

(** A finalizer is identified by its address. *)
Definition Dtor : Type := nat.

(** A userdata block: its tag, its size, and the auxiliary (environment)
    table it may be associated with. *)
Record Udata : Type := mkUdata {
  ud_tag : Z;
  ud_size : Z;
  ud_env : option nat
}.

Record lua_State : Type := mkState {
  stack : list Value;              (* slot 1 is the head, the top is last *)
  tables : gmap nat (gmap Z Value);(* integer-keyed part of every table *)
  udata : gmap nat Udata;
  udatagc : gmap Z Dtor;           (* tag -> finalizer *)
  ci_depth : Z                     (* number of active call frames *)
}.

Definition set_stack (L : lua_State) (s : list Value) : lua_State :=
  mkState s (tables L) (udata L) (udatagc L) (ci_depth L).

Definition push (L : lua_State) (v : Value) : lua_State :=
  set_stack L (stack L ++ [v]).

Definition lua_gettop (L : lua_State) : Z := Z.of_nat (length (stack L)).

Definition LUA_REGISTRYINDEX : Z := -10000.

Definition lua_ispseudo (idx : Z) : bool := idx <=? LUA_REGISTRYINDEX.

Definition lua_absindex (L : lua_State) (idx : Z) : Z :=
  if (0 <? idx) || lua_ispseudo idx then idx else lua_gettop L + idx + 1.

(** What an index denotes: a live stack slot (0-based position), or the
    shared nil object for a positive index above the top.  Pseudo-indices
    and indices below the base denote no stack slot. *)
Inductive StkId : Type :=
  | Slot (i : nat)
  | NilObject.

Definition index2addr (L : lua_State) (idx : Z) : option StkId :=
  if 0 <? idx then
    if idx <=? lua_gettop L then Some (Slot (Z.to_nat (idx - 1)))
    else Some NilObject
  else if LUA_REGISTRYINDEX <? idx then
    if (idx <? 0) && (- idx <=? lua_gettop L)
    then Some (Slot (Z.to_nat (lua_gettop L + idx)))
    else None
  else None.

Definition obj (L : lua_State) (o : StkId) : Value :=
  match o with
  | Slot i => default Nil (stack L !! i)
  | NilObject => Nil
  end.

Definition lua_type (L : lua_State) (idx : Z) : option lua_Type :=
  o ← index2addr L idx;
  Some (match o with NilObject => LUA_TNONE | Slot _ => ttype (obj L o) end).

Definition lua_isnil (L : lua_State) (idx : Z) : option bool :=
  t ← lua_type L idx; Some (bool_decide (t = LUA_TNIL)).

Definition lua_pushvalue (L : lua_State) (idx : Z) : option lua_State :=
  o ← index2addr L idx; Some (push L (obj L o)).

(** Removes the slot, shifting the slots above it down. *)
Definition lua_remove (L : lua_State) (idx : Z) : option lua_State :=
  match index2addr L idx with
  | Some (Slot i) => Some (set_stack L (delete i (stack L)))
  | _ => None
  end.

(** Moves the top element into the slot, shifting the slots above it up. *)
Definition lua_insert (L : lua_State) (idx : Z) : option lua_State :=
  match index2addr L idx with
  | Some (Slot i) =>
      x ← last (stack L);
      let below := take (length (stack L) - 1) (stack L) in
      Some (set_stack L (take i below ++ x :: drop i below))
  | _ => None
  end.

Definition lua_settop (L : lua_State) (idx : Z) : option lua_State :=
  if 0 <=? idx then Some (set_stack L (resize (Z.to_nat idx) Nil (stack L)))
  else if - (idx + 1) <=? lua_gettop L
  then Some (set_stack L (take (Z.to_nat (lua_gettop L + idx + 1)) (stack L)))
  else None.

Definition lua_pop (L : lua_State) (n : Z) : option lua_State :=
  lua_settop L (- n - 1).

Definition lua_pushnumber (L : lua_State) (n : double) : lua_State :=
  push L (Number n).

Definition lua_pushstring (L : lua_State) (s : string) : lua_State :=
  push L (Str s).

(** Allocates an empty table and pushes it (the size hints only
    pre-allocate). *)
Definition lua_createtable (L : lua_State) (narr nrec : Z) : lua_State :=
  let r := fresh (dom (tables L)) in
  mkState (stack L ++ [Table r]) (<[r := ∅]> (tables L)) (udata L)
          (udatagc L) (ci_depth L).

(** Pushes [t[n]] for the table at [idx]; an absent key reads as nil. *)
Definition lua_rawgeti (L : lua_State) (idx n : Z) : option lua_State :=
  o ← index2addr L idx;
  match obj L o with
  | Table r => t ← tables L !! r; Some (push L (default Nil (t !! n)))
  | _ => None
  end.

(** [t[n] = v] for the table at [idx] and the value [v] on top, which is
    popped. *)
Definition lua_rawseti (L : lua_State) (idx n : Z) : option lua_State :=
  o ← index2addr L idx;
  match obj L o with
  | Table r =>
      t ← tables L !! r;
      v ← last (stack L);
      Some (mkState (take (length (stack L) - 1) (stack L))
                    (<[r := <[n := v]> t]> (tables L))
                    (udata L) (udatagc L) (ci_depth L))
  | _ => None
  end.

(** Modelled from the spec: the VM's "environment" association of a
    userdata, the single auxiliary table the user-value emulation rests on
    (the VM itself is not part of the header).  [lua_getfenv] pushes the
    table associated with the object at [idx], or nil when there is none.
    Environments of functions and threads are outside the model. *)
Definition lua_getfenv (L : lua_State) (idx : Z) : option lua_State :=
  o ← index2addr L idx;
  match obj L o with
  | Userdata r =>
      u ← udata L !! r;
      Some (push L (match ud_env u with Some e => Table e | None => Nil end))
  | Function _ | Thread _ => None
  | _ => Some (push L Nil)
  end.

(** Modelled from the spec: [lua_setfenv] pops the table on top and makes it
    the environment of the userdata at [idx]; on an object that cannot carry
    one it only pops. *)
Definition lua_setfenv (L : lua_State) (idx : Z) : option lua_State :=
  o ← index2addr L idx;
  v ← last (stack L);
  match v with
  | Table e =>
      let s := take (length (stack L) - 1) (stack L) in
      match obj L o with
      | Userdata r =>
          u ← udata L !! r;
          Some (mkState s (tables L)
                        (<[r := mkUdata (ud_tag u) (ud_size u) (Some e)]> (udata L))
                        (udatagc L) (ci_depth L))
      | Function _ | Thread _ => None
      | _ => Some (set_stack L s)
      end
  | _ => None
  end.

(** Allocates a userdata block carrying [tag] and pushes it; the result is
    paired with the reference of the new block. *)
Definition lua_newuserdatatagged (L : lua_State) (sz tag : Z) : lua_State * nat :=
  let r := fresh (dom (udata L)) in
  (mkState (stack L ++ [Userdata r]) (tables L)
           (<[r := mkUdata tag sz None]> (udata L)) (udatagc L) (ci_depth L), r).

(** The plain allocation is the tagged one with the reserved tag 0. *)
Definition lua_newuserdata (L : lua_State) (sz : Z) : lua_State * nat :=
  lua_newuserdatatagged L sz 0.

(** Binds (or with [None], clears) the finalizer of a tag. *)
Definition lua_setuserdatadtor (L : lua_State) (tag : Z) (dtor : option Dtor) : lua_State :=
  mkState (stack L) (tables L) (udata L)
          (partial_alter (fun _ => dtor) tag (udatagc L)) (ci_depth L).

(** Modelled from the spec: reclamation of a block by the VM, which invokes
    the finalizer bound to the block's tag, if there is one.  The result is
    the finalizer that runs. *)
Definition finalizer_on_reclaim (L : lua_State) (r : nat) : option Dtor :=
  u ← udata L !! r; udatagc L !! ud_tag u.

Definition lua_stackdepth (L : lua_State) : Z := ci_depth L.

Section Numbers.

(** String-to-number coercion of the VM ([luaO_str2d]). *)
Variable str2d : string -> option double.

Definition tonumber (v : Value) : option double :=
  match v with
  | Number n => Some n
  | Str s => str2d s
  | _ => None
  end.

Definition lua_isnumber (L : lua_State) (idx : Z) : option bool :=
  o ← index2addr L idx; Some (bool_decide (is_Some (tonumber (obj L o)))).

(** Returns 0 for a value that is not a number. *)
Definition lua_tonumber (L : lua_State) (idx : Z) : option double :=
  o ← index2addr L idx; Some (default zero (tonumber (obj L o))).

End Numbers.

End VM.

(** ** The shim: namespace [LuauCompat] *)

Module LuauCompat.

Import VM.

(** [thread_local int s_current_debug_level = 0]: one cell per thread,
    reading 0 until the thread first writes it.  The store maps thread
    identifiers to the cells written so far. *)
Definition s_current_debug_level (tls : gmap nat Z) (tid : nat) : Z :=
  default 0 (tls !! tid).

Definition MAX_USERDATA_TAGS : Z := 256.

(** The function-local statics of [get_or_create_tag].  The mutex makes
    every call atomic, so concurrent callers are a sequence of calls on
    this state. *)
Record tag_statics : Type := mkTags {
  tag_map : gmap string Z;
  next_tag : Z
}.

Definition tag_statics_init : tag_statics := mkTags ∅ 1.

(** The [lua_State*] argument is unused; [metatable_name] is the text of
    the C string that keys the map.  [next_tag++] is an [int] increment,
    written with its wrap-around. *)
Definition get_or_create_tag (st : tag_statics) (metatable_name : string)
  : tag_statics * Z :=
  match tag_map st !! metatable_name with
  | Some tag => (st, tag)
  | None =>
      let tag := next_tag st in
      let next := CInt.wrap (next_tag st + 1) in
      if MAX_USERDATA_TAGS <=? tag then (mkTags (tag_map st) next, 0)
      else (mkTags (<[metatable_name := tag]> (tag_map st)) next, tag)
  end.

Definition register_destructor (L : lua_State) (tag : Z) (dtor : option Dtor)
  : lua_State :=
  if (0 <? tag) && (tag <? MAX_USERDATA_TAGS) then lua_setuserdatadtor L tag dtor
  else L.

Definition newuserdata_tagged (L : lua_State) (sz tag : Z) : lua_State * nat :=
  if 0 <? tag then lua_newuserdatatagged L sz tag else lua_newuserdata L sz.

(** A sequence of [get_or_create_tag] calls: the final statics and the tags
    returned, in call order. *)
Fixpoint run_tags (st : tag_statics) (names : list string) : tag_statics * list Z :=
  match names with
  | [] => (st, [])
  | n :: rest =>
      let '(st1, t) := get_or_create_tag st n in
      let '(st2, ts) := run_tags st1 rest in
      (st2, t :: ts)
  end.

(** The tags a call sequence returns when started on the initial statics. *)
Definition tags_of (names : list string) : list Z :=
  snd (run_tags tag_statics_init names).

(** What holds of the statics after at most [k] calls: the counter has
    advanced at most [k] times, and the map sends distinct names to distinct
    tags, all of them handed out by the counter and below the limit. *)
Definition tags_wf (st : tag_statics) (k : Z) : Prop :=
  1 <= next_tag st <= 1 + k /\
  (forall n t, tag_map st !! n = Some t ->
               1 <= t < next_tag st /\ t < MAX_USERDATA_TAGS) /\
  (forall n1 n2 t, tag_map st !! n1 = Some t -> tag_map st !! n2 = Some t ->
                   n1 = n2).

(** Every name the map knows was passed in, and the counter has advanced
    once for every distinct name passed in. *)
Definition tags_seen (st : tag_statics) (seen : gset string) : Prop :=
  dom (tag_map st) ⊆ seen /\ Z.of_nat (size seen) + 1 <= next_tag st.

(** The calls the userdata lifetime adapter offers. *)
Inductive lifetime_call : Type :=
  | RegisterDestructor (tag : Z) (dtor : option Dtor)
  | NewUserdataTagged (sz tag : Z).

Definition lifetime_step (L : lua_State) (c : lifetime_call) : lua_State :=
  match c with
  | RegisterDestructor tag dtor => register_destructor L tag dtor
  | NewUserdataTagged sz tag => fst (newuserdata_tagged L sz tag)
  end.

Definition run_lifetime (L : lua_State) (cs : list lifetime_call) : lua_State :=
  foldl lifetime_step L cs.

End LuauCompat.

(** ** The shim: global functions *)

Import Double VM.

(** [for (int i = 0; i < n; i++) body] *)
Fixpoint for_loop (n : nat) (body : lua_State -> option lua_State)
  (L : lua_State) : option lua_State :=
  match n with
  | O => Some L
  | S k => L1 ← body L; for_loop k body L1
  end.

(** *** Debug API *)

Record lua_Debug : Type := mk_lua_Debug {
  name : option string;       (* [None] is the null pointer *)
  what : option string;
  source : option string;
  short_src : option string;
  linedefined : Z;
  currentline : Z;
  nupvals : Z;
  nparams : Z;
  isvararg : Z
}.

(** The thread-local store is threaded through explicitly; [tid] is the
    calling thread.  Results: the store, the frame record, the return
    value. *)
Definition lua_getstack (tid : nat) (tls : gmap nat Z) (L : lua_State)
  (level : Z) (ar : lua_Debug) : gmap nat Z * lua_Debug * Z :=
  let depth := lua_stackdepth L in
  if (level <? 0) || (depth <=? level) then (tls, ar, 0)
  else
    (<[tid := level]> tls,
     mk_lua_Debug None None None None (-1) (-1)
                  (nupvals ar) (nparams ar) (isvararg ar),
     1).

Section DebugQueries.

(** The VM's query-by-level primitives. *)
Variable lua_getinfo : lua_State -> Z -> string -> lua_Debug -> Z * lua_Debug.
Variable lua_getlocal : lua_State -> Z -> Z -> lua_State * option string.

Definition luau_getinfo_3arg (tid : nat) (tls : gmap nat Z) (L : lua_State)
  (what : string) (ar : lua_Debug) : Z * lua_Debug :=
  lua_getinfo L (LuauCompat.s_current_debug_level tls tid) what ar.

Definition luau_getlocal_3arg (tid : nat) (tls : gmap nat Z) (L : lua_State)
  (ar : lua_Debug) (n : Z) : lua_State * option string :=
  lua_getlocal L (LuauCompat.s_current_debug_level tls tid) n.

End DebugQueries.

(** A sequence of capture calls, each with the thread that makes it; the
    store after the last one. *)
Definition run_getstack (tls : gmap nat Z)
  (calls : list (nat * lua_State * Z * lua_Debug)) : gmap nat Z :=
  foldl (fun tls c => let '(tid, L, level, ar) := c in
                      (lua_getstack tid tls L level ar).1.1) tls calls.

(** The level of the last call of thread [tid] that was in range. *)
Definition last_captured (tid : nat)
  (calls : list (nat * lua_State * Z * lua_Debug)) : option Z :=
  last (omap (fun c : nat * lua_State * Z * lua_Debug =>
                let '(tid1, L, level, _) := c in
                if bool_decide (tid1 = tid) && (0 <=? level)
                   && (level <? lua_stackdepth L)
                then Some level else None) calls).

(** *** 64-bit integers *)

Section Integers.

Variable str2d : string -> option double.

Definition lua_isinteger (L : lua_State) (idx : Z) : option Z :=
  b ← lua_isnumber str2d L idx;
  if negb b then Some 0
  else
    n ← lua_tonumber str2d L idx;
    Some (Z.b2z (eqb n (of_int64 (to_int64 n)))).

Definition lua_pushinteger_64 (L : lua_State) (n : Z) : lua_State :=
  lua_pushnumber L (of_int64 n).

Definition lua_tointeger_64 (L : lua_State) (idx : Z) : option Z :=
  n ← lua_tonumber str2d L idx; Some (to_int64 n).

End Integers.

(** *** Stack rotation *)

(** The unused local [m] of the source is left out. *)
Definition lua_rotate (L : lua_State) (idx n : Z) : option lua_State :=
  let t := lua_gettop L in
  let idx := lua_absindex L idx in
  if 0 <? n then
    for_loop (Z.to_nat n)
      (fun L => L ← lua_pushvalue L idx; L ← lua_remove L idx; lua_insert L t) L
  else if n <? 0 then
    let n := CInt.wrap (- n) in
    for_loop (Z.to_nat n)
      (fun L => L ← lua_pushvalue L t; L ← lua_remove L t; lua_insert L idx) L
  else Some L.

(** One step of each loop, on the rotated slice alone: the first element
    goes to the end, or the last element comes to the front. *)
Definition first_to_end (seg : list Value) : list Value :=
  match seg with
  | [] => []
  | x :: rest => rest ++ [x]
  end.

Definition last_to_front (seg : list Value) : list Value :=
  match last seg with
  | Some y => y :: take (length seg - 1) seg
  | None => []
  end.

(** The indices that denote a live stack slot. *)
Definition valid_index (L : lua_State) (idx : Z) : Prop :=
  1 <= idx <= lua_gettop L \/
  (LUA_REGISTRYINDEX < idx /\ - lua_gettop L <= idx <= -1).

(** Modelled from the spec: the native Lua 5.4 rotate the shim stands in
    for.  It rotates the slots from [idx] to the top by [n] positions,
    toward the top for positive [n] and toward the base for negative [n],
    as three reversals; [|n|] must not exceed the size of the rotated
    slice. *)
Definition native_rotate (L : lua_State) (idx n : Z) : option lua_State :=
  match index2addr L idx with
  | Some (Slot p) =>
      let seg := drop p (stack L) in
      let k := Z.of_nat (length seg) in
      if Z.abs n <=? k then
        let m := Z.to_nat (if 0 <=? n then k - n else - n) in
        Some (set_stack L
                (take p (stack L) ++ rev (rev (take m seg) ++ rev (drop m seg))))
      else None
  | _ => None
  end.

(** *** User values *)

Definition lua_newuserdatauv (L : lua_State) (sz nuvalue : Z)
  : option (lua_State * nat) :=
  let '(L, ud) := lua_newuserdata L sz in
  if 0 <? nuvalue then
    let L := lua_createtable L nuvalue 0 in
    L ← lua_setfenv L (-2); Some (L, ud)
  else Some (L, ud).

(** Leaves the user value (or nil) on top and returns its type. *)
Definition lua_getiuservalue (L : lua_State) (idx n : Z)
  : option (lua_State * lua_Type) :=
  let idx := lua_absindex L idx in
  L ← lua_getfenv L idx;
  b ← lua_isnil L (-1);
  if b : bool then Some (L, LUA_TNIL)
  else
    L ← lua_rawgeti L (-1) n;
    L ← lua_remove L (-2);
    t ← lua_type L (-1);
    Some (L, t).

(** Stores the value on top at position [n] and pops it. *)
Definition lua_setiuservalue (L : lua_State) (idx n : Z)
  : option (lua_State * Z) :=
  let idx := lua_absindex L idx in
  L ← lua_getfenv L idx;
  b ← lua_isnil L (-1);
  L ← (if b : bool then
         L ← lua_pop L 1;
         let L := lua_createtable L 4 0 in
         L ← lua_pushvalue L (-1);
         lua_setfenv L idx
       else Some L);
  L ← lua_pushvalue L (-2);
  L ← lua_rawseti L (-2) n;
  L ← lua_pop L 2;
  Some (L, 1).

(** *** Loading source text *)

Definition LUA_ERRSYNTAX : Z := 3.

(** The bytes a [const char*] denotes: everything before the first NUL. *)
Fixpoint c_str (s : string) : string :=
  match s with
  | EmptyString => EmptyString
  | String c rest => if Ascii.eqb c Ascii.zero then EmptyString
                     else String c (c_str rest)
  end.

Definition string_tail (s : string) : string :=
  match s with
  | EmptyString => EmptyString
  | String _ rest => rest
  end.

Definition starts_with_nul (s : string) : bool :=
  match s with
  | EmptyString => false
  | String c _ => Ascii.eqb c Ascii.zero
  end.

Section Loader.

(** [Luau::compile]: source text to bytecode buffer. *)
Variable compile : string -> string.

(** [luau_load]: the native bytecode loader, with its status. *)
Variable luau_load : lua_State -> string -> string -> Z -> lua_State * Z.

(** [buff] holds the [sz] bytes of the source. *)
Definition luaL_loadbuffer (L : lua_State) (buff : string) (name : string)
  : lua_State * Z :=
  let bytecode := compile buff in
  if bool_decide (bytecode = EmptyString) || starts_with_nul bytecode then
    (if (1 <? String.length bytecode)%nat
     then lua_pushstring L (c_str (string_tail bytecode))
     else lua_pushstring L "compilation failed",
     LUA_ERRSYNTAX)
  else luau_load L name bytecode 0.

(** [s] is read up to its terminator. *)
Definition luaL_loadstring (L : lua_State) (s : string) : lua_State * Z :=
  let len := String.length (c_str s) in
  let bytecode := compile (String.substring 0 len s) in
  if bool_decide (bytecode = EmptyString) || starts_with_nul bytecode then
    (if (1 <? String.length bytecode)%nat
     then lua_pushstring L (c_str (string_tail bytecode))
     else lua_pushstring L "compilation failed",
     LUA_ERRSYNTAX)
  else luau_load L "chunk" bytecode 0.

End Loader.

(** ** Concrete inputs used in the examples below *)

Module Examples.

Definition empty_state (depth : Z) : lua_State := mkState [] ∅ ∅ ∅ depth.

Definition used_frame : lua_Debug :=
  mk_lua_Debug (Some "f") (Some "Lua") (Some "=stdin") (Some "stdin") 10 12 0 0 0.

(** A query primitive that reports the level it was asked about. *)
Definition getinfo_level (L : lua_State) (level : Z) (w : string)
  (ar : lua_Debug) : Z * lua_Debug := (level, ar).

Definition getlocal_none (L : lua_State) (level n : Z)
  : lua_State * option string := (L, None).

(** [n] distinct type names: T0, T1, ... *)
Definition type_names (n : nat) : list string :=
  (fun i : nat => "T" +:+ pretty i) <$> seq 0 n.

(** A compiler whose output is empty. *)
Definition compile_nothing (src : string) : string := EmptyString.

(** A compiler that rejects every source with the diagnostic "oops". *)
Definition compile_reject (src : string) : string :=
  String Ascii.zero "oops".

(** A compiler that accepts every source, producing version byte 6. *)
Definition compile_accept (src : string) : string :=
  String (ascii_of_nat 6) src.

(** A loader that pushes the closure and reports success. *)
Definition load_ok (L : lua_State) (chunkname bytecode : string) (env : Z)
  : lua_State * Z := (push L (Function 0), 0).

End Examples.

(** ** Further shim functions, and notions their properties use *)

Module LifetimeMore.

Import LuauCompat.

(** The call is a [register_destructor] for [tag]. *)
Definition rebinds (tag : Z) (c : lifetime_call) : bool :=
  match c with
  | RegisterDestructor t _ => bool_decide (t = tag)
  | NewUserdataTagged _ _ => false
  end.

End LifetimeMore.

(** *** Slot copy *)

(** VM primitive: stores the top value in the slot and pops it. *)
Definition lua_replace (L : lua_State) (idx : Z) : option lua_State :=
  match index2addr L idx with
  | Some (Slot i) =>
      v ← last (stack L);
      Some (set_stack L (take (length (stack L) - 1) (<[i := v]> (stack L))))
  | _ => None
  end.

Definition lua_copy (L : lua_State) (fromidx toidx : Z) : option lua_State :=
  L ← lua_pushvalue L fromidx;
  lua_replace L toidx.

(** *** 64-bit integers, continued *)

Section IntegersMore.

Variable str2d : string -> option double.

(** [isnum] tells whether the caller passed a pointer to receive the flag.
    Results: the integer, and the flag written through the pointer. *)
Definition lua_tointegerx_64 (L : lua_State) (idx : Z) (isnum : bool)
  : option (Z * option Z) :=
  n ← lua_tonumber str2d L idx;
  flag ← (if isnum then
            b ← lua_isnumber str2d L idx;
            Some (Some (Z.b2z (b && eqb n (of_int64 (to_int64 n)))))
          else Some None);
  Some (to_int64 n, flag).

End IntegersMore.

(** *** Loading files and running chunks *)

Definition LUA_ERRFILE : Z := 6.
Definition LUA_MULTRET : Z := -1.

(** An opened file, as far as [luaL_loadfile] looks at it: what [ftell]
    reports after the seek to the end (a [long], -1 when it fails), and the
    bytes [fread] can deliver. *)
Record FILE : Type := mkFILE {
  f_tell : Z;
  f_data : string
}.

(** The conversion of a [long] to [size_t] (64 bits). *)
Definition to_size_t (z : Z) : Z := z mod 2 ^ 64.

(** How a call ends: it returns, or a C++ exception leaves it. *)
Inductive outcome (A : Type) : Type :=
  | Returned (a : A)
  | Thrown.

Arguments Returned {A} a.
Arguments Thrown {A}.

Section LoaderMore.

Variable compile : string -> string.
Variable luau_load : lua_State -> string -> string -> Z -> lua_State * Z.

(** [fopen (filename, "rb")]; [None] is the null pointer. *)
Variable fopen : string -> option FILE.

(** Whether [std::string content (n, 0)] can be constructed: [n] is within
    [max_size ()] and the memory is there.  Otherwise the constructor
    throws. *)
Variable allocates : Z -> bool.

(** [lua_pcall] of the VM. *)
Variable lua_pcall : lua_State -> Z -> Z -> Z -> lua_State * Z.

(** The size [ftell] reported is used unchecked, converted to [size_t], as
    the length of the buffer.  [fread] delivers at most that many bytes;
    the buffer is handed on only when all of them arrived. *)
Definition luaL_loadfile (L : lua_State) (filename : string)
  : outcome (lua_State * Z) :=
  match fopen filename with
  | None =>
      Returned (lua_pushstring L ("cannot open " +:+ filename), LUA_ERRFILE)
  | Some f =>
      let size := f_tell f in
      if negb (allocates (to_size_t size)) then Thrown
      else
        let content :=
          String.substring 0 (Z.to_nat (to_size_t size)) (f_data f) in
        let read := Z.of_nat (String.length content) in
        if negb (read =? to_size_t size)
        then Returned (lua_pushstring L ("cannot read " +:+ filename),
                       LUA_ERRFILE)
        else Returned (luaL_loadbuffer compile luau_load L content filename)
  end.

(** The macro [luaL_dostring]: [luaL_loadstring (L, s) || lua_pcall (...)]. *)
Definition luaL_dostring (L : lua_State) (s : string) : lua_State * bool :=
  let '(L1, r) := luaL_loadstring compile luau_load L s in
  if negb (r =? 0) then (L1, true)
  else let '(L2, r2) := lua_pcall L1 0 LUA_MULTRET 0 in (L2, negb (r2 =? 0)).

(** The macro [luaL_dofile]. *)
Definition luaL_dofile (L : lua_State) (fn : string)
  : outcome (lua_State * bool) :=
  match luaL_loadfile L fn with
  | Thrown => Thrown
  | Returned (L1, r) =>
      if negb (r =? 0) then Returned (L1, true)
      else let '(L2, r2) := lua_pcall L1 0 LUA_MULTRET 0 in
           Returned (L2, negb (r2 =? 0))
  end.

End LoaderMore.

(** ** The io library built on the shim ([LuauIOLibrary.cpp]) *)

Module IOLib.

(** [std::ios_base::openmode], as the set of its flags. *)
Record openmode : Type := mkMode {
  ios_in : bool;
  ios_out : bool;
  ios_trunc : bool;
  ios_app : bool;
  ios_binary : bool
}.

(** The locals of the mode loop of [lua_io_open]: the three [has_*] flags
    and the bits or-ed into [open_mode] so far. *)
Record mode_scan : Type := mkScan {
  has_read : bool;
  has_write : bool;
  has_binary : bool;
  bit_trunc : bool;
  bit_app : bool
}.

Definition scan_init : mode_scan := mkScan false false false false false.

(** The body of the [switch]. *)
Definition scan_char (st : mode_scan) (c : ascii) : mode_scan :=
  if Ascii.eqb c "r" then
    mkScan true (has_write st) (has_binary st) (bit_trunc st) (bit_app st)
  else if Ascii.eqb c "w" then
    mkScan (has_read st) true (has_binary st) true (bit_app st)
  else if Ascii.eqb c "a" then
    mkScan (has_read st) true (has_binary st) (bit_trunc st) true
  else if Ascii.eqb c "b" then
    mkScan (has_read st) (has_write st) true (bit_trunc st) (bit_app st)
  else if Ascii.eqb c "+" then
    mkScan true true (has_binary st) (bit_trunc st) (bit_app st)
  else st.

(** [for (const char* m = mode; *m; ++m)] *)
Fixpoint scan_mode (m : string) (st : mode_scan) : mode_scan :=
  match m with
  | EmptyString => st
  | String c rest =>
      if Ascii.eqb c Ascii.zero then st else scan_mode rest (scan_char st c)
  end.

(** The [open_mode] handed to [std::fstream::open]. *)
Definition open_mode_of (mode : string) : openmode :=
  let st := scan_mode mode scan_init in
  mkMode (has_read st) (has_write st) (bit_trunc st) (bit_app st)
         (has_binary st).

(** Whether a character occurs in a text. *)
Fixpoint occurs (c : ascii) (s : string) : bool :=
  match s with
  | EmptyString => false
  | String d rest => Ascii.eqb d c || occurs c rest
  end.

(** The [std::fstream] of a handle, as far as the library uses it: the
    characters from the file position on, still to be read (as the stream
    delivers them), the characters written, whether it was opened for
    output and whether with [ios::app], and the state bits [eofbit] and
    [failbit] (which here also stands for [badbit]).  A stream not opened
    for input has nothing to read. *)
Record fstream : Type := mkStream {
  unread : string;
  written : string;
  writable : bool;
  appending : bool;
  eofbit : bool;
  failbit : bool
}.

(** The text after its first [n] characters. *)
Fixpoint skip (n : nat) (s : string) : string :=
  match n, s with
  | O, _ => s
  | S k, String _ rest => skip k rest
  | S _, EmptyString => EmptyString
  end.

(** Splits off the characters before the first newline; the second
    component is what follows the newline, if there is one. *)
Fixpoint split_line (s : string) : string * option string :=
  match s with
  | EmptyString => (EmptyString, None)
  | String c rest =>
      if Ascii.eqb c "010" then (EmptyString, Some rest)
      else let '(l, o) := split_line rest in (String c l, o)
  end.

(** [std::getline (file, line)]: on a stream that is not good it only sets
    [failbit]; otherwise it extracts up to and including the next newline,
    sets [eofbit] when it runs into the end, and fails when it extracted
    nothing.  The result is the line when the call succeeded. *)
Definition getline (f : fstream) : fstream * option string :=
  if eofbit f || failbit f then
    (mkStream (unread f) (written f) (writable f) (appending f) (eofbit f) true,
     None)
  else
    match unread f with
    | EmptyString =>
        (mkStream EmptyString (written f) (writable f) (appending f) true true,
         None)
    | _ =>
        match split_line (unread f) with
        | (l, Some rest) =>
            (mkStream rest (written f) (writable f) (appending f) false false,
             Some l)
        | (l, None) =>
            (mkStream EmptyString (written f) (writable f) (appending f) true
                      false,
             Some l)
        end
    end.

(** [file.write (str, len)]: nothing is written on a stream that is not
    good, and writing no character changes nothing; writing to a stream
    not opened for output fails.  The stream has one file position: the
    characters go to that position and move it, so as many of the unread
    characters are passed over as were written; with [ios::app] they go to
    the end of the file, after which nothing is left to read. *)
Definition fwrite (f : fstream) (bytes : string) : fstream :=
  if eofbit f || failbit f then
    mkStream (unread f) (written f) (writable f) (appending f) (eofbit f) true
  else
    match bytes with
    | EmptyString => f
    | _ =>
        if writable f then
          mkStream (if appending f then EmptyString
                    else skip (String.length bytes) (unread f))
                   (written f +:+ bytes) (writable f) (appending f)
                   (eofbit f) (failbit f)
        else
          mkStream (unread f) (written f) (writable f) (appending f)
                   (eofbit f) true
    end.

Record LuaFileHandle : Type := mkHandle {
  file : fstream;
  is_open : bool;
  mode : string
}.

(** The closures below receive the handle as a pointer ([None] is null) and
    act on it in place; each is given as the handle it leaves and the values
    it returns to Lua. *)

(** [file:close()] *)
Definition file_close (h : option LuaFileHandle)
  : option LuaFileHandle * list Value :=
  match h with
  | Some h0 =>
      if is_open h0 then (Some (mkHandle (file h0) false (mode h0)), [Boolean true])
      else (Some h0, [Boolean true])
  | None => (None, [Boolean true])
  end.

(** The iterator [file:lines()] returns. *)
Definition file_lines_iterator (h : option LuaFileHandle)
  : option LuaFileHandle * list Value :=
  match h with
  | Some h0 =>
      if negb (is_open h0) then (h, [Nil])
      else
        match getline (file h0) with
        | (f, Some line) =>
            (Some (mkHandle f (is_open h0) (mode h0)), [Str (c_str line)])
        | (f, None) => (Some (mkHandle f (is_open h0) (mode h0)), [Nil])
        end
  | None => (h, [Nil])
  end.

(** The iterator [io.lines (filename)] returns: it closes the file when the
    lines run out. *)
Definition io_lines_iterator (h : option LuaFileHandle)
  : option LuaFileHandle * list Value :=
  match h with
  | Some h0 =>
      if negb (is_open h0) then (h, [Nil])
      else
        match getline (file h0) with
        | (f, Some line) =>
            (Some (mkHandle f (is_open h0) (mode h0)), [Str (c_str line)])
        | (f, None) => (Some (mkHandle f false (mode h0)), [Nil])
        end
  | None => (h, [Nil])
  end.

(** Calling an iterator [n] times: the values it returned, in order, and
    the handle it leaves. *)
Fixpoint iterate (step : option LuaFileHandle -> option LuaFileHandle * list Value)
  (n : nat) (h : option LuaFileHandle) : list Value * option LuaFileHandle :=
  match n with
  | O => ([], h)
  | S k =>
      let '(h1, vs) := step h in
      let '(rest, h2) := iterate step k h1 in
      (vs ++ rest, h2)
  end.

Section Write.

(** The VM's conversion of a number to its string ([lua_tolstring]). *)
Variable num2str : double -> string.

(** [file:write (...)], on the arguments after the handle, which start at
    stack index [i].  A string is written with its full length and a number
    is written as the string it converts to; any other argument raises the
    argument error of [luaL_checklstring] (the second result is its
    position) after the arguments before it have been written. *)
Fixpoint write_args (f : fstream) (i : Z) (args : list Value) : fstream * option Z :=
  match args with
  | [] => (f, None)
  | Str s :: rest => write_args (fwrite f s) (i + 1) rest
  | Number n :: rest => write_args (fwrite f (num2str n)) (i + 1) rest
  | _ :: _ => (f, Some i)
  end.

(** [self] is the value at index 1, the handle userdata.  The results are
    the values returned to Lua, or the position of the argument that raised
    the error. *)
Definition file_write (self : Value) (h : option LuaFileHandle) (args : list Value)
  : option LuaFileHandle * (Z + list Value) :=
  match h with
  | Some h0 =>
      if negb (is_open h0) then (h, inr [Nil; Str "file is closed"])
      else
        match write_args (file h0) 2 args with
        | (f, Some bad) => (Some (mkHandle f (is_open h0) (mode h0)), inl bad)
        | (f, None) => (Some (mkHandle f (is_open h0) (mode h0)), inr [self])
        end
  | None => (h, inr [Nil; Str "file is closed"])
  end.

End Write.

(** [file.read (buffer, n)] with [gcount ()]: on a stream that is not good
    it only sets [failbit] and extracts nothing; otherwise it extracts [n]
    characters, or all that are left, setting [eofbit] and [failbit], when
    there are fewer.  The result is the characters extracted. *)
Definition fread (f : fstream) (n : nat) : fstream * string :=
  if eofbit f || failbit f then
    (mkStream (unread f) (written f) (writable f) (appending f) (eofbit f) true,
     EmptyString)
  else if (String.length (unread f) <? n)%nat then
    (mkStream EmptyString (written f) (writable f) (appending f) true true,
     unread f)
  else
    (mkStream (String.substring n (String.length (unread f) - n) (unread f))
              (written f) (writable f) (appending f) false false,
     String.substring 0 n (unread f)).

Section Read.

(** [file >> num]: the formatted extraction of a [double], given as the
    stream it leaves and the number when it succeeded. *)
Variable extract_double : fstream -> fstream * option double.

(** [file:read (format)].  [format] is the C string [luaL_optstring (L, 2,
    "*l")] returned, and [count] what [luaL_optinteger (L, 2, 0)] returns
    for the same argument, [None] when it raises its argument error (the
    result is then [inl]).  Reading all goes through the stream buffer and
    so neither looks at nor changes the state bits. *)
Definition file_read (h : option LuaFileHandle) (format : string) (count : option Z)
  : option LuaFileHandle * (unit + list Value) :=
  match h with
  | Some h0 =>
      if negb (is_open h0) then (h, inr [Nil])
      else if String.eqb format "*a" || String.eqb format "*all" then
        (Some (mkHandle (mkStream EmptyString (written (file h0))
                                  (writable (file h0)) (appending (file h0))
                                  (eofbit (file h0)) (failbit (file h0)))
                        (is_open h0) (mode h0)),
         inr [Str (c_str (unread (file h0)))])
      else if String.eqb format "*l" || String.eqb format "*line" then
        match getline (file h0) with
        | (f, Some line) =>
            (Some (mkHandle f (is_open h0) (mode h0)), inr [Str (c_str line)])
        | (f, None) => (Some (mkHandle f (is_open h0) (mode h0)), inr [Nil])
        end
      else if String.eqb format "*n" then
        match extract_double (file h0) with
        | (f, Some num) =>
            (Some (mkHandle f (is_open h0) (mode h0)), inr [Number num])
        | (f, None) => (Some (mkHandle f (is_open h0) (mode h0)), inr [Nil])
        end
      else
        match count with
        | None => (h, inl tt)
        | Some n =>
            if 0 <? n then
              let '(f, bytes) := fread (file h0) (Z.to_nat n) in
              (Some (mkHandle f (is_open h0) (mode h0)),
               inr [if (0 <? String.length bytes)%nat then Str bytes else Nil])
            else (h, inr [Nil])
        end
  | None => (h, inr [Nil])
  end.

End Read.

(** The formats that select none of the named branches of [file:read]. *)
Definition counted (format : string) : bool :=
  negb (String.eqb format "*a" || String.eqb format "*all"
        || String.eqb format "*l" || String.eqb format "*line"
        || String.eqb format "*n").

(** A text made of lines, each ended by a newline, and a last piece that is
    not. *)
Definition text_of (ls : list string) (tail : string) : string :=
  foldr (fun l acc => l +:+ String "010" acc) tail ls.

(** The lines of such a text: an empty last piece is no line. *)
Definition lines_of (ls : list string) (tail : string) : list string :=
  ls ++ match tail with EmptyString => [] | _ => [tail] end.

End IOLib.

(** ** The metatable helpers of [LuaMadeSimple/LuauCompat.hpp] *)

Module Luau.

Definition MT_KEY_MEMBER_FUNCS : string := "__member_funcs".
Definition MT_KEY_USER_METAMETHODS : string := "__user_metamethods".
Definition MT_KEY_IS_POLYMORPHIC : string := "__is_polymorphic".

(** The state the helpers act on: the VM state, the string-keyed part of
    every table, and the metatable each value has (for a table or a userdata
    its own, for any other value the one of its type). *)
Record State : Type := mkMeta {
  vm : lua_State;
  fields : gmap nat (gmap string Value);
  metatable : Value -> option nat
}.

Definition with_vm (S : State) (L : lua_State) : State :=
  mkMeta L (fields S) (metatable S).

(** [t[key]] read raw; an absent key reads as nil. *)
Definition field_of (S : State) (r : nat) (key : string) : Value :=
  default Nil (t ← fields S !! r; t !! key).

Definition lua_gettop (S : State) : Z := VM.lua_gettop (vm S).

Definition pushv (S : State) (v : Value) : State := with_vm S (push (vm S) v).

Definition lua_pushstring (S : State) (s : string) : State := pushv S (Str s).

Definition lua_pushnil (S : State) : State := pushv S Nil.

Definition lua_pushboolean (S : State) (b : bool) : State := pushv S (Boolean b).

Definition lua_pop (S : State) (n : Z) : option State :=
  L ← VM.lua_pop (vm S) n; Some (with_vm S L).

Definition lua_remove (S : State) (idx : Z) : option State :=
  L ← VM.lua_remove (vm S) idx; Some (with_vm S L).

Definition lua_rawgeti (S : State) (idx n : Z) : option State :=
  L ← VM.lua_rawgeti (vm S) idx n; Some (with_vm S L).

Definition lua_isnil (S : State) (idx : Z) : option bool :=
  VM.lua_isnil (vm S) idx.

Definition lua_istable (S : State) (idx : Z) : option bool :=
  t ← lua_type (vm S) idx; Some (bool_decide (t = LUA_TTABLE)).

Definition lua_isuserdata (S : State) (idx : Z) : option bool :=
  t ← lua_type (vm S) idx; Some (bool_decide (t = LUA_TUSERDATA)).

(** Only nil and false are false. *)
Definition l_isfalse (v : Value) : bool :=
  match v with
  | Nil | Boolean false => true
  | _ => false
  end.

Definition lua_toboolean (S : State) (idx : Z) : option bool :=
  o ← index2addr (vm S) idx; Some (negb (l_isfalse (obj (vm S) o))).

(** Replaces the key on top by [t[key]] for the table at [idx], read raw.
    The helpers only use string keys; other keys are outside this model. *)
Definition lua_rawget (S : State) (idx : Z) : option State :=
  o ← index2addr (vm S) idx;
  match obj (vm S) o with
  | Table r =>
      _ ← tables (vm S) !! r;
      k ← last (stack (vm S));
      match k with
      | Str key =>
          Some (with_vm S
                  (set_stack (vm S)
                     (take (length (stack (vm S)) - 1) (stack (vm S))
                        ++ [field_of S r key])))
      | _ => None
      end
  | _ => None
  end.

(** A raw assignment to a string key; assigning nil leaves the key absent. *)
Definition set_field (t : gmap string Value) (key : string) (v : Value)
  : gmap string Value :=
  match v with
  | Nil => delete key t
  | _ => <[key := v]> t
  end.

(** [t[key] = v] raw, for the table at [idx], the value [v] on top and the
    key below it; both are popped. *)
Definition lua_rawset (S : State) (idx : Z) : option State :=
  o ← index2addr (vm S) idx;
  match obj (vm S) o with
  | Table r =>
      _ ← tables (vm S) !! r;
      v ← last (stack (vm S));
      k ← last (take (length (stack (vm S)) - 1) (stack (vm S)));
      match k with
      | Str key =>
          Some (mkMeta
                  (set_stack (vm S)
                     (take (length (stack (vm S)) - 2) (stack (vm S))))
                  (<[r := set_field (default ∅ (fields S !! r)) key v]>
                     (fields S))
                  (metatable S))
      | _ => None
      end
  | _ => None
  end.

(** Pushes the metatable of the value at [objindex] and returns 1, or pushes
    nothing and returns 0 when the value has none. *)
Definition lua_getmetatable (S : State) (objindex : Z) : option (State * bool) :=
  o ← index2addr (vm S) objindex;
  match metatable S (obj (vm S) o) with
  | Some r => Some (pushv S (Table r), true)
  | None => Some (S, false)
  end.

(** The conversion every helper starts with: a negative index above the
    pseudo-indices is made absolute. *)
Definition to_absolute (S : State) (index : Z) : Z :=
  if (index <? 0) && (LUA_REGISTRYINDEX <? index)
  then lua_gettop S + index + 1 else index.

(** [push_value] is the caller's function; it acts on the state and may
    fail. *)
Definition store_on_metatable_if_absent (S : State) (metatable_index : Z)
  (key : string) (push_value : State -> option State) : option (State * bool) :=
  let metatable_index := to_absolute S metatable_index in
  let S := lua_pushstring S key in
  S ← lua_rawget S metatable_index;
  isnil ← lua_isnil S (-1);
  if negb isnil then
    S ← lua_pop S 1;
    Some (S, false)
  else
    S ← lua_pop S 1;
    let S := lua_pushstring S key in
    S ← push_value S;
    S ← lua_rawset S metatable_index;
    Some (S, true).

Definition get_from_metatable (S : State) (metatable_index : Z) (key : string)
  : option (State * bool) :=
  let metatable_index := to_absolute S metatable_index in
  let S := lua_pushstring S key in
  S ← lua_rawget S metatable_index;
  isnil ← lua_isnil S (-1);
  Some (S, negb isnil).

Definition get_member_funcs_table (S : State) (userdata_index : Z)
  : option (State * bool) :=
  let userdata_index := to_absolute S userdata_index in
  '(S, has) ← lua_getmetatable S userdata_index;
  if negb has then Some (lua_pushnil S, false)
  else
    let S := lua_pushstring S MT_KEY_MEMBER_FUNCS in
    S ← lua_rawget S (-2);
    ist ← lua_istable S (-1);
    if (ist : bool) then
      S ← lua_remove S (-2);
      Some (S, true)
    else
      S ← lua_pop S 1;
      S ← lua_rawgeti S (-1) 1;
      ist ← lua_istable S (-1);
      if (ist : bool) then
        S ← lua_remove S (-2);
        Some (S, true)
      else
        S ← lua_pop S 2;
        Some (lua_pushnil S, false).

Definition get_user_metamethods (S : State) (userdata_index : Z)
  : option (State * bool) :=
  let userdata_index := to_absolute S userdata_index in
  '(S, has) ← lua_getmetatable S userdata_index;
  if negb has then Some (lua_pushnil S, false)
  else
    let S := lua_pushstring S MT_KEY_USER_METAMETHODS in
    S ← lua_rawget S (-2);
    S ← lua_remove S (-2);
    isu ← lua_isuserdata S (-1);
    Some (S, isu).

Definition is_polymorphic_type (S : State) (userdata_index : Z)
  : option (State * bool) :=
  let userdata_index := to_absolute S userdata_index in
  '(S, has) ← lua_getmetatable S userdata_index;
  if negb has then Some (S, false)
  else
    let S := lua_pushstring S MT_KEY_IS_POLYMORPHIC in
    S ← lua_rawget S (-2);
    result ← lua_toboolean S (-1);
    S ← lua_pop S 2;
    Some (S, result).

End Luau.

(** ** Further concrete inputs *)

Module MoreExamples.

(** Three strings on the stack. *)
Definition abc_stack : lua_State :=
  mkState [Str "a"; Str "b"; Str "c"] ∅ ∅ ∅ 1.

(** One userdata block, and a value to store on top. *)
Definition one_block : lua_State :=
  push (lua_newuserdata (Examples.empty_state 1) 8).1 (Str "x").

(** Two userdata blocks, and a value to store on top. *)
Definition two_blocks : lua_State :=
  push (lua_newuserdata (lua_newuserdata (Examples.empty_state 1) 8).1 8).1
       (Str "x").

(** A stream over the text of three lines, the last one not terminated. *)
Definition three_lines : IOLib.fstream :=
  IOLib.mkStream (IOLib.text_of ["ab"; "cd"] "e") EmptyString false false
    false false.

(** A stream opened for reading and writing, over a text of two lines. *)
Definition update_stream : IOLib.fstream :=
  IOLib.mkStream (IOLib.text_of ["ab"; "cd"] EmptyString) EmptyString true false
    false false.

(** A stream with five characters to read. *)
Definition five_bytes : IOLib.fstream :=
  IOLib.mkStream "abcde" EmptyString false false false false.

(** An extraction that never finds a number. *)
Definition extract_none (f : IOLib.fstream) : IOLib.fstream * option double :=
  (f, None).

(** A userdata at index 1 and, at index 2, the table that is the metatable
    of every userdata; the table is empty. *)
Definition bound_object : Luau.State :=
  Luau.mkMeta (mkState [Userdata 0; Table 0] {[0%nat := ∅]} ∅ ∅ 1) ∅
    (fun v => match v with Userdata _ => Some 0%nat | _ => None end).

(** The same, with the metatable's three entries filled in. *)
Definition described_object : Luau.State :=
  Luau.mkMeta
    (mkState [Userdata 0; Table 0] {[0%nat := ∅; 1%nat := ∅]} ∅ ∅ 1)
    {[0%nat := {[Luau.MT_KEY_IS_POLYMORPHIC := Boolean true;
                 Luau.MT_KEY_MEMBER_FUNCS := Table 1;
                 Luau.MT_KEY_USER_METAMETHODS := Userdata 5]}]}
    (fun v => match v with Userdata _ => Some 0%nat | _ => None end).

End MoreExamples.

(** * Properties *)

(** Normalises the state expression a sequence of primitives builds. *)
Ltac vm_state :=
  cbn [stack tables udata udatagc ci_depth push set_stack mbind option_bind].

(** ** Debug-frame adapter *)

Section DebugFrames.

Variable lua_getinfo : lua_State -> Z -> string -> lua_Debug -> Z * lua_Debug.
Variable lua_getlocal : lua_State -> Z -> Z -> lua_State * option string.

Lemma lua_getstack_out_of_range tid tls L level ar :
  level < 0 \/ lua_stackdepth L <= level ->
  lua_getstack tid tls L level ar = (tls, ar, 0).
Proof.
  intros Hout. unfold lua_getstack.
  destruct (level <? 0) eqn:Hneg; [reflexivity|].
  destruct (lua_stackdepth L <=? level) eqn:Hge; [reflexivity|].
  apply Z.ltb_ge in Hneg. apply Z.leb_gt in Hge. lia.
Qed.

Lemma lua_getstack_in_range tid tls L level ar :
  0 <= level < lua_stackdepth L ->
  lua_getstack tid tls L level ar =
    (<[tid := level]> tls,
     mk_lua_Debug None None None None (-1) (-1)
                  (nupvals ar) (nparams ar) (isvararg ar),
     1).
Proof.
  intros [Hlo Hhi]. unfold lua_getstack.
  apply Z.ltb_ge in Hlo. apply Z.leb_gt in Hhi.
  now rewrite Hlo, Hhi.
Qed.

(** The cursor of a thread after any sequence of captures is the level of
    its last successful capture, and 0 when it has none. *)
Lemma run_getstack_cursor tid calls tls :
  LuauCompat.s_current_debug_level (run_getstack tls calls) tid =
  default (LuauCompat.s_current_debug_level tls tid) (last_captured tid calls).
Proof.
  unfold run_getstack, last_captured.
  revert tls. induction calls as [|[[[tid1 L] level] ar] calls IH]; intros tls.
  - reflexivity.
  - cbn [foldl omap list_omap]. rewrite IH. clear IH.
    destruct (Z_lt_ge_dec level 0) as [Hneg|Hnn].
    { rewrite lua_getstack_out_of_range by lia.
      replace (0 <=? level) with false by (symmetry; apply Z.leb_gt; lia).
      rewrite andb_false_r. reflexivity. }
    destruct (Z_lt_ge_dec level (lua_stackdepth L)) as [Hin|Hout].
    2:{ rewrite lua_getstack_out_of_range by lia.
        replace (level <? lua_stackdepth L) with false
          by (symmetry; apply Z.ltb_ge; lia).
        rewrite andb_false_r. reflexivity. }
    rewrite lua_getstack_in_range by lia.
    replace (0 <=? level) with true by (symmetry; apply Z.leb_le; lia).
    replace (level <? lua_stackdepth L) with true
      by (symmetry; apply Z.ltb_lt; lia).
    rewrite !andb_true_r. cbn [fst].
    case_bool_decide as Htid.
    + subst tid1. cbn [mbind option_bind].
      set (rest := omap _ calls).
      unfold LuauCompat.s_current_debug_level.
      rewrite lookup_insert_eq. cbn [default].
      destruct rest as [|z rest] using rev_ind; [reflexivity|].
      change (level :: rest ++ [z]) with ((level :: rest) ++ [z]).
      now rewrite !last_snoc.
    + cbn [mbind option_bind].
      unfold LuauCompat.s_current_debug_level.
      now rewrite lookup_insert_ne.
Qed.

(** C9: [lua_getstack] returns 0 exactly when the level is negative or at
    least the stack depth.  For a level in range it returns 1, stores the
    level in the calling thread's cursor (so the next [luau_getinfo_3arg]
    and [luau_getlocal_3arg] of that thread query that level), and hands
    back a frame whose name, what, source and short_src are null and whose
    linedefined and currentline are -1. *)
Theorem lua_getstack_capture tid tls L level ar :
  ((lua_getstack tid tls L level ar).2 = 0 <->
     level < 0 \/ lua_stackdepth L <= level) /\
  (0 <= level < lua_stackdepth L ->
     exists tls1 ar1,
       lua_getstack tid tls L level ar = (tls1, ar1, 1) /\
       LuauCompat.s_current_debug_level tls1 tid = level /\
       name ar1 = None /\ what ar1 = None /\
       source ar1 = None /\ short_src ar1 = None /\
       linedefined ar1 = -1 /\ currentline ar1 = -1 /\
       (forall L1 w a,
          luau_getinfo_3arg lua_getinfo tid tls1 L1 w a = lua_getinfo L1 level w a) /\
       (forall L1 a n,
          luau_getlocal_3arg lua_getlocal tid tls1 L1 a n = lua_getlocal L1 level n)).
Proof.
  split.
  - split.
    + intros Hret.
      destruct (Z_lt_ge_dec level 0) as [?|Hnn]; [lia|].
      destruct (Z_lt_ge_dec level (lua_stackdepth L)) as [Hin|?]; [|lia].
      rewrite lua_getstack_in_range in Hret by lia. discriminate.
    + intros Hout. now rewrite lua_getstack_out_of_range.
  - intros Hin. eexists _, _. split; [now apply lua_getstack_in_range|].
    assert (Hcur : LuauCompat.s_current_debug_level (<[tid := level]> tls) tid = level).
    { unfold LuauCompat.s_current_debug_level. now rewrite lookup_insert_eq. }
    repeat split; try assumption.
    + intros. unfold luau_getinfo_3arg. now rewrite Hcur.
    + intros. unfold luau_getlocal_3arg. now rewrite Hcur.
Qed.

(** C10: a capture with an out-of-range level returns 0 and changes neither
    the thread-local cursor nor the frame record.  After any history of
    captures, the next query of the thread therefore still uses the level
    of its last successful capture, or the initial 0 when it has none. *)
Theorem lua_getstack_failure_keeps_cursor tid calls L level ar :
  level < 0 \/ lua_stackdepth L <= level ->
  let tls := run_getstack ∅ calls in
  lua_getstack tid tls L level ar = (tls, ar, 0) /\
  (forall L1 w a,
     luau_getinfo_3arg lua_getinfo tid (lua_getstack tid tls L level ar).1.1 L1 w a =
     lua_getinfo L1 (default 0 (last_captured tid calls)) w a) /\
  (forall L1 a n,
     luau_getlocal_3arg lua_getlocal tid (lua_getstack tid tls L level ar).1.1 L1 a n =
     lua_getlocal L1 (default 0 (last_captured tid calls)) n).
Proof.
  intros Hout tls.
  rewrite (lua_getstack_out_of_range tid tls L level ar Hout). cbn [fst].
  assert (Hcur : LuauCompat.s_current_debug_level tls tid =
                 default 0 (last_captured tid calls)).
  { unfold tls. rewrite run_getstack_cursor. reflexivity. }
  repeat split.
  - intros. unfold luau_getinfo_3arg. now rewrite Hcur.
  - intros. unfold luau_getlocal_3arg. now rewrite Hcur.
Qed.

End DebugFrames.

Lemma lua_getstack_capture_witness :
  0 <= 2 < lua_stackdepth (Examples.empty_state 3) /\
  exists tls1 ar1,
    lua_getstack 7%nat ∅ (Examples.empty_state 3) 2 Examples.used_frame
      = (tls1, ar1, 1) /\
    LuauCompat.s_current_debug_level tls1 7%nat = 2 /\
    name ar1 = None /\ what ar1 = None /\
    source ar1 = None /\ short_src ar1 = None /\
    linedefined ar1 = -1 /\ currentline ar1 = -1 /\
    (forall L1 w a,
       luau_getinfo_3arg Examples.getinfo_level 7%nat tls1 L1 w a
       = Examples.getinfo_level L1 2 w a) /\
    (forall L1 a n,
       luau_getlocal_3arg Examples.getlocal_none 7%nat tls1 L1 a n
       = Examples.getlocal_none L1 2 n).
Proof.
  assert (H : 0 <= 2 < lua_stackdepth (Examples.empty_state 3)) by (simpl; lia).
  split; [exact H|].
  exact (proj2 (lua_getstack_capture Examples.getinfo_level Examples.getlocal_none
                  7%nat ∅ (Examples.empty_state 3) 2 Examples.used_frame) H).
Defined.

Lemma lua_getstack_failure_keeps_cursor_witness :
  (5 < 0 \/ lua_stackdepth (Examples.empty_state 3) <= 5) /\
  let calls := [(7%nat, Examples.empty_state 3, 1, Examples.used_frame);
                (8%nat, Examples.empty_state 3, 2, Examples.used_frame);
                (7%nat, Examples.empty_state 3, 4, Examples.used_frame)] in
  let tls := run_getstack ∅ calls in
  lua_getstack 7%nat tls (Examples.empty_state 3) 5 Examples.used_frame
    = (tls, Examples.used_frame, 0) /\
  (forall L1 w a,
     luau_getinfo_3arg Examples.getinfo_level 7%nat
       (lua_getstack 7%nat tls (Examples.empty_state 3) 5 Examples.used_frame).1.1
       L1 w a
     = Examples.getinfo_level L1 (default 0 (last_captured 7%nat calls)) w a) /\
  (forall L1 a n,
     luau_getlocal_3arg Examples.getlocal_none 7%nat
       (lua_getstack 7%nat tls (Examples.empty_state 3) 5 Examples.used_frame).1.1
       L1 a n
     = Examples.getlocal_none L1 (default 0 (last_captured 7%nat calls)) n).
Proof.
  assert (H : 5 < 0 \/ lua_stackdepth (Examples.empty_state 3) <= 5)
    by (right; simpl; lia).
  split; [exact H|].
  exact (lua_getstack_failure_keeps_cursor Examples.getinfo_level
           Examples.getlocal_none 7%nat _ (Examples.empty_state 3) 5
           Examples.used_frame H).
Defined.

(** The history of the example: thread 7 captured level 1, thread 8
    captured level 2, and thread 7's capture of level 4 failed. *)
Example last_captured_example :
  last_captured 7%nat
    [(7%nat, Examples.empty_state 3, 1, Examples.used_frame);
     (8%nat, Examples.empty_state 3, 2, Examples.used_frame);
     (7%nat, Examples.empty_state 3, 4, Examples.used_frame)] = Some 1.
Proof. reflexivity. Qed.

(** ** Loader/compiler adapter *)

Section LoaderProperties.

Variable compile : string -> string.
Variable luau_load : lua_State -> string -> string -> Z -> lua_State * Z.

Lemma c_str_prefix (s : string) :
  String.substring 0 (String.length (c_str s)) s = c_str s.
Proof.
  induction s as [|c s IH]; [reflexivity|].
  cbn [c_str]. destruct (Ascii.eqb c Ascii.zero); [reflexivity|].
  cbn [String.length String.substring]. now rewrite IH.
Qed.

(** Both entry points are the same compile-then-load path. *)
Lemma luaL_loadstring_loadbuffer L s :
  luaL_loadstring compile luau_load L s =
  luaL_loadbuffer compile luau_load L (c_str s) "chunk".
Proof. unfold luaL_loadstring, luaL_loadbuffer. now rewrite c_str_prefix. Qed.

(** C1 (amended): the adapter compiles the source and looks at the first
    byte of the output.  A first byte 0, or an empty output, is the failure
    path: the status is [LUA_ERRSYNTAX] and the message pushed is the rest
    of the buffer, read as a C string, when the buffer has more than one
    byte, and "compilation failed" otherwise.  Any other first byte is the
    success path: the buffer is handed to the native loader, whose result is
    returned as it is.  [luaL_loadstring] is [luaL_loadbuffer] on the text
    of its argument with chunk name "chunk". *)
Theorem luaL_loadbuffer_first_byte L buff chunkname :
  (forall rest, compile buff = String Ascii.zero rest -> rest <> EmptyString ->
     luaL_loadbuffer compile luau_load L buff chunkname
     = (lua_pushstring L (c_str rest), LUA_ERRSYNTAX)) /\
  (compile buff = String Ascii.zero EmptyString \/ compile buff = EmptyString ->
     luaL_loadbuffer compile luau_load L buff chunkname
     = (lua_pushstring L "compilation failed", LUA_ERRSYNTAX)) /\
  (forall c rest, compile buff = String c rest -> c <> Ascii.zero ->
     luaL_loadbuffer compile luau_load L buff chunkname
     = luau_load L chunkname (String c rest) 0) /\
  luaL_loadstring compile luau_load L buff
  = luaL_loadbuffer compile luau_load L (c_str buff) "chunk".
Proof.
  repeat split.
  - intros rest Hc Hrest. unfold luaL_loadbuffer. rewrite Hc.
    destruct rest as [|c rest]; [congruence|]. reflexivity.
  - intros [Hc|Hc]; unfold luaL_loadbuffer; rewrite Hc; reflexivity.
  - intros c rest Hc Hnz. unfold luaL_loadbuffer. rewrite Hc.
    rewrite bool_decide_eq_false_2 by discriminate.
    cbn [starts_with_nul orb].
    destruct (Ascii.eqb c Ascii.zero) eqn:E; [|reflexivity].
    apply Ascii.eqb_eq in E. contradiction.
  - apply luaL_loadstring_loadbuffer.
Qed.

End LoaderProperties.

Lemma luaL_loadbuffer_first_byte_witness :
  (Examples.compile_reject "1+" = String Ascii.zero "oops" /\
   "oops"%string <> EmptyString /\
   luaL_loadbuffer Examples.compile_reject Examples.load_ok
     (Examples.empty_state 1) "1+" "=chunk"
   = (lua_pushstring (Examples.empty_state 1) "oops", LUA_ERRSYNTAX)) /\
  ((Examples.compile_nothing "1+" = String Ascii.zero EmptyString \/
    Examples.compile_nothing "1+" = EmptyString) /\
   luaL_loadbuffer Examples.compile_nothing Examples.load_ok
     (Examples.empty_state 1) "1+" "=chunk"
   = (lua_pushstring (Examples.empty_state 1) "compilation failed",
      LUA_ERRSYNTAX)) /\
  (Examples.compile_accept "return 1" = String (ascii_of_nat 6) "return 1" /\
   ascii_of_nat 6 <> Ascii.zero /\
   luaL_loadbuffer Examples.compile_accept Examples.load_ok
     (Examples.empty_state 1) "return 1" "=chunk"
   = Examples.load_ok (Examples.empty_state 1) "=chunk"
       (String (ascii_of_nat 6) "return 1") 0).
Proof.
  assert (H1 : Examples.compile_reject "1+" = String Ascii.zero "oops") by reflexivity.
  assert (H2 : "oops"%string <> EmptyString) by discriminate.
  assert (H3 : Examples.compile_accept "return 1"
               = String (ascii_of_nat 6) "return 1") by reflexivity.
  assert (H4 : ascii_of_nat 6 <> Ascii.zero) by discriminate.
  assert (H5 : Examples.compile_nothing "1+" = String Ascii.zero EmptyString \/
               Examples.compile_nothing "1+" = EmptyString) by (right; reflexivity).
  split; [|split].
  - split; [exact H1|]. split; [exact H2|].
    exact (proj1 (luaL_loadbuffer_first_byte Examples.compile_reject
                    Examples.load_ok (Examples.empty_state 1) "1+" "=chunk")
                 "oops"%string H1 H2).
  - split; [exact H5|].
    exact (proj1 (proj2 (luaL_loadbuffer_first_byte Examples.compile_nothing
                    Examples.load_ok (Examples.empty_state 1) "1+" "=chunk")) H5).
  - split; [exact H3|]. split; [exact H4|].
    exact (proj1 (proj2 (proj2 (luaL_loadbuffer_first_byte Examples.compile_accept
                    Examples.load_ok (Examples.empty_state 1) "return 1" "=chunk")))
                 (ascii_of_nat 6) "return 1"%string H3 H4).
Defined.

(** C1 as stated fails: with a compiler output whose first byte is 0 the
    adapter does not enter the native loader but reports a syntax error
    carrying the diagnostic; with a non-zero first byte it does not report a
    compile-time failure but returns the loader's result. *)
Lemma luaL_loadbuffer_zero_byte_counterexample :
  starts_with_nul (Examples.compile_reject "1+") = true /\
  luaL_loadbuffer Examples.compile_reject Examples.load_ok
    (Examples.empty_state 1) "1+" "=chunk"
  <> Examples.load_ok (Examples.empty_state 1) "=chunk"
       (Examples.compile_reject "1+") 0 /\
  starts_with_nul (Examples.compile_accept "return 1") = false /\
  luaL_loadbuffer Examples.compile_accept Examples.load_ok
    (Examples.empty_state 1) "return 1" "=chunk"
  <> (lua_pushstring (Examples.empty_state 1)
        (c_str (string_tail (Examples.compile_accept "return 1"))),
      LUA_ERRSYNTAX).
Proof.
  repeat split; try reflexivity; vm_compute; discriminate.
Qed.

(** ** Tag registry *)

Section TagRegistry.

Import LuauCompat.

Lemma wrap_small (z : Z) : CInt.INT_MIN <= z <= CInt.INT_MAX -> CInt.wrap z = z.
Proof.
  unfold CInt.wrap, CInt.INT_MIN, CInt.INT_MAX. intros H.
  rewrite Z.mod_small; lia.
Qed.

Lemma tags_wf_init : tags_wf tag_statics_init 0.
Proof.
  unfold tags_wf, tag_statics_init. cbn. split; [lia|].
  split; intros *; rewrite lookup_empty; discriminate.
Qed.

Lemma tags_seen_init : tags_seen tag_statics_init ∅.
Proof.
  unfold tags_seen, tag_statics_init. cbn. split; [set_solver|].
  rewrite size_empty. lia.
Qed.

(** One call: what it returns and how it leaves the statics. *)
Lemma get_or_create_tag_step st k n st1 t :
  tags_wf st k -> k + 1 < CInt.INT_MAX ->
  get_or_create_tag st n = (st1, t) ->
  tags_wf st1 (k + 1) /\
  tag_map st ⊆ tag_map st1 /\
  next_tag st <= next_tag st1 /\
  (MAX_USERDATA_TAGS <= next_tag st -> tag_map st1 = tag_map st) /\
  (t <> 0 -> tag_map st1 !! n = Some t) /\
  (t = 0 -> tag_map st1 !! n = None /\ MAX_USERDATA_TAGS <= next_tag st1).
Proof.
  intros (Hnext & Hrange & Hinj) Hk Hcall. unfold get_or_create_tag in Hcall.
  assert (Hw : CInt.wrap (next_tag st + 1) = next_tag st + 1).
  { apply wrap_small. unfold CInt.INT_MIN, CInt.INT_MAX in *. lia. }
  rewrite Hw in Hcall. unfold tags_wf.
  destruct (tag_map st !! n) as [t0|] eqn:Hlook.
  - inversion Hcall; subst st1 t; clear Hcall.
    destruct (Hrange _ _ Hlook) as [Ht Hlim].
    split_and!; try done; try lia.
  - destruct (MAX_USERDATA_TAGS <=? next_tag st) eqn:Hfull.
    + apply Z.leb_le in Hfull.
      inversion Hcall; subst st1 t; clear Hcall. cbn.
      split_and!; try done; try lia.
      * intros n0 t1 H1. destruct (Hrange _ _ H1). lia.
      * intros _. split; [done|lia].
    + apply Z.leb_gt in Hfull.
      inversion Hcall; subst st1 t; clear Hcall. cbn.
      split_and!; try lia.
      * intros n0 t1 H1. apply lookup_insert_Some in H1 as [[_ <-]|[_ H1]]; [lia|].
        destruct (Hrange _ _ H1). lia.
      * intros n1 n2 t1 H1 H2.
        apply lookup_insert_Some in H1 as [[<- <-]|[Hne1 H1]];
          apply lookup_insert_Some in H2 as [[<- E2]|[Hne2 H2]]; try done.
        -- destruct (Hrange _ _ H2). lia.
        -- destruct (Hrange _ _ H1). lia.
        -- eauto.
      * now apply insert_subseteq.
      * intros _. apply lookup_insert_eq.
Qed.

(** A sequence of calls: the tag returned at each position is still what
    the final map records for that name (and the fallback 0 of a name stays
    0: the map holds no entry for it). *)
Lemma run_tags_sound names : forall st k st1 ts,
  tags_wf st k -> k + Z.of_nat (length names) < CInt.INT_MAX ->
  run_tags st names = (st1, ts) ->
  tags_wf st1 (k + Z.of_nat (length names)) /\
  tag_map st ⊆ tag_map st1 /\
  next_tag st <= next_tag st1 /\
  (MAX_USERDATA_TAGS <= next_tag st -> tag_map st1 = tag_map st) /\
  (forall i n t, names !! i = Some n -> ts !! i = Some t ->
     (t <> 0 -> tag_map st1 !! n = Some t) /\
     (t = 0 -> tag_map st1 !! n = None)).
Proof.
  induction names as [|n names IH]; intros st k st1 ts Hwf Hk Hrun.
  - cbn in Hrun. inversion Hrun; subst. rewrite Z.add_0_r.
    split_and!; done.
  - cbn [run_tags] in Hrun.
    destruct (get_or_create_tag st n) as [st0 t0] eqn:Hcall.
    destruct (run_tags st0 names) as [st2 ts2] eqn:Hrest.
    inversion Hrun; subst st1 ts; clear Hrun.
    rewrite length_cons, Nat2Z.inj_succ in *.
    destruct (get_or_create_tag_step st k n st0 t0 Hwf ltac:(lia) Hcall)
      as (Hwf0 & Hsub0 & Hmono0 & Hfroz0 & Hnz0 & Hz0).
    destruct (IH st0 (k + 1) st2 ts2 Hwf0 ltac:(lia) Hrest)
      as (Hwf2 & Hsub2 & Hmono2 & Hfroz2 & Hpos).
    replace (k + Z.succ (Z.of_nat (length names)))
      with (k + 1 + Z.of_nat (length names)) by lia.
    split; [exact Hwf2|]. split; [by etrans|]. split; [lia|].
    split; [intros Hfull; rewrite Hfroz2 by lia; auto|].
    intros [|i] n1 t1 Hn Ht; cbn in Hn, Ht.
    + inversion Hn; inversion Ht; subst n1 t1. split.
      * intros Hne. eapply lookup_weaken; [apply Hnz0, Hne|exact Hsub2].
      * intros Hzero. destruct (Hz0 Hzero) as [Hnone Hfull].
        now rewrite Hfroz2.
    + eauto.
Qed.

(** The counter has advanced once for every distinct name passed in. *)
Lemma run_tags_seen names : forall st k seen st1 ts,
  tags_wf st k -> tags_seen st seen ->
  k + Z.of_nat (length names) < CInt.INT_MAX ->
  run_tags st names = (st1, ts) ->
  tags_seen st1 (seen ∪ list_to_set names).
Proof.
  induction names as [|n names IH]; intros st k seen st1 ts Hwf Hseen Hk Hrun.
  - cbn in Hrun. inversion Hrun; subst. cbn.
    now rewrite (right_id_L ∅ (∪)).
  - cbn [run_tags] in Hrun.
    destruct (get_or_create_tag st n) as [st0 t0] eqn:Hcall.
    destruct (run_tags st0 names) as [st2 ts2] eqn:Hrest.
    inversion Hrun; subst st1 ts; clear Hrun.
    rewrite length_cons, Nat2Z.inj_succ in Hk.
    destruct (get_or_create_tag_step st k n st0 t0 Hwf ltac:(lia) Hcall)
      as (Hwf0 & _).
    assert (Hseen0 : tags_seen st0 (seen ∪ {[n]})).
    { destruct Hseen as [Hdom Hsize]. destruct Hwf as (Hnext & _ & _).
      unfold get_or_create_tag in Hcall.
      rewrite wrap_small in Hcall
        by (unfold CInt.INT_MIN, CInt.INT_MAX in *; lia).
      destruct (tag_map st !! n) as [t1|] eqn:Hlook.
      - inversion Hcall; subst st0 t0; clear Hcall.
        assert (n ∈ seen) by (apply Hdom, elem_of_dom; eauto).
        replace (seen ∪ {[n]}) with seen by set_solver. now split.
      - assert (Hsz : (size (seen ∪ {[n]}) <= size seen + 1)%nat).
        { destruct (decide (n ∈ seen)) as [Hin|Hnin].
          - replace (seen ∪ {[n]}) with seen by set_solver. lia.
          - rewrite size_union by set_solver. rewrite size_singleton. lia. }
        destruct (MAX_USERDATA_TAGS <=? next_tag st);
          inversion Hcall; subst st0 t0; clear Hcall;
          unfold tags_seen; cbn [tag_map next_tag]; (split; [|lia]).
        + set_solver.
        + rewrite dom_insert_L. set_solver. }
    cbn [list_to_set].
    replace (seen ∪ ({[n]} ∪ list_to_set names))
      with (seen ∪ {[n]} ∪ list_to_set names) by set_solver.
    eapply (IH st0 (k + 1)); eauto. lia.
Qed.

Lemma register_destructor_keeps_tag0 L tag dtor :
  udatagc L !! 0 = None -> udatagc (register_destructor L tag dtor) !! 0 = None.
Proof.
  intros H. unfold register_destructor.
  destruct (0 <? tag) eqn:Hpos; [|exact H].
  destruct (tag <? MAX_USERDATA_TAGS); [|exact H].
  cbn. apply Z.ltb_lt in Hpos.
  rewrite lookup_partial_alter_ne by lia. exact H.
Qed.

Lemma newuserdata_tagged_udatagc L sz tag :
  udatagc (newuserdata_tagged L sz tag).1 = udatagc L.
Proof. unfold newuserdata_tagged. now destruct (0 <? tag). Qed.

Lemma newuserdata_tagged_udata_mono L sz tag r u :
  udata L !! r = Some u -> udata (newuserdata_tagged L sz tag).1 !! r = Some u.
Proof.
  intros H. unfold newuserdata_tagged, lua_newuserdata, lua_newuserdatatagged.
  destruct (0 <? tag); cbn; rewrite lookup_insert_ne; try done.
  all: intros <-; apply (is_fresh (dom (udata L))), elem_of_dom; eauto.
Qed.

(** The adapter never binds a finalizer to tag 0, and never touches an
    existing block. *)
Lemma run_lifetime_invariant cs : forall L,
  udatagc L !! 0 = None ->
  udatagc (run_lifetime L cs) !! 0 = None /\
  (forall r u, udata L !! r = Some u -> udata (run_lifetime L cs) !! r = Some u).
Proof.
  unfold run_lifetime.
  induction cs as [|c cs IH]; intros L H0; [done|].
  cbn [foldl]. destruct c as [tag dtor|sz tag]; cbn [lifetime_step].
  - destruct (IH (register_destructor L tag dtor)) as [IH1 IH2].
    { now apply register_destructor_keeps_tag0. }
    split; [exact IH1|]. intros r u Hr. apply IH2.
    unfold register_destructor.
    destruct ((0 <? tag) && (tag <? MAX_USERDATA_TAGS)); exact Hr.
  - destruct (IH (newuserdata_tagged L sz tag).1) as [IH1 IH2].
    { now rewrite newuserdata_tagged_udatagc. }
    split; [exact IH1|]. intros r u Hr. apply IH2.
    now apply newuserdata_tagged_udata_mono.
Qed.

(** C4: once [MAX_USERDATA_TAGS] distinct names have gone through
    [get_or_create_tag], the next distinct name gets tag 0 instead of a
    failure; and [newuserdata_tagged] with tag 0 asks for the plain
    allocation, whose block no later use of the lifetime adapter gives a
    finalizer: reclaiming it runs none.  The call count stays within [int],
    and the VM starts with no finalizer bound to the reserved tag 0. *)
Theorem tag_exhaustion_falls_back_to_untagged names x L sz cs :
  Z.of_nat (length names) + 1 < CInt.INT_MAX ->
  MAX_USERDATA_TAGS <= Z.of_nat (size (list_to_set (C := gset string) names)) ->
  x ∉ names ->
  udatagc L !! 0 = None ->
  (get_or_create_tag (run_tags tag_statics_init names).1 x).2 = 0 /\
  newuserdata_tagged L sz 0 = lua_newuserdata L sz /\
  finalizer_on_reclaim
    (run_lifetime (newuserdata_tagged L sz 0).1 cs)
    (newuserdata_tagged L sz 0).2 = None.
Proof.
  intros Hlen Hsize Hx H0. split; [|split].
  - destruct (run_tags tag_statics_init names) as [st ts] eqn:Hrun. cbn [fst].
    destruct (run_tags_seen names _ 0 ∅ st ts tags_wf_init tags_seen_init
                ltac:(lia) Hrun) as [Hdom Hnext].
    rewrite (left_id_L ∅ (∪)) in Hdom, Hnext.
    assert (Hnone : tag_map st !! x = None).
    { apply not_elem_of_dom. intros Hin. apply Hdom in Hin.
      now apply elem_of_list_to_set in Hin. }
    unfold get_or_create_tag. rewrite Hnone.
    replace (MAX_USERDATA_TAGS <=? next_tag st) with true; [reflexivity|].
    symmetry. apply Z.leb_le. lia.
  - reflexivity.
  - set (L1 := (newuserdata_tagged L sz 0).1).
    set (r := (newuserdata_tagged L sz 0).2).
    assert (Hr : udata L1 !! r = Some (mkUdata 0 sz None)).
    { unfold L1, r, newuserdata_tagged, lua_newuserdata, lua_newuserdatatagged.
      cbn. apply lookup_insert_eq. }
    assert (H1 : udatagc L1 !! 0 = None).
    { unfold L1. now rewrite newuserdata_tagged_udatagc. }
    destruct (run_lifetime_invariant cs L1 H1) as [Hgc Hud].
    unfold finalizer_on_reclaim. rewrite (Hud _ _ Hr). cbn. exact Hgc.
Qed.

(** The tag a call sequence returns at a position is what one call returns
    on the statics the calls before it have left. *)
Lemma run_tags_take names : forall st i n t,
  names !! i = Some n -> (run_tags st names).2 !! i = Some t ->
  (get_or_create_tag (run_tags st (take i names)).1 n).2 = t.
Proof.
  induction names as [|m names IH]; intros st i n t Hn Ht; [discriminate|].
  cbn [run_tags] in Ht.
  destruct (get_or_create_tag st m) as [st0 t0] eqn:Hcall.
  destruct (run_tags st0 names) as [st2 ts2] eqn:Hrest. cbn [snd] in Ht.
  destruct i as [|i]; cbn in Hn, Ht.
  - inversion Hn; inversion Ht; subst. cbn [take run_tags fst].
    now rewrite Hcall.
  - cbn [take run_tags]. rewrite Hcall.
    specialize (IH st0 i n t Hn). rewrite Hrest in IH. specialize (IH Ht).
    now destruct (run_tags st0 (take i names)).
Qed.

(** Every tag the counter has passed, below the limit, is in use. *)
Lemma run_tags_onto names : forall st k,
  tags_wf st k -> k + Z.of_nat (length names) < CInt.INT_MAX ->
  (forall t, 1 <= t < next_tag st -> t < MAX_USERDATA_TAGS ->
             exists n, tag_map st !! n = Some t) ->
  forall t, 1 <= t < next_tag (run_tags st names).1 -> t < MAX_USERDATA_TAGS ->
            exists n, tag_map (run_tags st names).1 !! n = Some t.
Proof.
  induction names as [|m names IH]; intros st k Hwf Hk Honto; [exact Honto|].
  cbn [run_tags].
  destruct (get_or_create_tag st m) as [st0 t0] eqn:Hcall.
  rewrite length_cons, Nat2Z.inj_succ in Hk.
  destruct (get_or_create_tag_step st k m st0 t0 Hwf ltac:(lia) Hcall)
    as (Hwf0 & _).
  specialize (IH st0 (k + 1) Hwf0 ltac:(lia)).
  destruct (run_tags st0 names) as [st2 ts2]. cbn [fst] in *.
  apply IH. clear IH.
  destruct Hwf as (Hnext & _ & _).
  unfold get_or_create_tag in Hcall.
  rewrite wrap_small in Hcall by (unfold CInt.INT_MIN, CInt.INT_MAX in *; lia).
  destruct (tag_map st !! m) as [t1|] eqn:Hlook.
  - now inversion Hcall; subst.
  - destruct (MAX_USERDATA_TAGS <=? next_tag st) eqn:Hfull;
      inversion Hcall; subst st0 t0; clear Hcall; cbn [tag_map next_tag];
      intros t Ht Hlim.
    + apply Z.leb_le in Hfull. apply Honto; lia.
    + destruct (decide (t = next_tag st)) as [->|Hne].
      * exists m. apply lookup_insert_eq.
      * destruct (Honto t ltac:(lia) Hlim) as [n Hn]. exists n.
        rewrite lookup_insert_ne; [exact Hn|]. intros <-. congruence.
Qed.

(** A call returns 0 exactly when its name is not in the map the calls
    before it have left and every tag below the limit is in use there. *)
Lemma run_tags_zero names i A ta :
  Z.of_nat (length names) < CInt.INT_MAX ->
  names !! i = Some A -> tags_of names !! i = Some ta ->
  ta = 0 <->
  tag_map (run_tags tag_statics_init (take i names)).1 !! A = None /\
  forall t, 1 <= t < MAX_USERDATA_TAGS ->
    exists n, tag_map (run_tags tag_statics_init (take i names)).1 !! n
              = Some t.
Proof.
  intros Hlen HA Hta. unfold tags_of in Hta.
  assert (Hcall := run_tags_take names tag_statics_init i A ta HA Hta).
  assert (Hli : (length (take i names) <= length names)%nat)
    by (rewrite length_take; lia).
  assert (Honto := run_tags_onto (take i names) tag_statics_init 0
            tags_wf_init ltac:(lia)
            ltac:(cbn [next_tag tag_statics_init]; intros; lia)).
  destruct (run_tags tag_statics_init (take i names)) as [sti tsi] eqn:Hruni.
  destruct (run_tags_sound (take i names) _ 0 sti tsi tags_wf_init
              ltac:(lia) Hruni) as ((Hnexti & Hrangei & _) & _).
  cbn [fst] in *. unfold get_or_create_tag in Hcall.
  destruct (tag_map sti !! A) as [t1|] eqn:Hlook.
  - cbn [snd] in Hcall. subst t1. destruct (Hrangei _ _ Hlook) as [H1 _].
    split; [lia | intros [? _]; discriminate].
  - destruct (MAX_USERDATA_TAGS <=? next_tag sti) eqn:Hfull;
      cbn [snd] in Hcall; subst ta.
    + apply Z.leb_le in Hfull. split; [|reflexivity].
      intros _. split; [reflexivity|]. intros t Ht. apply Honto; lia.
    + apply Z.leb_gt in Hfull. split; [lia|].
      intros [_ Hall]. exfalso.
      destruct (Hall (MAX_USERDATA_TAGS - 1)
                  ltac:(unfold MAX_USERDATA_TAGS; lia)) as [n Hn].
      destruct (Hrangei _ _ Hn). lia.
Qed.

(** C5 (amended): two calls with different names never return the same
    non-zero tag; they return the same tag only when both got the fallback
    0.  A call returns 0 exactly when its name is new, that is not in the
    map the calls before it have left, and the tags 1..255 are all in use
    there.  Two calls with the same name return the same tag.  The call
    count stays within [int]. *)
Theorem get_or_create_tag_distinct_or_fallback names i j A B ta tb :
  Z.of_nat (length names) < CInt.INT_MAX ->
  names !! i = Some A -> names !! j = Some B ->
  tags_of names !! i = Some ta -> tags_of names !! j = Some tb ->
  (A <> B -> ta <> tb \/ (ta = 0 /\ tb = 0)) /\
  (A = B -> ta = tb) /\
  (ta = 0 <->
   tag_map (run_tags tag_statics_init (take i names)).1 !! A = None /\
   forall t, 1 <= t < MAX_USERDATA_TAGS ->
     exists n, tag_map (run_tags tag_statics_init (take i names)).1 !! n
               = Some t) /\
  (tb = 0 <->
   tag_map (run_tags tag_statics_init (take j names)).1 !! B = None /\
   forall t, 1 <= t < MAX_USERDATA_TAGS ->
     exists n, tag_map (run_tags tag_statics_init (take j names)).1 !! n
               = Some t).
Proof.
  intros Hlen HA HB Hta Htb.
  assert (Hza := run_tags_zero names i A ta Hlen HA Hta).
  assert (Hzb := run_tags_zero names j B tb Hlen HB Htb).
  unfold tags_of in Hta, Htb.
  destruct (run_tags tag_statics_init names) as [st ts] eqn:Hrun.
  cbn [snd] in Hta, Htb.
  destruct (run_tags_sound names _ 0 st ts tags_wf_init ltac:(lia) Hrun)
    as ((_ & Hrange & Hinj) & _ & _ & _ & Hpos).
  destruct (Hpos i A ta HA Hta) as [HAnz HAz].
  destruct (Hpos j B tb HB Htb) as [HBnz HBz].
  split; [|split; [|split; [exact Hza | exact Hzb]]].
  - intros Hne. destruct (decide (ta = tb)) as [Heq|]; [|by left].
    right. subst tb. destruct (decide (ta = 0)) as [|Hnz]; [done|].
    exfalso. apply Hne. eapply Hinj; eauto.
  - intros <-. destruct (decide (ta = 0)) as [Hz|Hnz].
    + destruct (decide (tb = 0)) as [|Hnz]; [congruence|].
      rewrite (HAz Hz) in HBnz. specialize (HBnz Hnz). discriminate.
    + destruct (decide (tb = 0)) as [Hz|Hnz'].
      * rewrite (HBz Hz) in HAnz. specialize (HAnz Hnz). discriminate.
      * specialize (HAnz Hnz). specialize (HBnz Hnz'). congruence.
Qed.

End TagRegistry.

Lemma tag_exhaustion_falls_back_to_untagged_witness :
  (Z.of_nat (length (Examples.type_names 256)) + 1 < CInt.INT_MAX /\
   LuauCompat.MAX_USERDATA_TAGS
     <= Z.of_nat (size (list_to_set (C := gset string) (Examples.type_names 256))) /\
   ("Widget" ∉ Examples.type_names 256) /\
   udatagc (Examples.empty_state 1) !! 0 = None) /\
  (LuauCompat.get_or_create_tag
     (LuauCompat.run_tags LuauCompat.tag_statics_init (Examples.type_names 256)).1
     "Widget").2 = 0 /\
  LuauCompat.newuserdata_tagged (Examples.empty_state 1) 16 0
    = lua_newuserdata (Examples.empty_state 1) 16 /\
  finalizer_on_reclaim
    (LuauCompat.run_lifetime
       (LuauCompat.newuserdata_tagged (Examples.empty_state 1) 16 0).1
       [LuauCompat.RegisterDestructor 0 (Some 1%nat);
        LuauCompat.RegisterDestructor 1 (Some 2%nat);
        LuauCompat.NewUserdataTagged 8 1])
    (LuauCompat.newuserdata_tagged (Examples.empty_state 1) 16 0).2 = None.
Proof.
  assert (H1 : Z.of_nat (length (Examples.type_names 256)) + 1 < CInt.INT_MAX)
    by (vm_compute; reflexivity).
  assert (H2 : LuauCompat.MAX_USERDATA_TAGS
     <= Z.of_nat (size (list_to_set (C := gset string) (Examples.type_names 256))))
    by (vm_compute; discriminate).
  assert (H3 : "Widget" ∉ Examples.type_names 256)
    by (apply (bool_decide_unpack _); vm_compute; exact I).
  assert (H4 : udatagc (Examples.empty_state 1) !! 0 = None) by reflexivity.
  split; [by split_and!|].
  exact (tag_exhaustion_falls_back_to_untagged (Examples.type_names 256)
           "Widget" (Examples.empty_state 1) 16 _ H1 H2 H3 H4).
Defined.

Lemma get_or_create_tag_distinct_or_fallback_witness :
  let names := ["A"; "B"; "A"]%string in
  (Z.of_nat (length names) < CInt.INT_MAX /\
   names !! 0%nat = Some "A"%string /\ names !! 1%nat = Some "B"%string /\
   names !! 2%nat = Some "A"%string /\
   LuauCompat.tags_of names !! 0%nat = Some 1 /\
   LuauCompat.tags_of names !! 1%nat = Some 2 /\
   LuauCompat.tags_of names !! 2%nat = Some 1 /\
   "A"%string <> "B"%string) /\
  (1 <> 2 \/ (1 = 0 /\ 2 = 0)) /\ 1 = 1 /\
  (2 = 0 <->
   LuauCompat.tag_map
     (LuauCompat.run_tags LuauCompat.tag_statics_init (take 1 names)).1
     !! "B"%string = None /\
   forall t, 1 <= t < LuauCompat.MAX_USERDATA_TAGS ->
     exists n,
       LuauCompat.tag_map
         (LuauCompat.run_tags LuauCompat.tag_statics_init (take 1 names)).1
         !! n = Some t).
Proof.
  intros names.
  assert (H1 : Z.of_nat (length names) < CInt.INT_MAX) by (vm_compute; reflexivity).
  assert (HA : names !! 0%nat = Some "A"%string) by reflexivity.
  assert (HB : names !! 1%nat = Some "B"%string) by reflexivity.
  assert (HA2 : names !! 2%nat = Some "A"%string) by reflexivity.
  assert (Ht0 : LuauCompat.tags_of names !! 0%nat = Some 1) by reflexivity.
  assert (Ht1 : LuauCompat.tags_of names !! 1%nat = Some 2) by reflexivity.
  assert (Ht2 : LuauCompat.tags_of names !! 2%nat = Some 1) by reflexivity.
  assert (Hne : "A"%string <> "B"%string) by discriminate.
  split; [by split_and!|]. split; [|split].
  - exact (proj1 (get_or_create_tag_distinct_or_fallback names 0%nat 1%nat
                    "A" "B" 1 2 H1 HA HB Ht0 Ht1) Hne).
  - exact (proj1 (proj2 (get_or_create_tag_distinct_or_fallback names 0%nat
                    2%nat "A" "A" 1 1 H1 HA HA2 Ht0 Ht2)) eq_refl).
  - exact (proj2 (proj2 (proj2 (get_or_create_tag_distinct_or_fallback names
                    0%nat 1%nat "A" "B" 1 2 H1 HA HB Ht0 Ht1)))).
Defined.

(** At the fallback: the 256th and 257th distinct names both get 0, and
    the map the earlier calls have left holds every tag 1..255 and neither
    name. *)
Example tag_zero_when_registry_full :
  let names := Examples.type_names 255 ++ ["A"; "B"]%string in
  LuauCompat.tags_of names !! 256%nat = Some 0 /\
  LuauCompat.tag_map
    (LuauCompat.run_tags LuauCompat.tag_statics_init (take 256 names)).1
    !! "B"%string = None /\
  size (LuauCompat.tag_map
          (LuauCompat.run_tags LuauCompat.tag_statics_init (take 256 names)).1)
  = 255%nat.
Proof. vm_compute. by split_and!. Qed.

(** The tags are 1..255: the 255th distinct name gets the last one, the
    256th is the first to get the fallback. *)
Example tag_of_255th_and_256th_name :
  drop 254 (LuauCompat.tags_of (Examples.type_names 256)) = [255; 0].
Proof. vm_compute. reflexivity. Qed.

(** C5 as stated fails: after the 255 tags are handed out, the distinct
    names "A" and "B" both get tag 0. *)
Lemma get_or_create_tag_distinct_counterexample :
  let names := Examples.type_names 255 ++ ["A"; "B"] in
  names !! 255%nat = Some "A"%string /\
  names !! 256%nat = Some "B"%string /\
  "A"%string <> "B"%string /\
  LuauCompat.tags_of names !! 255%nat = Some 0 /\
  LuauCompat.tags_of names !! 256%nat = Some 0.
Proof.
  split_and!; try (vm_compute; reflexivity). discriminate.
Qed.

(** ** Stack manipulation adapter *)

Section Rotation.

Lemma set_stack_set_stack L s1 s2 : set_stack (set_stack L s1) s2 = set_stack L s2.
Proof. reflexivity. Qed.

Lemma set_stack_same L : set_stack L (stack L) = L.
Proof. now destruct L. Qed.

Lemma index2addr_abs L (i : nat) :
  (i < length (stack L))%nat -> index2addr L (Z.of_nat i + 1) = Some (Slot i).
Proof.
  intros Hi. unfold index2addr, lua_gettop.
  replace (0 <? Z.of_nat i + 1) with true by (symmetry; apply Z.ltb_lt; lia).
  replace (Z.of_nat i + 1 <=? Z.of_nat (length (stack L))) with true
    by (symmetry; apply Z.leb_le; lia).
  do 2 f_equal. lia.
Qed.

(** A valid index splits the stack into the part below it and the slice it
    starts; its absolute form is the position of the slice. *)
Lemma valid_index_split L idx :
  valid_index L idx ->
  exists pre seg,
    stack L = pre ++ seg /\ seg <> [] /\
    lua_absindex L idx = Z.of_nat (length pre) + 1 /\
    index2addr L idx = Some (Slot (length pre)).
Proof.
  unfold valid_index, lua_absindex, index2addr, lua_ispseudo, lua_gettop,
    LUA_REGISTRYINDEX.
  intros Hv.
  set (a := if (0 <? idx) || (idx <=? -10000) then idx
            else Z.of_nat (length (stack L)) + idx + 1).
  assert (Ha : 1 <= a <= Z.of_nat (length (stack L))).
  { unfold a. destruct (0 <? idx) eqn:Hpos; cbn [orb].
    - apply Z.ltb_lt in Hpos. lia.
    - apply Z.ltb_ge in Hpos.
      destruct (idx <=? -10000) eqn:Hps; [apply Z.leb_le in Hps; lia|]. lia. }
  exists (take (Z.to_nat (a - 1)) (stack L)), (drop (Z.to_nat (a - 1)) (stack L)).
  split; [now rewrite take_drop|]. split; [|split].
  - intros Hnil. apply (f_equal length) in Hnil.
    rewrite length_drop in Hnil. cbn in Hnil. lia.
  - rewrite length_take. lia.
  - rewrite length_take. unfold a in *.
    destruct (0 <? idx) eqn:Hpos; cbn [orb] in *.
    + apply Z.ltb_lt in Hpos.
      replace (idx <=? Z.of_nat (length (stack L))) with true
        by (symmetry; apply Z.leb_le; lia).
      do 2 f_equal. lia.
    + apply Z.ltb_ge in Hpos.
      destruct (idx <=? -10000) eqn:Hps; [apply Z.leb_le in Hps; lia|].
      apply Z.leb_gt in Hps.
      replace (-10000 <? idx) with true by (symmetry; apply Z.ltb_lt; lia).
      replace (idx <? 0) with true by (symmetry; apply Z.ltb_lt; lia).
      replace (- idx <=? Z.of_nat (length (stack L))) with true
        by (symmetry; apply Z.leb_le; lia).
      cbn [andb]. do 2 f_equal. lia.
Qed.

Lemma take_init_snoc (l : list Value) x :
  take (length (l ++ [x]) - 1) (l ++ [x]) = l.
Proof.
  rewrite length_app. cbn [length]. now rewrite Nat.add_sub, take_app_length.
Qed.

Lemma rotate_up_body L pre seg :
  stack L = pre ++ seg -> seg <> [] ->
  (L1 ← lua_pushvalue L (Z.of_nat (length pre) + 1);
   L2 ← lua_remove L1 (Z.of_nat (length pre) + 1);
   lua_insert L2 (Z.of_nat (length (pre ++ seg))))
  = Some (set_stack L (pre ++ first_to_end seg)).
Proof.
  intros Hs Hne. destruct seg as [|x rest]; [done|]. clear Hne.
  unfold lua_pushvalue.
  rewrite index2addr_abs by (rewrite Hs, length_app; cbn; lia).
  cbn [mbind option_bind obj].
  replace (stack L !! length pre) with (Some x)
    by (rewrite Hs; now rewrite list_lookup_middle).
  cbn [default from_option id]. unfold lua_remove.
  rewrite index2addr_abs by (cbn; rewrite Hs, !length_app; cbn; lia).
  cbn [stack push set_stack]. rewrite Hs.
  replace (delete (length pre) ((pre ++ x :: rest) ++ [x]))
    with (pre ++ rest ++ [x]).
  2:{ rewrite <- (app_assoc pre (x :: rest) [x]). cbn [app].
      now rewrite delete_middle. }
  cbn [mbind option_bind]. unfold lua_insert.
  replace (Z.of_nat (length (pre ++ x :: rest)))
    with (Z.of_nat (length (pre ++ rest)) + 1)
    by (rewrite !length_app; cbn; lia).
  rewrite index2addr_abs by (cbn; rewrite !length_app; cbn; lia).
  cbn [stack set_stack]. rewrite app_assoc, last_snoc.
  cbn [mbind option_bind]. rewrite take_init_snoc.
  rewrite firstn_all, skipn_all. cbn [first_to_end].
  rewrite (app_assoc pre rest [x]). reflexivity.
Qed.

Lemma rotate_down_body L pre seg :
  stack L = pre ++ seg -> seg <> [] ->
  (L1 ← lua_pushvalue L (Z.of_nat (length (pre ++ seg)));
   L2 ← lua_remove L1 (Z.of_nat (length (pre ++ seg)));
   lua_insert L2 (Z.of_nat (length pre) + 1))
  = Some (set_stack L (pre ++ last_to_front seg)).
Proof.
  intros Hs Hne.
  destruct seg as [|y rest _] using rev_ind; [done|]. clear Hne.
  replace (Z.of_nat (length (pre ++ rest ++ [y])))
    with (Z.of_nat (length (pre ++ rest)) + 1)
    by (rewrite !length_app; cbn; lia).
  unfold lua_pushvalue.
  rewrite index2addr_abs by (rewrite Hs, !length_app; cbn; lia).
  cbn [mbind option_bind obj].
  replace (stack L !! length (pre ++ rest)) with (Some y).
  2:{ rewrite Hs, app_assoc. now rewrite list_lookup_middle. }
  cbn [default from_option id]. unfold lua_remove.
  rewrite index2addr_abs by (cbn; rewrite Hs, !length_app; cbn; lia).
  cbn [stack push set_stack]. rewrite Hs.
  replace (delete (length (pre ++ rest)) ((pre ++ rest ++ [y]) ++ [y]))
    with ((pre ++ rest) ++ [y]).
  2:{ rewrite (app_assoc pre rest [y]), <- (app_assoc (pre ++ rest) [y] [y]).
      cbn. now rewrite delete_middle. }
  cbn [mbind option_bind]. unfold lua_insert.
  rewrite index2addr_abs by (cbn; rewrite !length_app; cbn; lia).
  cbn [stack set_stack]. rewrite last_snoc. cbn [mbind option_bind].
  rewrite take_init_snoc, take_app_length, drop_app_length.
  unfold last_to_front. now rewrite last_snoc, take_init_snoc.
Qed.

Lemma first_to_end_length seg : length (first_to_end seg) = length seg.
Proof. destruct seg; [done|]. cbn. rewrite length_app. cbn. lia. Qed.

Lemma last_to_front_length seg : length (last_to_front seg) = length seg.
Proof.
  destruct seg as [|y rest _] using rev_ind; [done|].
  unfold last_to_front. rewrite last_snoc, take_init_snoc.
  rewrite length_app. cbn. lia.
Qed.

Lemma last_to_front_first_to_end seg : last_to_front (first_to_end seg) = seg.
Proof.
  destruct seg as [|x rest]; [done|]. unfold first_to_end, last_to_front.
  now rewrite last_snoc, take_init_snoc.
Qed.

Lemma first_to_end_last_to_front seg : first_to_end (last_to_front seg) = seg.
Proof.
  destruct seg as [|y rest _] using rev_ind; [done|].
  unfold last_to_front. rewrite last_snoc, take_init_snoc.
  now destruct rest.
Qed.

(** A loop whose body rewrites the slice with [g] rewrites it with [g]
    iterated. *)
Lemma for_loop_slice (g : list Value -> list Value) body pre k n :
  (forall l, length (g l) = length l) ->
  (forall L seg, stack L = pre ++ seg -> length seg = k ->
                 body L = Some (set_stack L (pre ++ g seg))) ->
  forall L seg, stack L = pre ++ seg -> length seg = k ->
    for_loop n body L = Some (set_stack L (pre ++ Nat.iter n g seg)).
Proof.
  intros Hg Hbody. induction n as [|n IH]; intros L seg Hs Hk.
  - cbn. now rewrite <- Hs, set_stack_same.
  - cbn [for_loop]. rewrite (Hbody L seg Hs Hk). cbn [mbind option_bind].
    rewrite (IH _ (g seg)); [| reflexivity | now rewrite Hg].
    now rewrite set_stack_set_stack, Nat.iter_succ_r.
Qed.

Lemma iter_cancel (f g : list Value -> list Value) n seg :
  (forall l, g (f l) = l) -> Nat.iter n g (Nat.iter n f seg) = seg.
Proof.
  intros Hgf. induction n as [|n IH]; [done|].
  rewrite Nat.iter_succ_r. cbn. now rewrite Hgf.
Qed.

(** What the shim's rotation does to a stack [pre ++ seg] whose slice
    starts at the index: positive counts move first elements to the end,
    negative counts move last elements to the front. *)
Lemma lua_rotate_slice L idx n pre seg :
  stack L = pre ++ seg -> seg <> [] ->
  lua_absindex L idx = Z.of_nat (length pre) + 1 ->
  Z.abs n <= CInt.INT_MAX ->
  lua_rotate L idx n =
    Some (set_stack L
            (pre ++ if 0 <? n then Nat.iter (Z.to_nat n) first_to_end seg
                    else Nat.iter (Z.to_nat (- n)) last_to_front seg)).
Proof.
  intros Hs Hne Habs Hn. unfold lua_rotate. rewrite Habs.
  unfold lua_gettop. rewrite Hs.
  assert (Hbody_len : forall seg1, length seg1 = length seg ->
            seg1 <> [] /\ length (pre ++ seg) = length (pre ++ seg1)).
  { intros seg1 Hl. split; [|rewrite !length_app; lia].
    intros ->. destruct seg; [done|discriminate]. }
  destruct (0 <? n) eqn:Hpos.
  - apply (for_loop_slice first_to_end _ _ (length seg));
      auto using first_to_end_length.
    intros L1 seg1 Hs1 Hl1. destruct (Hbody_len _ Hl1) as [Hne1 ->].
    now apply rotate_up_body.
  - apply Z.ltb_ge in Hpos. destruct (n <? 0) eqn:Hneg.
    + rewrite wrap_small by (unfold CInt.INT_MIN, CInt.INT_MAX in *; lia).
      apply (for_loop_slice last_to_front _ _ (length seg));
        auto using last_to_front_length.
      intros L1 seg1 Hs1 Hl1. destruct (Hbody_len _ Hl1) as [Hne1 ->].
      now apply rotate_down_body.
    + apply Z.ltb_ge in Hneg. replace n with 0 by lia.
      change (Nat.iter (Z.to_nat (- 0)) last_to_front seg) with seg.
      now rewrite <- Hs, set_stack_same.
Qed.

Lemma iter_length (g : list Value -> list Value) n seg :
  (forall l, length (g l) = length l) -> length (Nat.iter n g seg) = length seg.
Proof. intros Hg. induction n as [|n IH]; [done|]. cbn. now rewrite Hg. Qed.

(** C6: on a stack of three or more elements, for a valid index and a
    count [n] (with [-n] an [int] as well), [lua_rotate idx n] followed by
    [lua_rotate idx (-n)] gives back the original stack. *)
Theorem lua_rotate_then_inverse L idx n :
  (3 <= length (stack L))%nat ->
  valid_index L idx ->
  Z.abs n <= CInt.INT_MAX ->
  exists L1, lua_rotate L idx n = Some L1 /\ lua_rotate L1 idx (- n) = Some L.
Proof.
  intros _ Hv Hn.
  destruct (valid_index_split L idx Hv) as (pre & seg & Hs & Hne & Habs & _).
  rewrite (lua_rotate_slice L idx n pre seg Hs Hne Habs Hn).
  eexists. split; [reflexivity|].
  set (seg1 := if 0 <? n then Nat.iter (Z.to_nat n) first_to_end seg
               else Nat.iter (Z.to_nat (- n)) last_to_front seg).
  assert (Hlen1 : length seg1 = length seg).
  { unfold seg1. destruct (0 <? n);
      apply iter_length; auto using first_to_end_length, last_to_front_length. }
  assert (Hne1 : seg1 <> []).
  { intros E. rewrite E in Hlen1. destruct seg; [done|discriminate]. }
  assert (Habs1 : lua_absindex (set_stack L (pre ++ seg1)) idx
                  = Z.of_nat (length pre) + 1).
  { rewrite <- Habs. unfold lua_absindex, lua_gettop. cbn [stack set_stack].
    now rewrite Hs, !length_app, Hlen1. }
  rewrite (lua_rotate_slice (set_stack L (pre ++ seg1)) idx (- n) pre seg1
             eq_refl Hne1 Habs1)
    by (rewrite Z.abs_opp; exact Hn).
  rewrite set_stack_set_stack. f_equal.
  rewrite <- (set_stack_same L) at 2. rewrite Hs. do 2 f_equal.
  unfold seg1. destruct (0 <? n) eqn:Hpos.
  - apply Z.ltb_lt in Hpos.
    replace (0 <? - n) with false by (symmetry; apply Z.ltb_ge; lia).
    rewrite Z.opp_involutive.
    apply iter_cancel, last_to_front_first_to_end.
  - apply Z.ltb_ge in Hpos. destruct (0 <? - n) eqn:Hneg.
    + apply iter_cancel, first_to_end_last_to_front.
    + apply Z.ltb_ge in Hneg. now replace n with 0 by lia.
Qed.

Lemma iter_first_to_end m seg :
  (m <= length seg)%nat ->
  Nat.iter m first_to_end seg = drop m seg ++ take m seg.
Proof.
  induction m as [|m IH]; intros Hm.
  - cbn. now rewrite app_nil_r.
  - cbn [Nat.iter nat_rect]. change (nat_rect _ _ _ m) with (Nat.iter m first_to_end seg).
    rewrite IH by lia.
    destruct (lookup_lt_is_Some_2 seg m ltac:(lia)) as [x Hx].
    rewrite (drop_S _ _ _ Hx), (take_S_r _ _ _ Hx). cbn [app first_to_end].
    now rewrite <- app_assoc.
Qed.

Lemma iter_last_to_front j seg :
  (j <= length seg)%nat ->
  Nat.iter j last_to_front seg
  = drop (length seg - j) seg ++ take (length seg - j) seg.
Proof.
  induction j as [|j IH]; intros Hj.
  - cbn. now rewrite Nat.sub_0_r, drop_all, firstn_all.
  - cbn [Nat.iter nat_rect]. change (nat_rect _ _ _ j) with (Nat.iter j last_to_front seg).
    rewrite IH by lia.
    destruct (lookup_lt_is_Some_2 seg (length seg - S j) ltac:(lia)) as [y Hy].
    replace (length seg - j)%nat with (S (length seg - S j)) by lia.
    rewrite (take_S_r _ _ _ Hy), (drop_S _ _ _ Hy).
    rewrite app_assoc. unfold last_to_front.
    now rewrite last_snoc, take_init_snoc.
Qed.

(** On every valid index and every count within the slice, the shim's
    rotation is the native rotation by the opposite count. *)
Lemma lua_rotate_is_native_opposite L idx n :
  valid_index L idx ->
  lua_gettop L <= CInt.INT_MAX ->
  Z.abs n <= lua_gettop L - lua_absindex L idx + 1 ->
  lua_rotate L idx n = native_rotate L idx (- n).
Proof.
  intros Hv Htop Hn.
  destruct (valid_index_split L idx Hv) as (pre & seg & Hs & Hne & Habs & Haddr).
  assert (Hk : lua_gettop L - lua_absindex L idx + 1 = Z.of_nat (length seg)).
  { rewrite Habs. unfold lua_gettop. rewrite Hs, length_app. lia. }
  rewrite Hk in Hn.
  assert (Hseg : Z.of_nat (length seg) <= CInt.INT_MAX).
  { unfold lua_gettop in Htop. rewrite Hs, length_app in Htop. lia. }
  rewrite (lua_rotate_slice L idx n pre seg Hs Hne Habs) by lia.
  unfold native_rotate. rewrite Haddr, Hs, drop_app_length, take_app_length.
  rewrite Z.abs_opp.
  replace (Z.abs n <=? Z.of_nat (length seg)) with true
    by (symmetry; apply Z.leb_le; lia).
  do 3 f_equal. rewrite rev_app_distr, !rev_involutive.
  destruct (0 <? n) eqn:Hpos.
  - apply Z.ltb_lt in Hpos.
    replace (0 <=? - n) with false by (symmetry; apply Z.leb_gt; lia).
    rewrite Z.opp_involutive. apply iter_first_to_end. lia.
  - apply Z.ltb_ge in Hpos.
    replace (0 <=? - n) with true by (symmetry; apply Z.leb_le; lia).
    rewrite iter_last_to_front by lia.
    replace (Z.to_nat (Z.of_nat (length seg) - - n))
      with (length seg - Z.to_nat (- n))%nat by lia.
    reflexivity.
Qed.

End Rotation.

Lemma lua_rotate_then_inverse_witness :
  let L := mkState [Str "a"; Str "b"; Str "c"; Str "d"] ∅ ∅ ∅ 1 in
  ((3 <= length (stack L))%nat /\ valid_index L (-3) /\ Z.abs 2 <= CInt.INT_MAX) /\
  exists L1, lua_rotate L (-3) 2 = Some L1 /\ lua_rotate L1 (-3) (- 2) = Some L.
Proof.
  intros L.
  assert (H1 : (3 <= length (stack L))%nat) by (cbn; lia).
  assert (H2 : valid_index L (-3)) by (right; vm_compute; intuition discriminate).
  assert (H3 : Z.abs 2 <= CInt.INT_MAX) by (vm_compute; discriminate).
  split; [by split_and!|].
  exact (lua_rotate_then_inverse L (-3) 2 H1 H2 H3).
Defined.

(** C3, at a concrete stack: rotating [a; b; c] from index 1 by one
    position, the native rotate moves the top to the base ([c; a; b]); the
    shim moves the base to the top ([b; c; a]), which is the native
    rotation by -1. *)
Theorem lua_rotate_diverges_from_native :
  let L := mkState [Str "a"; Str "b"; Str "c"] ∅ ∅ ∅ 1 in
  native_rotate L 1 1 = Some (set_stack L [Str "c"; Str "a"; Str "b"]) /\
  lua_rotate L 1 1 = Some (set_stack L [Str "b"; Str "c"; Str "a"]) /\
  lua_rotate L 1 1 = native_rotate L 1 (-1) /\
  lua_rotate L 1 1 <> native_rotate L 1 1.
Proof.
  split_and!; try reflexivity. vm_compute. discriminate.
Qed.

(** ** User-value emulation *)

Section UserValues.

Lemma index2addr_slot L idx p :
  index2addr L idx = Some (Slot p) ->
  lua_absindex L idx = Z.of_nat p + 1 /\ (p < length (stack L))%nat.
Proof.
  unfold index2addr, lua_absindex, lua_ispseudo, lua_gettop.
  destruct (0 <? idx) eqn:Hpos; cbn [orb].
  - apply Z.ltb_lt in Hpos.
    destruct (idx <=? _) eqn:Hle; intros [= <-]. apply Z.leb_le in Hle. lia.
  - apply Z.ltb_ge in Hpos.
    destruct (LUA_REGISTRYINDEX <? idx) eqn:Hps; [|discriminate].
    apply Z.ltb_lt in Hps.
    replace (idx <=? LUA_REGISTRYINDEX) with false
      by (symmetry; apply Z.leb_gt; lia).
    destruct (idx <? 0) eqn:Hneg; [|discriminate]. apply Z.ltb_lt in Hneg.
    destruct (- idx <=? _) eqn:Hle; [|discriminate]. apply Z.leb_le in Hle.
    cbn [andb]. intros [= <-]. lia.
Qed.

Lemma index2addr_top L s x :
  stack L = s ++ [x] -> index2addr L (-1) = Some (Slot (length s)).
Proof.
  intros Hs. unfold index2addr, lua_gettop. rewrite Hs, length_app.
  cbn [length Z.ltb Z.compare LUA_REGISTRYINDEX andb].
  replace (- -1 <=? Z.of_nat (length s + 1)) with true
    by (symmetry; apply Z.leb_le; lia).
  do 2 f_equal. lia.
Qed.

Lemma index2addr_below_top L s x y :
  stack L = s ++ [x; y] -> index2addr L (-2) = Some (Slot (length s)).
Proof.
  intros Hs. unfold index2addr, lua_gettop. rewrite Hs, length_app.
  cbn [length Z.ltb Z.compare LUA_REGISTRYINDEX andb].
  replace (- -2 <=? Z.of_nat (length s + 2)) with true
    by (symmetry; apply Z.leb_le; lia).
  do 2 f_equal. lia.
Qed.

Lemma lua_pop_1 L s x : stack L = s ++ [x] -> lua_pop L 1 = Some (set_stack L s).
Proof.
  intros Hs. unfold lua_pop, lua_settop, lua_gettop. rewrite Hs, length_app.
  cbn [length]. change (- (1) - 1) with (-2). change (0 <=? -2) with false.
  cbv iota.
  replace (- (-2 + 1) <=? Z.of_nat (length s + 1)) with true
    by (symmetry; apply Z.leb_le; lia).
  replace (Z.to_nat (Z.of_nat (length s + 1) + -2 + 1)) with (length s) by lia.
  now rewrite take_app_length.
Qed.

Lemma lua_pop_2 L s x y :
  stack L = s ++ [x; y] -> lua_pop L 2 = Some (set_stack L s).
Proof.
  intros Hs. unfold lua_pop, lua_settop, lua_gettop. rewrite Hs, length_app.
  cbn [length]. change (- (2) - 1) with (-3). change (0 <=? -3) with false.
  cbv iota.
  replace (- (-3 + 1) <=? Z.of_nat (length s + 2)) with true
    by (symmetry; apply Z.leb_le; lia).
  replace (Z.to_nat (Z.of_nat (length s + 2) + -3 + 1)) with (length s) by lia.
  now rewrite take_app_length.
Qed.

Lemma obj_top L s x : stack L = s ++ [x] -> obj L (Slot (length s)) = x.
Proof. intros Hs. cbn. now rewrite Hs, list_lookup_middle. Qed.

Lemma obj_lower L s t p :
  stack L = s ++ t -> (p < length s)%nat ->
  obj L (Slot p) = default Nil (s !! p).
Proof. intros Hs Hp. cbn. now rewrite Hs, lookup_app_l. Qed.

Lemma lua_getfenv_userdata L a p r u :
  index2addr L a = Some (Slot p) -> obj L (Slot p) = Userdata r ->
  udata L !! r = Some u ->
  lua_getfenv L a
  = Some (push L (match ud_env u with Some e => Table e | None => Nil end)).
Proof.
  intros Ha Ho Hu. unfold lua_getfenv. rewrite Ha. cbn [mbind option_bind].
  rewrite Ho, Hu. reflexivity.
Qed.

Lemma lua_isnil_top L s x :
  stack L = s ++ [x] -> lua_isnil L (-1) = Some (bool_decide (ttype x = LUA_TNIL)).
Proof.
  intros Hs. unfold lua_isnil, lua_type. rewrite (index2addr_top L s x Hs).
  cbn [mbind option_bind]. now rewrite (obj_top L s x Hs).
Qed.

(** The user value read at position [n]: the entry of the auxiliary table,
    nil when there is no table or no entry. *)
Lemma lua_getiuservalue_reads L idx p r u n :
  index2addr L idx = Some (Slot p) ->
  stack L !! p = Some (Userdata r) ->
  udata L !! r = Some u ->
  (forall e, ud_env u = Some e -> is_Some (tables L !! e)) ->
  let v := match ud_env u with
           | Some e => default Nil (t ← tables L !! e; t !! n)
           | None => Nil
           end in
  lua_getiuservalue L idx n = Some (push L v, ttype v).
Proof.
  intros Ha Hp Hu Henv v.
  destruct (index2addr_slot L idx p Ha) as [Habs Hlt].
  assert (Ho : obj L (Slot p) = Userdata r) by (cbn; now rewrite Hp).
  unfold lua_getiuservalue. rewrite Habs.
  rewrite (lua_getfenv_userdata L _ p r u (index2addr_abs L p Hlt) Ho Hu).
  cbn [mbind option_bind].
  destruct (ud_env u) as [e|] eqn:He.
  - destruct (Henv e eq_refl) as [t Ht].
    rewrite (lua_isnil_top _ (stack L) (Table e)) by reflexivity.
    cbn [mbind option_bind ttype].
    rewrite bool_decide_eq_false_2 by discriminate.
    cbn [mbind option_bind]. unfold lua_rawgeti.
    rewrite (index2addr_top _ (stack L) (Table e)) by reflexivity.
    cbn [mbind option_bind].
    rewrite (obj_top _ (stack L) (Table e)) by reflexivity.
    cbn [tables push set_stack]. rewrite Ht. cbn [mbind option_bind].
    cbn [mbind option_bind]. unfold lua_remove.
    rewrite (index2addr_below_top _ (stack L) (Table e) (default Nil (t !! n)))
      by (cbn; now rewrite <- app_assoc).
    cbn [stack push set_stack]. rewrite <- app_assoc. cbn [app].
    rewrite delete_middle.
    cbn [mbind option_bind]. unfold lua_type.
    rewrite (index2addr_top _ (stack L) (default Nil (t !! n))) by reflexivity.
    cbn [mbind option_bind].
    rewrite (obj_top _ (stack L) (default Nil (t !! n))) by reflexivity.
    unfold v. rewrite Ht. reflexivity.
  - rewrite (lua_isnil_top _ (stack L) Nil) by reflexivity. reflexivity.
Qed.

(** What [lua_setiuservalue] leaves behind: the value is popped, the
    userdata has an auxiliary table, and that table is the old one (or an
    empty one, created on first use) with the value stored at [n]. *)
Lemma lua_setiuservalue_stores L s v idx p r u n :
  stack L = s ++ [v] ->
  index2addr L idx = Some (Slot p) ->
  s !! p = Some (Userdata r) ->
  udata L !! r = Some u ->
  (forall e, ud_env u = Some e -> is_Some (tables L !! e)) ->
  exists L1 e u1,
    lua_setiuservalue L idx n = Some (L1, 1) /\
    stack L1 = s /\
    udata L1 !! r = Some u1 /\ ud_env u1 = Some e /\
    tables L1 !! e
    = Some (<[n := v]> (match ud_env u with
                         | Some e0 => default ∅ (tables L !! e0)
                         | None => ∅
                         end)).
Proof.
  intros Hs Ha Hp Hu Henv.
  destruct (index2addr_slot L idx p Ha) as [Habs Hlt].
  assert (Hps : (p < length s)%nat) by (eapply lookup_lt_Some; eauto).
  assert (Ho : obj L (Slot p) = Userdata r).
  { rewrite (obj_lower L s [v] p Hs Hps). now rewrite Hp. }
  unfold lua_setiuservalue. rewrite Habs.
  rewrite (lua_getfenv_userdata L _ p r u (index2addr_abs L p Hlt) Ho Hu).
  cbn [mbind option_bind].
  destruct (ud_env u) as [e|] eqn:He.
  - destruct (Henv e eq_refl) as [t Ht].
    rewrite (lua_isnil_top _ (stack L) (Table e)) by reflexivity.
    cbn [mbind option_bind ttype].
    rewrite bool_decide_eq_false_2 by discriminate.
    cbn [mbind option_bind]. unfold lua_pushvalue.
    rewrite (index2addr_below_top _ s v (Table e))
      by (cbn; rewrite Hs, <- app_assoc; reflexivity).
    cbn [mbind option_bind].
    replace (obj (push L (Table e)) (Slot (length s))) with v.
    2:{ cbn. rewrite Hs, <- app_assoc. cbn [app].
        now rewrite list_lookup_middle. }
    cbn [mbind option_bind]. unfold lua_rawseti.
    rewrite (index2addr_below_top _ (s ++ [v]) (Table e) v)
      by (cbn; rewrite Hs, <- !app_assoc; reflexivity).
    cbn [mbind option_bind].
    replace (obj (push (push L (Table e)) v) (Slot (length (s ++ [v]))))
      with (Table e).
    2:{ cbn. rewrite Hs. rewrite <- (app_assoc (s ++ [v]) [Table e] [v]).
        cbn [app]. now rewrite list_lookup_middle. }
    cbn [tables push set_stack]. rewrite Ht. cbn [mbind option_bind].
    cbn [stack push set_stack udata udatagc ci_depth]. rewrite last_snoc.
    cbn [mbind option_bind]. rewrite take_init_snoc.
    erewrite lua_pop_2 by (cbn [stack]; rewrite Hs, <- app_assoc; reflexivity).
    cbn [mbind option_bind].
    eexists _, e, u. split; [reflexivity|].
    cbn [stack tables udata set_stack default from_option id].
    split_and!; try done. apply lookup_insert_eq.
  - rewrite (lua_isnil_top _ (stack L) Nil) by reflexivity.
    cbn [mbind option_bind ttype]. rewrite bool_decide_eq_true_2 by reflexivity.
    rewrite (lua_pop_1 _ (stack L) Nil) by reflexivity.
    unfold lua_createtable. vm_state. set (e := fresh (dom (tables L))).
    unfold lua_pushvalue.
    rewrite (index2addr_top _ (stack L) (Table e)) by reflexivity. vm_state.
    rewrite (obj_top _ (stack L) (Table e)) by reflexivity. vm_state.
    unfold lua_setfenv.
    rewrite index2addr_abs by (cbn; rewrite !length_app; lia).
    vm_state. rewrite last_snoc, take_init_snoc. vm_state.
    replace (obj _ (Slot p)) with (Userdata r).
    2:{ cbn. rewrite Hs, <- !app_assoc. now rewrite lookup_app_l, Hp. }
    rewrite Hu. vm_state. unfold lua_pushvalue.
    rewrite (index2addr_below_top _ s v (Table e))
      by (cbn; rewrite Hs, <- app_assoc; reflexivity).
    vm_state. replace (obj _ (Slot (length s))) with v.
    2:{ cbn. rewrite Hs, <- app_assoc. cbn [app].
        now rewrite list_lookup_middle. }
    vm_state. unfold lua_rawseti.
    rewrite (index2addr_below_top _ (s ++ [v]) (Table e) v)
      by (cbn; rewrite Hs, <- !app_assoc; reflexivity).
    vm_state. replace (obj _ (Slot (length (s ++ [v])))) with (Table e).
    2:{ cbn. rewrite Hs. rewrite <- (app_assoc (s ++ [v]) [Table e] [v]).
        cbn [app]. now rewrite list_lookup_middle. }
    vm_state. rewrite lookup_insert_eq. vm_state.
    rewrite last_snoc, take_init_snoc. vm_state.
    erewrite lua_pop_2 by (cbn [stack]; rewrite Hs, <- app_assoc; reflexivity).
    vm_state.
    eexists _, e, _. split; [reflexivity|].
    split_and!; try done.
    + apply lookup_insert_eq.
    + reflexivity.
    + apply lookup_insert_eq.
Qed.

(** C8: after [lua_setiuservalue] has stored the value on top at position
    [n] of a userdata (creating the auxiliary table on first use),
    [lua_getiuservalue] at [n] pushes that value and returns its type; and
    [lua_getiuservalue] pushes nil and returns the nil type, without
    failing, when the userdata has no auxiliary table or its table has no
    entry at [n]. *)
Theorem uservalue_set_then_get :
  (forall L s v idx p r u n,
     stack L = s ++ [v] ->
     index2addr L idx = Some (Slot p) ->
     s !! p = Some (Userdata r) ->
     udata L !! r = Some u ->
     (forall e, ud_env u = Some e -> is_Some (tables L !! e)) ->
     exists L1,
       lua_setiuservalue L idx n = Some (L1, 1) /\
       stack L1 = s /\
       forall idx1, index2addr L1 idx1 = Some (Slot p) ->
         lua_getiuservalue L1 idx1 n = Some (push L1 v, ttype v)) /\
  (forall L idx p r u n,
     index2addr L idx = Some (Slot p) ->
     stack L !! p = Some (Userdata r) ->
     udata L !! r = Some u ->
     (ud_env u = None \/
      exists e t, ud_env u = Some e /\ tables L !! e = Some t /\ t !! n = None) ->
     lua_getiuservalue L idx n = Some (push L Nil, LUA_TNIL)).
Proof.
  split.
  - intros L s v idx p r u n Hs Ha Hp Hu Henv.
    destruct (lua_setiuservalue_stores L s v idx p r u n Hs Ha Hp Hu Henv)
      as (L1 & e & u1 & Hset & Hs1 & Hu1 & He1 & Ht1).
    exists L1. split_and!; try done.
    intros idx1 Ha1.
    rewrite (lua_getiuservalue_reads L1 idx1 p r u1 n Ha1); cycle 1.
    + now rewrite Hs1.
    + exact Hu1.
    + intros e0 He0. rewrite He1 in He0. injection He0 as <-. eauto.
    + rewrite He1, Ht1. cbn [mbind option_bind].
      now rewrite lookup_insert_eq.
  - intros L idx p r u n Ha Hp Hu Hcase.
    rewrite (lua_getiuservalue_reads L idx p r u n Ha Hp Hu).
    + destruct Hcase as [->|(e & t & -> & Ht & Hn)]; [reflexivity|].
      rewrite Ht. cbn [mbind option_bind]. now rewrite Hn.
    + intros e He. destruct Hcase as [Hnone|(e0 & t & He0 & Ht & _)];
        [congruence|]. rewrite He in He0. injection He0 as <-. eauto.
Qed.

End UserValues.

(** ** Numeric fidelity adapter *)

Section Numeric.

Lemma digits2_pos_iter_xO (m k : positive) :
  digits2_pos (Pos.iter xO m k) = (digits2_pos m + k)%positive.
Proof.
  revert m. induction k using Pos.peano_ind; intros m.
  - simpl. lia.
  - rewrite Pos.iter_succ. simpl. rewrite IHk. lia.
Qed.

Lemma Zpos_iter_xO (m k : positive) :
  Zpos (Pos.iter xO m k) = Zpos m * 2 ^ Zpos k.
Proof.
  induction k using Pos.peano_ind.
  - simpl. lia.
  - rewrite Pos.iter_succ, Pos2Z.inj_xO, IHk, Pos2Z.inj_succ, Z.pow_succ_r by lia. lia.
Qed.

Lemma digits2_pos_bounds (m : positive) :
  2 ^ (Zpos (digits2_pos m) - 1) <= Zpos m < 2 ^ Zpos (digits2_pos m).
Proof.
  induction m as [m IH|m IH|]; simpl digits2_pos.
  - rewrite Pos2Z.inj_succ, Z.pow_succ_r by lia.
    replace (Z.succ (Zpos (digits2_pos m)) - 1) with (Z.succ (Zpos (digits2_pos m) - 1)) by lia.
    rewrite Z.pow_succ_r by lia. lia.
  - rewrite Pos2Z.inj_succ, Z.pow_succ_r by lia.
    replace (Z.succ (Zpos (digits2_pos m)) - 1) with (Z.succ (Zpos (digits2_pos m) - 1)) by lia.
    rewrite Z.pow_succ_r by lia. lia.
  - simpl. lia.
Qed.

Lemma binary_round_aux_canonical s m e :
  canonical_mantissa prec emax m e = true -> e <= emax - prec ->
  binary_round_aux prec emax s (Zpos m) e loc_Exact = S754_finite s m e.
Proof.
  intros Hc He. unfold canonical_mantissa in Hc. apply Z.eqb_eq in Hc.
  unfold binary_round_aux, shr_fexp. simpl Zdigits2.
  rewrite Hc, Z.sub_diag. simpl. rewrite Hc, Z.sub_diag. simpl.
  apply Z.leb_le in He. unfold emax, prec in *. now rewrite He.
Qed.


Lemma iter_pos_iter {A} (f : A -> A) p : forall x,
  SpecFloat.iter_pos f p x = Pos.iter f x p.
Proof.
  induction p as [p IH|p IH|]; intros x; cbn [SpecFloat.iter_pos Pos.iter].
  - rewrite !IH. now rewrite <- !Pos.iter_swap.
  - now rewrite !IH.
  - reflexivity.
Qed.

(** Shifting out the zeros a left shift put in is exact. *)
Lemma shr_1_exact (m k : positive) :
  Pos.iter shr_1 (Build_shr_record (Zpos (Pos.iter xO m k)) false false) k
  = Build_shr_record (Zpos m) false false.
Proof.
  induction k as [|k IH] using Pos.peano_ind.
  - reflexivity.
  - rewrite Pos.iter_succ_r, Pos.iter_succ. cbn [shr_1 orb]. exact IH.
Qed.

Lemma binary_round_small s (m : positive) :
  Zpos m < 2 ^ prec ->
  exists m' e', binary_round prec emax s m 0 = S754_finite s m' e' /\
                - prec < e' <= 0 /\ Zpos m' = Zpos m * 2 ^ (- e') /\
                e' = Zpos (digits2_pos m) - prec.
Proof.
  intros Hm.
  pose proof (digits2_pos_bounds m) as [Hlo _].
  assert (Hd : Zpos (digits2_pos m) <= prec).
  { destruct (Z_le_gt_dec (Zpos (digits2_pos m)) prec) as [|Hgt]; [done|].
    exfalso. assert (2 ^ prec <= 2 ^ (Zpos (digits2_pos m) - 1)).
    { apply Z.pow_le_mono_r; lia. } lia. }
  unfold binary_round, shl_align, fexp, SpecFloat.emin.
  rewrite Z.add_0_r, Z.sub_0_r.
  unfold prec, emax in *.
  rewrite Z.max_l by lia.
  destruct (Zpos (digits2_pos m) - 53) as [|p|p] eqn:Hp; [| lia |].
  - exists m, 0. split; [|simpl; lia].
    apply binary_round_aux_canonical; [|unfold emax, prec; lia].
    unfold canonical_mantissa, fexp, SpecFloat.emin, prec, emax.
    apply Z.eqb_eq. lia.
  - exists (Pos.iter xO m p), (Zneg p). split; [|split; [|split]].
    + apply binary_round_aux_canonical; [|unfold emax, prec; lia].
      unfold canonical_mantissa, fexp, SpecFloat.emin, prec, emax.
      rewrite digits2_pos_iter_xO. apply Z.eqb_eq. lia.
    + lia.
    + rewrite Zpos_iter_xO. simpl. reflexivity.
    + reflexivity.
Qed.

(** An integer of 53 or more bits converts to a double whose exponent is
    not negative. *)
Lemma shr_fexp_exponent m e l :
  e <= snd (shr_fexp prec emax m e l).
Proof.
  unfold shr_fexp, shr.
  destruct (fexp prec emax (Zdigits2 m + e) - e) as [|p|p] eqn:E; cbn [snd]; lia.
Qed.

Lemma binary_round_aux_exponent s m e l s' m' e' :
  binary_round_aux prec emax s m e l = S754_finite s' m' e' -> e <= e'.
Proof.
  unfold binary_round_aux.
  pose proof (shr_fexp_exponent m e l) as H1.
  destruct (shr_fexp prec emax m e l) as [mrs1 e1]. cbn [snd] in H1.
  set (m1 := round_nearest_even (shr_m mrs1) (loc_of_shr_record mrs1)).
  pose proof (shr_fexp_exponent m1 e1 loc_Exact) as H2.
  destruct (shr_fexp prec emax m1 e1 loc_Exact) as [mrs2 e2]. cbn [snd] in H2.
  destruct (shr_m mrs2); try discriminate.
  destruct (e2 <=? emax - prec); intros [= <- <- <-]. lia.
Qed.

Lemma binary_round_large s (m : positive) s' m' e' :
  2 ^ (prec - 1) <= Zpos m ->
  binary_round prec emax s m 0 = S754_finite s' m' e' -> 0 <= e'.
Proof.
  intros Hm. pose proof (digits2_pos_bounds m) as [_ Hhi].
  assert (Hd : prec <= Zpos (digits2_pos m)).
  { destruct (Z_le_gt_dec prec (Zpos (digits2_pos m))) as [|Hgt]; [done|].
    exfalso. assert (2 ^ Zpos (digits2_pos m) <= 2 ^ (prec - 1)).
    { apply Z.pow_le_mono_r; lia. } lia. }
  unfold binary_round, shl_align, fexp, SpecFloat.emin.
  rewrite Z.add_0_r, Z.sub_0_r. unfold prec, emax in *.
  rewrite Z.max_l by lia.
  destruct (Zpos (digits2_pos m) - 53) as [|p|p] eqn:Hp; [| |lia];
    apply binary_round_aux_exponent.
Qed.


Lemma magnitude_scaled (m m' : positive) (e' : Z) :
  e' <= 0 -> Zpos m' = Zpos m * 2 ^ (- e') -> magnitude m' e' = Zpos m.
Proof.
  intros He Hm. unfold magnitude.
  rewrite Z.shiftl_div_pow2 by lia. rewrite Hm.
  apply Z.div_mul. apply Z.pow_nonzero; lia.
Qed.

Lemma of_int64_cases (z : Z) :
  match z with
  | Z0 => of_int64 z = S754_zero false
  | Zpos m => of_int64 z = binary_round prec emax false m 0
  | Zneg m => of_int64 z = binary_round prec emax true m 0
  end.
Proof. now destruct z. Qed.

Lemma of_int64_cond_Zopp s m :
  of_int64 (cond_Zopp s (Zpos m)) = binary_round prec emax s m 0.
Proof. now destruct s. Qed.

Lemma in_range_to_int64 s m e :
  let z := cond_Zopp s (magnitude m e) in
  CInt.INT64_MIN <= z <= CInt.INT64_MAX ->
  to_int64 (S754_finite s m e) = z.
Proof.
  intros z [H1 H2]. unfold to_int64. cbn [trunc]. fold z.
  apply Z.leb_le in H1, H2. now rewrite H1, H2.
Qed.

Lemma to_of_int64_below (v : Z) :
  Z.abs v < 2 ^ 53 -> to_int64 (of_int64 v) = v.
Proof.
  intros Hv. destruct v as [|m|m]; [reflexivity| |].
  - destruct (binary_round_small false m) as (m' & e' & Hr & He & Hm' & _);
      [simpl in Hv; unfold prec; lia|].
    unfold of_int64, binary_normalize. rewrite Hr.
    rewrite in_range_to_int64; rewrite (magnitude_scaled m m' e') by lia;
      cbn [cond_Zopp]; [reflexivity|].
    unfold CInt.INT64_MIN, CInt.INT64_MAX. simpl in Hv. lia.
  - destruct (binary_round_small true m) as (m' & e' & Hr & He & Hm' & _);
      [simpl in Hv; unfold prec; lia|].
    unfold of_int64, binary_normalize. rewrite Hr.
    rewrite in_range_to_int64; rewrite (magnitude_scaled m m' e') by lia;
      cbn [cond_Zopp]; [reflexivity|].
    unfold CInt.INT64_MIN, CInt.INT64_MAX. simpl in Hv. lia.
Qed.

(** The round trip through the double is the identity up to and including
    [2^53]. *)
Lemma to_of_int64 (v : Z) :
  Z.abs v <= 2 ^ 53 -> to_int64 (of_int64 v) = v.
Proof.
  intros Hv.
  destruct (Z.eq_dec (Z.abs v) (2 ^ 53)) as [Heq|Hne].
  - destruct (Z.abs_eq_or_opp v) as [E|E]; rewrite E in Heq.
    + subst v. vm_compute. reflexivity.
    + assert (v = - 2 ^ 53) as -> by lia. vm_compute. reflexivity.
  - apply to_of_int64_below. lia.
Qed.

Lemma SFeqb_finite_inv s m e y :
  SFeqb (S754_finite s m e) y = true -> y = S754_finite s m e.
Proof.
  unfold SFeqb, SFcompare.
  destruct y as [sy|sy| |sy my ey]; try (destruct s; discriminate);
    try (destruct s, sy; discriminate).
  destruct s, sy; try discriminate;
    destruct (e ?= ey) eqn:He; try discriminate;
    destruct (Pos.compare_cont Eq m my) eqn:Hm; try discriminate;
    intros _; apply Z.compare_eq in He; apply Pos.compare_eq in Hm;
    now subst.
Qed.

Lemma SFeqb_finite_refl s m e :
  SFeqb (S754_finite s m e) (S754_finite s m e) = true.
Proof.
  unfold SFeqb, SFcompare. rewrite Z.compare_refl.
  change (Pos.compare_cont Eq m m) with (m ?= m)%positive.
  rewrite Pos.compare_refl. now destruct s.
Qed.

(** A canonical double with a non-negative exponent is what its integer
    value converts to. *)
Lemma binary_round_exact s m (p : positive) :
  bounded prec emax m (Zpos p) = true ->
  binary_round prec emax s (Pos.iter xO m p) 0 = S754_finite s m (Zpos p).
Proof.
  unfold bounded, canonical_mantissa, fexp, SpecFloat.emin, prec, emax.
  intros Hb. apply andb_prop in Hb as [Hc Hle].
  apply Z.eqb_eq in Hc. apply Z.leb_le in Hle.
  assert (Hd : Zpos (digits2_pos m) = 53) by lia.
  unfold binary_round, shl_align, fexp, SpecFloat.emin.
  rewrite digits2_pos_iter_xO, Z.add_0_r, Z.sub_0_r, Pos2Z.inj_add, Hd.
  rewrite Z.max_l by lia.
  replace (53 + Zpos p - 53) with (Zpos p) by lia.
  unfold binary_round_aux, shr_fexp, fexp, SpecFloat.emin.
  cbn [Zdigits2]. rewrite digits2_pos_iter_xO, Pos2Z.inj_add, Hd, Z.add_0_r.
  rewrite Z.max_l by lia.
  replace (53 + Zpos p - 53 - 0) with (Zpos p) by lia.
  cbn [shr shr_record_of_loc]. rewrite iter_pos_iter, shr_1_exact.
  cbn [shr_m loc_of_shr_record round_nearest_even Zdigits2 shr_record_of_loc].
  rewrite Hd, Z.add_0_l. rewrite Z.max_l by lia.
  replace (53 + Zpos p - 53 - Zpos p) with 0 by lia.
  cbn [shr shr_m]. apply Z.leb_le in Hle. now rewrite Hle.
Qed.


Lemma magnitude_nonneg m e : 0 <= magnitude m e.
Proof. unfold magnitude. apply Z.shiftl_nonneg. lia. Qed.

Lemma of_int64_INT64_MIN :
  of_int64 CInt.INT64_MIN = S754_finite true (2 ^ 52) 11.
Proof. vm_compute. reflexivity. Qed.

(** A double equal to its own truncation-and-back is a whole number that
    fits [int64_t]. *)
Lemma truncation_fixpoint_sound (n : double) :
  eqb n (of_int64 (to_int64 n)) = true -> integral n /\ in_int64_range n.
Proof.
  destruct n as [s|s| |s m e].
  - intros _. split; [exact I|]. unfold in_int64_range. cbn.
    unfold CInt.INT64_MIN, CInt.INT64_MAX. lia.
  - destruct s; vm_compute; discriminate.
  - vm_compute. discriminate.
  - intros H. apply SFeqb_finite_inv in H.
    set (z := cond_Zopp s (magnitude m e)) in *.
    assert (Hto : to_int64 (S754_finite s m e)
                  = if (CInt.INT64_MIN <=? z) && (z <=? CInt.INT64_MAX)
                    then z else CInt.INT64_MIN) by reflexivity.
    rewrite Hto in H. clear Hto.
    destruct ((CInt.INT64_MIN <=? z) && (z <=? CInt.INT64_MAX)) eqn:Hr.
    + apply andb_prop in Hr as [H1 H2]. apply Z.leb_le in H1, H2.
      split; [|unfold in_int64_range; cbn; fold z; lia].
      cbn [integral]. destruct (Z_le_gt_dec 0 e) as [|Hneg]; [by left|right].
      pose proof (magnitude_nonneg m e) as Hnn.
      destruct (magnitude m e) as [|q|q] eqn:Hq; [| |lia].
      { unfold z in H. destruct s; discriminate. }
      unfold z in H. rewrite of_int64_cond_Zopp in H.
      destruct (Z_lt_ge_dec (Zpos q) (2 ^ prec)) as [Hsmall|Hbig].
      * destruct (binary_round_small s q Hsmall) as (m' & e' & Hr' & He' & Hm' & _).
        rewrite Hr' in H. injection H as -> ->.
        rewrite Hm'. apply Z.mod_mul. apply Z.pow_nonzero; lia.
      * exfalso. assert (0 <= e); [|lia].
        eapply (binary_round_large s q); [|exact H].
        assert (2 ^ (prec - 1) <= 2 ^ prec)
          by (apply Z.pow_le_mono_r; unfold prec; lia). lia.
    + rewrite of_int64_INT64_MIN in H. unfold z in Hr.
      injection H as <- <- <-. vm_compute in Hr. discriminate.
Qed.

Lemma Zpos_inj_mul_pow (m q p : positive) :
  Zpos m = Zpos q * 2 ^ Zpos p -> m = Pos.iter xO q p.
Proof. intros H. apply Pos2Z.inj. now rewrite Zpos_iter_xO. Qed.

(** A valid double that is a whole number within [int64_t] is equal to its
    own truncation-and-back. *)
Lemma truncation_fixpoint_complete (n : double) :
  valid n -> integral n -> in_int64_range n ->
  eqb n (of_int64 (to_int64 n)) = true.
Proof.
  unfold valid.
  destruct n as [s|s| |s m e]; try (intros _ []; fail).
  - intros _ _ _. now destruct s.
  - cbn [valid_binary integral]. unfold in_int64_range. cbn [trunc].
    intros Hb Hint Hr. rewrite in_range_to_int64 by exact Hr.
    assert (Hcan := Hb). unfold bounded in Hcan.
    apply andb_prop in Hcan as [Hc Hle].
    unfold canonical_mantissa, fexp, SpecFloat.emin, prec, emax in Hc.
    apply Z.eqb_eq in Hc. apply Z.leb_le in Hle.
    pose proof (digits2_pos_bounds m) as [Hlo Hhi].
    assert (Hfin : of_int64 (cond_Zopp s (magnitude m e)) = S754_finite s m e);
      [|rewrite Hfin; apply SFeqb_finite_refl].
    destruct e as [|p|p].
    + unfold magnitude. rewrite Z.shiftl_0_r, of_int64_cond_Zopp.
      assert (Hd : Zpos (digits2_pos m) = 53) by lia.
      destruct (binary_round_small s m) as (m' & e' & Hr' & He' & Hm' & He'').
      { rewrite Hd in Hhi. exact Hhi. }
      rewrite Hr'. unfold prec in He''. rewrite Hd in He''.
      assert (e' = 0) as -> by lia. cbn in Hm'.
      f_equal. lia.
    + unfold magnitude. rewrite Z.shiftl_mul_pow2 by lia.
      rewrite <- Zpos_iter_xO, of_int64_cond_Zopp.
      now apply binary_round_exact.
    + destruct Hint as [Hint|Hint]; [lia|].
      change (- Z.neg p) with (Zpos p) in Hint.
      unfold magnitude. rewrite Z.shiftl_div_pow2 by lia.
      change (- Z.neg p) with (Zpos p).
      assert (Hpow : 0 < 2 ^ Zpos p) by (apply Z.pow_pos_nonneg; lia).
      pose proof (Z.div_mod (Zpos m) (2 ^ Zpos p) ltac:(lia)) as Hdm.
      rewrite Hint, Z.add_0_r in Hdm.
      destruct (Zpos m / 2 ^ Zpos p) as [|q|q] eqn:Hq; [lia| |lia].
      rewrite of_int64_cond_Zopp.
      assert (Hmq : m = Pos.iter xO q p) by (apply Zpos_inj_mul_pow; lia).
      assert (Hdq : Zpos (digits2_pos m) = Zpos (digits2_pos q) + Zpos p).
      { rewrite Hmq, digits2_pos_iter_xO. lia. }
      pose proof (digits2_pos_bounds q) as [_ Hqhi].
      assert (Hqd : Zpos (digits2_pos q) - 53 = Zneg p) by lia.
      destruct (binary_round_small s q) as (m' & e' & Hr' & He' & Hm' & He'').
      { eapply Z.lt_le_trans; [exact Hqhi|].
        apply Z.pow_le_mono_r; unfold prec; lia. }
      rewrite Hr'. unfold prec in He''. rewrite Hqd in He''. subst e'.
      f_equal. change (- Z.neg p) with (Zpos p) in Hm'. lia.
Qed.

End Numeric.

Section IntegerProperties.

Variable str2d : string -> option double.

(** C2: an integer [v] with [|v| <= 2^53], pushed with [lua_pushinteger]
    (stored as the nearest double) and read back with [lua_tointeger]
    (truncated toward zero), comes back unchanged. *)
Theorem lua_pushinteger_tointeger_roundtrip L v :
  Z.abs v <= 2 ^ 53 ->
  lua_tointeger_64 str2d (lua_pushinteger_64 L v) (-1) = Some v.
Proof.
  intros Hv.
  unfold lua_tointeger_64, lua_pushinteger_64, lua_pushnumber, lua_tonumber.
  rewrite (index2addr_top _ (stack L) (Number (of_int64 v))) by reflexivity.
  vm_state.
  rewrite (obj_top _ (stack L) (Number (of_int64 v))) by reflexivity.
  cbn [tonumber default from_option id]. now rewrite to_of_int64.
Qed.

Lemma lua_isinteger_value L idx o :
  index2addr L idx = Some o ->
  lua_isinteger str2d L idx
  = Some (match tonumber str2d (obj L o) with
          | Some n => Z.b2z (eqb n (of_int64 (to_int64 n)))
          | None => 0
          end).
Proof.
  intros Ha. unfold lua_isinteger, lua_isnumber, lua_tonumber.
  rewrite Ha. cbn [mbind option_bind].
  destruct (tonumber str2d (obj L o)) as [n|].
  - rewrite bool_decide_eq_true_2 by eauto. reflexivity.
  - rewrite bool_decide_eq_false_2 by (intros [? ?]; discriminate).
    reflexivity.
Qed.

(** C7: [lua_isinteger] returns 1 exactly when the value is numeric and its
    number equals its own truncation to [int64_t] converted back to double;
    otherwise it returns 0, in particular for every value that is not
    numeric.  For the doubles that exist, that equality says that the number
    has no fractional part and fits [int64_t]. *)
Theorem lua_isinteger_characterised L idx o :
  index2addr L idx = Some o ->
  (lua_isinteger str2d L idx = Some 1 <->
     exists n, tonumber str2d (obj L o) = Some n /\
               eqb n (of_int64 (to_int64 n)) = true) /\
  (lua_isinteger str2d L idx = Some 1 \/ lua_isinteger str2d L idx = Some 0) /\
  (tonumber str2d (obj L o) = None -> lua_isinteger str2d L idx = Some 0) /\
  (forall n, tonumber str2d (obj L o) = Some n -> valid n ->
     (lua_isinteger str2d L idx = Some 1 <-> integral n /\ in_int64_range n)).
Proof.
  intros Ha. rewrite (lua_isinteger_value L idx o Ha).
  destruct (tonumber str2d (obj L o)) as [n|] eqn:Hn.
  - destruct (eqb n (of_int64 (to_int64 n))) eqn:He; cbn [Z.b2z].
    + split; [|split; [|split]].
      * split; [eauto|done].
      * now left.
      * discriminate.
      * intros n0 [= <-] Hvalid. split; [intros _|done].
        now apply truncation_fixpoint_sound.
    + split; [|split; [|split]].
      * split; [discriminate|]. intros (n0 & [= <-] & Hn0). congruence.
      * now right.
      * discriminate.
      * intros n0 [= <-] Hvalid. split; [discriminate|].
        intros [Hint Hrange].
        rewrite (truncation_fixpoint_complete n Hvalid Hint Hrange) in He.
        discriminate.
  - split; [|split; [|split]].
    + split; [discriminate|]. intros (n0 & Hn0 & _). discriminate.
    + now right.
    + done.
    + discriminate.
Qed.

End IntegerProperties.

(** Past [2^53] the round trip loses the low bit, without wrapping. *)
Example lua_tointeger_beyond_2_53 :
  lua_tointeger_64 (fun _ => None)
    (lua_pushinteger_64 (Examples.empty_state 1) (2 ^ 53 + 1)) (-1)
  = Some (2 ^ 53).
Proof. vm_compute. reflexivity. Qed.

Lemma lua_pushinteger_tointeger_roundtrip_witness :
  Z.abs (- 140737488355328) <= 2 ^ 53 /\
  lua_tointeger_64 (fun _ => None)
    (lua_pushinteger_64 (Examples.empty_state 1) (- 140737488355328)) (-1)
  = Some (- 140737488355328).
Proof.
  assert (H : Z.abs (- 140737488355328) <= 2 ^ 53) by (vm_compute; discriminate).
  split; [exact H|].
  exact (lua_pushinteger_tointeger_roundtrip (fun _ => None)
           (Examples.empty_state 1) (- 140737488355328) H).
Defined.

Lemma lua_isinteger_characterised_witness :
  let L := mkState [Number (of_int64 3); Str "abc"] ∅ ∅ ∅ 1 in
  (index2addr L 1 = Some (Slot 0) /\
   tonumber (fun _ => None) (obj L (Slot 0)) = Some (of_int64 3) /\
   valid (of_int64 3) /\ integral (of_int64 3) /\ in_int64_range (of_int64 3) /\
   lua_isinteger (fun _ => None) L 1 = Some 1) /\
  (index2addr L (-1) = Some (Slot 1) /\
   tonumber (fun _ => None) (obj L (Slot 1)) = None /\
   lua_isinteger (fun _ => None) L (-1) = Some 0).
Proof.
  intros L.
  assert (Ha : index2addr L 1 = Some (Slot 0)) by reflexivity.
  assert (Hn : tonumber (fun _ => None) (obj L (Slot 0)) = Some (of_int64 3))
    by reflexivity.
  assert (Hv : valid (of_int64 3)) by reflexivity.
  assert (Hi : integral (of_int64 3)) by (right; reflexivity).
  assert (Hr : in_int64_range (of_int64 3)) by (vm_compute; split; discriminate).
  assert (Hb : index2addr L (-1) = Some (Slot 1)) by reflexivity.
  assert (Hs : tonumber (fun _ => None) (obj L (Slot 1)) = None) by reflexivity.
  split.
  - do 5 (split; [assumption|]).
    exact (proj2 (proj2 (proj2 (proj2
             (lua_isinteger_characterised (fun _ => None) L 1 (Slot 0) Ha)))
             (of_int64 3) Hn Hv) (conj Hi Hr)).
  - do 2 (split; [assumption|]).
    exact (proj1 (proj2 (proj2
             (lua_isinteger_characterised (fun _ => None) L (-1) (Slot 1) Hb)))
             Hs).
Defined.

Lemma uservalue_set_then_get_witness :
  let L0 := (lua_newuserdata (Examples.empty_state 1) 8).1 in
  let L := push L0 (Str "x") in
  (stack L = [Userdata 0] ++ [Str "x"] /\
   index2addr L 1 = Some (Slot 0) /\
   udata L !! 0%nat = Some (mkUdata 0 8 None)) /\
  (exists L1,
     lua_setiuservalue L 1 1 = Some (L1, 1) /\
     stack L1 = [Userdata 0] /\
     lua_getiuservalue L1 (-1) 1 = Some (push L1 (Str "x"), LUA_TSTRING)) /\
  lua_getiuservalue L0 1 2 = Some (push L0 Nil, LUA_TNIL) /\
  (exists L2,
     lua_newuserdatauv (Examples.empty_state 1) 8 1 = Some (L2, 0%nat) /\
     lua_getiuservalue L2 1 2 = Some (push L2 Nil, LUA_TNIL)).
Proof.
  intros L0 L.
  assert (Hs : stack L = [Userdata 0] ++ [Str "x"]) by reflexivity.
  assert (Ha : index2addr L 1 = Some (Slot 0)) by reflexivity.
  assert (Hp : [Userdata 0] !! 0%nat = Some (Userdata 0)) by reflexivity.
  assert (Hu : udata L !! 0%nat = Some (mkUdata 0 8 None)) by reflexivity.
  assert (He : forall e, ud_env (mkUdata 0 8 None) = Some e ->
                         is_Some (tables L !! e)) by (intros e [=]).
  split; [by split_and!|]. split; [|split].
  - destruct (proj1 uservalue_set_then_get L [Userdata 0] (Str "x") 1 0%nat
                0%nat (mkUdata 0 8 None) 1 Hs Ha Hp Hu He)
      as (L1 & Hset & Hs1 & Hget).
    exists L1. split; [exact Hset|]. split; [exact Hs1|].
    apply Hget. unfold index2addr, lua_gettop. now rewrite Hs1.
  - apply (proj2 uservalue_set_then_get L0 1 0%nat 0%nat (mkUdata 0 8 None) 2);
      try reflexivity.
    now left.
  - eexists. split; [vm_compute; reflexivity|].
    apply (proj2 uservalue_set_then_get _ 1 0%nat 0%nat
             (mkUdata 0 8 (Some 0%nat)) 2); try reflexivity.
    right. exists 0%nat, ∅. by split_and!.
Defined.

(** * Further properties of the shim *)

(** ** Tag registry and userdata lifetime *)

Section TagRegistryMore.

Import LuauCompat LifetimeMore.

(** Names never seen before get consecutive tags while tags are left. *)
Lemma run_tags_fresh names : forall st,
  NoDup names ->
  (forall n, n ∈ names -> tag_map st !! n = None) ->
  1 <= next_tag st ->
  next_tag st + Z.of_nat (length names) <= MAX_USERDATA_TAGS ->
  (run_tags st names).2
  = (fun i : nat => next_tag st + Z.of_nat i) <$> seq 0 (length names).
Proof.
  induction names as [|n names IH]; intros st Hnd Hnew Hlo Hhi; [reflexivity|].
  apply NoDup_cons in Hnd as [Hn Hnd].
  cbn [run_tags]. unfold get_or_create_tag at 1.
  rewrite (Hnew n) by set_solver.
  rewrite length_cons, Nat2Z.inj_succ in Hhi.
  replace (MAX_USERDATA_TAGS <=? next_tag st) with false
    by (symmetry; apply Z.leb_gt; lia).
  rewrite wrap_small
    by (unfold CInt.INT_MIN, CInt.INT_MAX, MAX_USERDATA_TAGS in *; lia).
  set (st1 := mkTags _ _).
  specialize (IH st1 Hnd).
  destruct (run_tags st1 names) as [st2 ts] eqn:Hrun. cbn [snd] in *.
  rewrite IH.
  - cbn [length seq fmap list_fmap]. rewrite Z.add_0_r. f_equal.
    rewrite <- fmap_S_seq, <- list_fmap_compose. apply list_fmap_ext.
    intros _ i _. unfold st1. cbn. lia.
  - intros m Hm. unfold st1. cbn. rewrite lookup_insert_ne.
    + apply Hnew. set_solver.
    + intros ->. contradiction.
  - unfold st1. cbn. lia.
  - unfold st1. cbn. lia.
Qed.

(** X1: tags are handed out consecutively from 1 in the order in which the
    names first arrive: in a sequence of fewer than [MAX_USERDATA_TAGS]
    pairwise distinct names, the name at position [i] gets tag [i + 1]. *)
Theorem get_or_create_tag_consecutive names i n :
  NoDup names ->
  Z.of_nat (length names) < MAX_USERDATA_TAGS ->
  names !! i = Some n ->
  tags_of names !! i = Some (Z.of_nat i + 1).
Proof.
  intros Hnd Hlen Hi. unfold tags_of.
  rewrite (run_tags_fresh names tag_statics_init Hnd); cbn [next_tag tag_statics_init].
  - rewrite list_lookup_fmap, lookup_seq_lt by (eapply lookup_lt_Some; eauto).
    cbn. f_equal. lia.
  - intros m _. apply lookup_empty.
  - lia.
  - lia.
Qed.

(** X2: every tag [get_or_create_tag] returns lies in
    [0 .. MAX_USERDATA_TAGS - 1], and every non-zero one is a tag the
    lifetime adapter honours: [register_destructor] binds the finalizer to
    it and [newuserdata_tagged] creates the block with it. *)
Theorem get_or_create_tag_range names i t L d sz :
  Z.of_nat (length names) < CInt.INT_MAX ->
  tags_of names !! i = Some t ->
  0 <= t < MAX_USERDATA_TAGS /\
  (t <> 0 ->
   udatagc (register_destructor L t (Some d)) !! t = Some d /\
   udata (newuserdata_tagged L sz t).1 !! (newuserdata_tagged L sz t).2
   = Some (mkUdata t sz None)).
Proof.
  intros Hlen Ht. unfold tags_of in Ht.
  destruct (run_tags tag_statics_init names) as [st ts] eqn:Hrun.
  cbn [snd] in Ht.
  destruct (run_tags_sound names _ 0 st ts tags_wf_init ltac:(lia) Hrun)
    as ((_ & Hrange & _) & _ & _ & _ & Hpos).
  assert (Hn : is_Some (names !! i)).
  { apply lookup_lt_is_Some.
    assert (Hl := f_equal snd Hrun). cbn [snd] in Hl.
    apply lookup_lt_Some in Ht.
    enough (length ts = length names) by lia.
    subst ts. clear. generalize tag_statics_init.
    induction names as [|n names IH]; intros st; [reflexivity|].
    cbn [run_tags]. destruct (get_or_create_tag st n) as [st1 t1].
    specialize (IH st1). destruct (run_tags st1 names). cbn in *. lia. }
  destruct Hn as [n Hn]. destruct (Hpos i n t Hn Ht) as [Hnz _].
  assert (Hr : 0 <= t < MAX_USERDATA_TAGS).
  { destruct (decide (t = 0)) as [->|Hne]; [unfold MAX_USERDATA_TAGS; lia|].
    destruct (Hrange _ _ (Hnz Hne)). lia. }
  split; [exact Hr|]. intros Hne. split.
  - unfold register_destructor.
    replace (0 <? t) with true by (symmetry; apply Z.ltb_lt; lia).
    replace (t <? MAX_USERDATA_TAGS) with true by (symmetry; apply Z.ltb_lt; lia).
    cbn. apply lookup_partial_alter_eq.
  - unfold newuserdata_tagged.
    replace (0 <? t) with true by (symmetry; apply Z.ltb_lt; lia).
    cbn. apply lookup_insert_eq.
Qed.

(** The number of names the registry holds is tied to the counter. *)
Lemma run_tags_size names : forall st k,
  tags_wf st k -> k + Z.of_nat (length names) < CInt.INT_MAX ->
  Z.of_nat (size (tag_map st)) = Z.min (next_tag st) MAX_USERDATA_TAGS - 1 ->
  Z.of_nat (size (tag_map (run_tags st names).1))
  = Z.min (next_tag (run_tags st names).1) MAX_USERDATA_TAGS - 1.
Proof.
  induction names as [|n names IH]; intros st k Hwf Hk Hsz; [exact Hsz|].
  cbn [run_tags].
  destruct (get_or_create_tag st n) as [st0 t0] eqn:Hcall.
  rewrite length_cons, Nat2Z.inj_succ in Hk.
  destruct (get_or_create_tag_step st k n st0 t0 Hwf ltac:(lia) Hcall)
    as (Hwf0 & _).
  specialize (IH st0 (k + 1) Hwf0 ltac:(lia)).
  destruct (run_tags st0 names) as [st2 ts2]. cbn [fst] in *.
  apply IH. clear IH.
  destruct Hwf as (Hnext & _ & _).
  unfold get_or_create_tag in Hcall.
  rewrite wrap_small in Hcall by (unfold CInt.INT_MIN, CInt.INT_MAX in *; lia).
  destruct (tag_map st !! n) as [t1|] eqn:Hlook.
  - now inversion Hcall; subst.
  - destruct (MAX_USERDATA_TAGS <=? next_tag st) eqn:Hfull;
      inversion Hcall; subst st0 t0; clear Hcall; cbn [tag_map next_tag].
    + apply Z.leb_le in Hfull. lia.
    + apply Z.leb_gt in Hfull. rewrite map_size_insert_None by exact Hlook. lia.
Qed.

(** Once the counter has reached the limit, a call returns what the map
    holds for its name, and 0 for a name the map does not hold. *)
Lemma run_tags_full more : forall st k,
  tags_wf st k -> k + Z.of_nat (length more) < CInt.INT_MAX ->
  MAX_USERDATA_TAGS <= next_tag st ->
  forall i n, more !! i = Some n ->
    (run_tags st more).2 !! i = Some (default 0 (tag_map st !! n)).
Proof.
  induction more as [|m more IH]; intros st k Hwf Hk Hfull i n Hn; [discriminate|].
  cbn [run_tags].
  destruct (get_or_create_tag st m) as [st0 t0] eqn:Hcall.
  rewrite length_cons, Nat2Z.inj_succ in Hk.
  destruct (get_or_create_tag_step st k m st0 t0 Hwf ltac:(lia) Hcall)
    as (Hwf0 & _ & Hmono & Hfroz & _).
  specialize (IH st0 (k + 1) Hwf0 ltac:(lia) ltac:(lia)).
  destruct (run_tags st0 more) as [st2 ts2]. cbn [snd] in *.
  destruct i as [|i]; cbn in Hn |- *.
  - inversion Hn; subst m. unfold get_or_create_tag in Hcall.
    destruct (tag_map st !! n) as [t1|] eqn:Hlook.
    + now inversion Hcall.
    + replace (MAX_USERDATA_TAGS <=? next_tag st) with true in Hcall
        by (symmetry; apply Z.leb_le; exact Hfull).
      now inversion Hcall.
  - rewrite <- (Hfroz Hfull). exact (IH i n Hn).
Qed.

(** X3: the registry never holds more than [MAX_USERDATA_TAGS - 1] names,
    and once it holds that many no later call changes it: every later call
    returns the tag the registry holds for its name, and the fallback 0 for
    a name it does not hold, which is not recorded. *)
Theorem tag_registry_bounded names more :
  Z.of_nat (length (names ++ more)) < CInt.INT_MAX ->
  let st := (run_tags tag_statics_init names).1 in
  Z.of_nat (size (tag_map st)) <= MAX_USERDATA_TAGS - 1 /\
  (Z.of_nat (size (tag_map st)) = MAX_USERDATA_TAGS - 1 ->
   tag_map (run_tags st more).1 = tag_map st /\
   forall i n, more !! i = Some n ->
     (run_tags st more).2 !! i = Some (default 0 (tag_map st !! n))).
Proof.
  intros Hlen st. rewrite length_app, Nat2Z.inj_add in Hlen.
  assert (Hsz := run_tags_size names tag_statics_init 0 tags_wf_init
                   ltac:(lia) eq_refl).
  fold st in Hsz.
  destruct (run_tags tag_statics_init names) as [st' ts] eqn:Hrun.
  destruct (run_tags_sound names _ 0 st' ts tags_wf_init ltac:(lia) Hrun)
    as (Hwf & _).
  cbn [fst] in st. subst st. split; [lia|].
  intros Hfull. split.
  - destruct (run_tags st' more) as [st2 ts2] eqn:Hrun2.
    destruct (run_tags_sound more _ _ st2 ts2 Hwf ltac:(lia) Hrun2)
      as (_ & _ & _ & Hfroz & _).
    apply Hfroz. lia.
  - apply (run_tags_full more st' _ Hwf); lia.
Qed.

Lemma lifetime_step_udata L c r u :
  udata L !! r = Some u -> udata (lifetime_step L c) !! r = Some u.
Proof.
  intros Hr. destruct c as [tag dtor|sz tag]; cbn [lifetime_step].
  - unfold register_destructor.
    destruct ((0 <? tag) && (tag <? MAX_USERDATA_TAGS)); exact Hr.
  - now apply newuserdata_tagged_udata_mono.
Qed.

Lemma run_lifetime_udata cs : forall L r u,
  udata L !! r = Some u -> udata (run_lifetime L cs) !! r = Some u.
Proof.
  unfold run_lifetime. induction cs as [|c cs IH]; intros L r u Hr; [done|].
  cbn [foldl]. apply IH. now apply lifetime_step_udata.
Qed.

Lemma run_lifetime_app L cs1 cs2 :
  run_lifetime L (cs1 ++ cs2) = run_lifetime (run_lifetime L cs1) cs2.
Proof. unfold run_lifetime. apply foldl_app. Qed.

(** Calls that do not register [tag] leave its binding alone. *)
Lemma run_lifetime_keeps_binding tag cs : forall L,
  Forall (fun c => rebinds tag c = false) cs ->
  udatagc (run_lifetime L cs) !! tag = udatagc L !! tag.
Proof.
  unfold run_lifetime. induction cs as [|c cs IH]; intros L Hcs; [done|].
  apply Forall_cons in Hcs as [Hc Hcs]. cbn [foldl]. rewrite IH by exact Hcs.
  destruct c as [t dtor|sz t]; cbn [lifetime_step rebinds] in *.
  - apply bool_decide_eq_false in Hc. unfold register_destructor.
    destruct ((0 <? t) && (t <? MAX_USERDATA_TAGS)); [|done].
    cbn. now rewrite lookup_partial_alter_ne.
  - now rewrite newuserdata_tagged_udatagc.
Qed.

(** The finalizer table a call sequence leaves depends only on the table
    it started from. *)
Lemma run_lifetime_udatagc_ext cs : forall L L',
  udatagc L = udatagc L' ->
  udatagc (run_lifetime L cs) = udatagc (run_lifetime L' cs).
Proof.
  unfold run_lifetime. induction cs as [|c cs IH]; intros L L' Heq; [exact Heq|].
  cbn [foldl]. apply IH.
  destruct c as [t dtor|sz t]; cbn [lifetime_step].
  - unfold register_destructor.
    destruct ((0 <? t) && (t <? MAX_USERDATA_TAGS)); [|exact Heq].
    cbn. now rewrite Heq.
  - now rewrite !newuserdata_tagged_udatagc.
Qed.

(** X4: the finalizer that runs when a tagged block is reclaimed is the one
    registered last for its tag, whether that registration came before or
    after the block was created and whatever was registered earlier; a tag
    can be rebound, and cleared.  The block is created after the calls [pre]
    and before the calls [post]; the last registration for its tag among
    all of them may lie in either. *)
Theorem finalizer_is_latest_registration L sz tag dtor pre post cs1 cs2 :
  0 < tag < MAX_USERDATA_TAGS ->
  pre ++ post = cs1 ++ RegisterDestructor tag dtor :: cs2 ->
  Forall (fun c => rebinds tag c = false) cs2 ->
  finalizer_on_reclaim
    (run_lifetime (newuserdata_tagged (run_lifetime L pre) sz tag).1 post)
    (newuserdata_tagged (run_lifetime L pre) sz tag).2
  = dtor.
Proof.
  intros Htag Hsplit Hcs2.
  set (L0 := run_lifetime L pre).
  set (L1 := (newuserdata_tagged L0 sz tag).1).
  set (r := (newuserdata_tagged L0 sz tag).2).
  assert (Hr : udata L1 !! r = Some (mkUdata tag sz None)).
  { unfold L1, r, newuserdata_tagged.
    replace (0 <? tag) with true by (symmetry; apply Z.ltb_lt; lia).
    cbn. apply lookup_insert_eq. }
  unfold finalizer_on_reclaim.
  rewrite (run_lifetime_udata _ L1 r _ Hr). cbn [mbind option_bind ud_tag].
  rewrite (run_lifetime_udatagc_ext post L1 L0)
    by (unfold L1; apply newuserdata_tagged_udatagc).
  unfold L0. rewrite <- run_lifetime_app, Hsplit, run_lifetime_app.
  change (RegisterDestructor tag dtor :: cs2)
    with ([RegisterDestructor tag dtor] ++ cs2).
  rewrite run_lifetime_app, run_lifetime_keeps_binding by exact Hcs2.
  cbn [run_lifetime foldl lifetime_step]. unfold register_destructor.
  replace (0 <? tag) with true by (symmetry; apply Z.ltb_lt; lia).
  replace (tag <? MAX_USERDATA_TAGS) with true by (symmetry; apply Z.ltb_lt; lia).
  cbn. apply lookup_partial_alter_eq.
Qed.

(** X5: registrations outside the tag range are dropped: no sequence of
    [register_destructor] and [newuserdata_tagged] calls changes the
    finalizer bound to tag 0, to a negative tag or to a tag from
    [MAX_USERDATA_TAGS] on. *)
Theorem register_destructor_out_of_range_ignored tag cs : forall L,
  tag <= 0 \/ MAX_USERDATA_TAGS <= tag ->
  udatagc (run_lifetime L cs) !! tag = udatagc L !! tag.
Proof.
  unfold run_lifetime. induction cs as [|c cs IH]; intros L Hout; [done|].
  cbn [foldl]. rewrite IH by exact Hout.
  destruct c as [t dtor|sz t]; cbn [lifetime_step].
  - unfold register_destructor.
    destruct (0 <? t) eqn:H1; [|done]. destruct (t <? MAX_USERDATA_TAGS) eqn:H2; [|done].
    apply Z.ltb_lt in H1, H2. cbn. rewrite lookup_partial_alter_ne by lia. done.
  - now rewrite newuserdata_tagged_udatagc.
Qed.

End TagRegistryMore.

Section TagRegistryInstances.

Import LuauCompat LifetimeMore.

Lemma get_or_create_tag_consecutive_witness :
  tags_of ["A"; "B"; "C"]%string !! 1%nat = Some 2.
Proof.
  assert (Hd : NoDup ["A"; "B"; "C"]%string)
    by (apply (bool_decide_unpack _); vm_compute; exact I).
  assert (Hl : Z.of_nat (length ["A"; "B"; "C"]%string) < MAX_USERDATA_TAGS)
    by (vm_compute; reflexivity).
  assert (Hn : ["A"; "B"; "C"]%string !! 1%nat = Some "B"%string) by reflexivity.
  exact (get_or_create_tag_consecutive ["A"; "B"; "C"]%string 1 "B"%string
           Hd Hl Hn).
Defined.

Lemma get_or_create_tag_range_witness :
  0 <= 2 < MAX_USERDATA_TAGS /\
  (2 <> 0 ->
   udatagc (register_destructor (Examples.empty_state 1) 2 (Some 7%nat)) !! 2
   = Some 7%nat /\
   udata (newuserdata_tagged (Examples.empty_state 1) 16 2).1
     !! (newuserdata_tagged (Examples.empty_state 1) 16 2).2
   = Some (mkUdata 2 16 None)).
Proof.
  assert (Hl : Z.of_nat (length ["A"; "B"]%string) < CInt.INT_MAX)
    by (vm_compute; reflexivity).
  assert (Ht : tags_of ["A"; "B"]%string !! 1%nat = Some 2) by reflexivity.
  exact (get_or_create_tag_range ["A"; "B"]%string 1 2 (Examples.empty_state 1)
           7%nat 16 Hl Ht).
Defined.

Lemma tag_registry_bounded_witness :
  let st := (run_tags tag_statics_init (Examples.type_names 255)).1 in
  Z.of_nat (size (tag_map st)) <= MAX_USERDATA_TAGS - 1 /\
  (Z.of_nat (size (tag_map st)) = MAX_USERDATA_TAGS - 1 ->
   tag_map (run_tags st ["X"; "T7"; "X"]%string).1 = tag_map st /\
   forall i n, ["X"; "T7"; "X"]%string !! i = Some n ->
     (run_tags st ["X"; "T7"; "X"]%string).2 !! i
     = Some (default 0 (tag_map st !! n))).
Proof.
  assert (Hl : Z.of_nat (length (Examples.type_names 255
                                   ++ ["X"; "T7"; "X"]%string))
               < CInt.INT_MAX) by (vm_compute; reflexivity).
  exact (tag_registry_bounded (Examples.type_names 255)
           ["X"; "T7"; "X"]%string Hl).
Defined.

Lemma finalizer_is_latest_registration_witness :
  (let pre := [RegisterDestructor 3 (Some 1%nat);
               RegisterDestructor 3 (Some 7%nat)] in
   let post := [NewUserdataTagged 4 3; RegisterDestructor 4 (Some 9%nat)] in
   finalizer_on_reclaim
     (run_lifetime
        (newuserdata_tagged (run_lifetime (Examples.empty_state 1) pre) 16 3).1
        post)
     (newuserdata_tagged (run_lifetime (Examples.empty_state 1) pre) 16 3).2
   = Some 7%nat) /\
  (let pre := [RegisterDestructor 3 (Some 1%nat)] in
   let post := [NewUserdataTagged 4 3; RegisterDestructor 3 (Some 7%nat);
                RegisterDestructor 4 (Some 9%nat)] in
   finalizer_on_reclaim
     (run_lifetime
        (newuserdata_tagged (run_lifetime (Examples.empty_state 1) pre) 16 3).1
        post)
     (newuserdata_tagged (run_lifetime (Examples.empty_state 1) pre) 16 3).2
   = Some 7%nat).
Proof.
  assert (Ht : 0 < 3 < MAX_USERDATA_TAGS) by (vm_compute; split; reflexivity).
  split.
  - assert (Hc : Forall (fun c => rebinds 3 c = false)
                   [NewUserdataTagged 4 3; RegisterDestructor 4 (Some 9%nat)])
      by (repeat constructor).
    exact (finalizer_is_latest_registration (Examples.empty_state 1) 16 3
             (Some 7%nat)
             [RegisterDestructor 3 (Some 1%nat); RegisterDestructor 3 (Some 7%nat)]
             [NewUserdataTagged 4 3; RegisterDestructor 4 (Some 9%nat)]
             [RegisterDestructor 3 (Some 1%nat)]
             [NewUserdataTagged 4 3; RegisterDestructor 4 (Some 9%nat)]
             Ht eq_refl Hc).
  - assert (Hc : Forall (fun c => rebinds 3 c = false)
                   [RegisterDestructor 4 (Some 9%nat)])
      by (repeat constructor).
    exact (finalizer_is_latest_registration (Examples.empty_state 1) 16 3
             (Some 7%nat)
             [RegisterDestructor 3 (Some 1%nat)]
             [NewUserdataTagged 4 3; RegisterDestructor 3 (Some 7%nat);
              RegisterDestructor 4 (Some 9%nat)]
             [RegisterDestructor 3 (Some 1%nat); NewUserdataTagged 4 3]
             [RegisterDestructor 4 (Some 9%nat)]
             Ht eq_refl Hc).
Defined.

Lemma register_destructor_out_of_range_ignored_witness :
  udatagc (run_lifetime (Examples.empty_state 1)
             [RegisterDestructor 300 (Some 1%nat); NewUserdataTagged 16 300;
              RegisterDestructor 0 (Some 2%nat); RegisterDestructor 300 None])
    !! 300
  = udatagc (Examples.empty_state 1) !! 300.
Proof.
  assert (Ht : 300 <= 0 \/ MAX_USERDATA_TAGS <= 300)
    by (right; vm_compute; discriminate).
  exact (register_destructor_out_of_range_ignored 300
           [RegisterDestructor 300 (Some 1%nat); NewUserdataTagged 16 300;
            RegisterDestructor 0 (Some 2%nat); RegisterDestructor 300 None]
           (Examples.empty_state 1) Ht).
Defined.

End TagRegistryInstances.

(** ** User values *)

Section UserValuesMore.

(** The whole effect of [lua_setiuservalue]: the value is popped, the
    auxiliary table [e] of the userdata (its old one, or a new one when it
    had none) gets the entry, and nothing else changes. *)
Lemma lua_setiuservalue_effect L s v idx p r u n :
  stack L = s ++ [v] ->
  index2addr L idx = Some (Slot p) ->
  s !! p = Some (Userdata r) ->
  udata L !! r = Some u ->
  (forall e, ud_env u = Some e -> is_Some (tables L !! e)) ->
  exists e t0,
    (ud_env u = Some e /\ tables L !! e = Some t0 \/
     ud_env u = None /\ e = fresh (dom (tables L)) /\ t0 = ∅) /\
    lua_setiuservalue L idx n
    = Some (mkState s (<[e := <[n := v]> t0]> (tables L))
                    (<[r := mkUdata (ud_tag u) (ud_size u) (Some e)]> (udata L))
                    (udatagc L) (ci_depth L), 1).
Proof.
  intros Hs Ha Hp Hu Henv.
  destruct (index2addr_slot L idx p Ha) as [Habs Hlt].
  assert (Hps : (p < length s)%nat) by (eapply lookup_lt_Some; eauto).
  assert (Ho : obj L (Slot p) = Userdata r).
  { rewrite (obj_lower L s [v] p Hs Hps). now rewrite Hp. }
  unfold lua_setiuservalue. rewrite Habs.
  rewrite (lua_getfenv_userdata L _ p r u (index2addr_abs L p Hlt) Ho Hu).
  cbn [mbind option_bind].
  destruct (ud_env u) as [e|] eqn:He.
  - destruct (Henv e eq_refl) as [t Ht].
    exists e, t. split; [left; done|].
    rewrite (lua_isnil_top _ (stack L) (Table e)) by reflexivity.
    cbn [mbind option_bind ttype].
    rewrite bool_decide_eq_false_2 by discriminate.
    cbn [mbind option_bind]. unfold lua_pushvalue.
    rewrite (index2addr_below_top _ s v (Table e))
      by (cbn; rewrite Hs, <- app_assoc; reflexivity).
    cbn [mbind option_bind].
    replace (obj (push L (Table e)) (Slot (length s))) with v.
    2:{ cbn. rewrite Hs, <- app_assoc. cbn [app].
        now rewrite list_lookup_middle. }
    cbn [mbind option_bind]. unfold lua_rawseti.
    rewrite (index2addr_below_top _ (s ++ [v]) (Table e) v)
      by (cbn; rewrite Hs, <- !app_assoc; reflexivity).
    cbn [mbind option_bind].
    replace (obj (push (push L (Table e)) v) (Slot (length (s ++ [v]))))
      with (Table e).
    2:{ cbn. rewrite Hs. rewrite <- (app_assoc (s ++ [v]) [Table e] [v]).
        cbn [app]. now rewrite list_lookup_middle. }
    cbn [tables push set_stack]. rewrite Ht. cbn [mbind option_bind].
    cbn [stack push set_stack udata udatagc ci_depth]. rewrite last_snoc.
    cbn [mbind option_bind]. rewrite take_init_snoc.
    erewrite lua_pop_2 by (cbn [stack]; rewrite Hs, <- app_assoc; reflexivity).
    cbn [mbind option_bind]. vm_state.
    rewrite (insert_id (udata L) r); [reflexivity|].
    rewrite Hu. destruct u as [tg sz env]. cbn in He. now subst env.
  - exists (fresh (dom (tables L))), ∅. split; [right; done|].
    rewrite (lua_isnil_top _ (stack L) Nil) by reflexivity.
    cbn [mbind option_bind ttype]. rewrite bool_decide_eq_true_2 by reflexivity.
    rewrite (lua_pop_1 _ (stack L) Nil) by reflexivity.
    unfold lua_createtable. vm_state. set (e := fresh (dom (tables L))).
    unfold lua_pushvalue.
    rewrite (index2addr_top _ (stack L) (Table e)) by reflexivity. vm_state.
    rewrite (obj_top _ (stack L) (Table e)) by reflexivity. vm_state.
    unfold lua_setfenv.
    rewrite index2addr_abs by (cbn; rewrite !length_app; lia).
    vm_state. rewrite last_snoc, take_init_snoc. vm_state.
    replace (obj _ (Slot p)) with (Userdata r).
    2:{ cbn. rewrite Hs, <- !app_assoc. now rewrite lookup_app_l, Hp. }
    rewrite Hu. vm_state. unfold lua_pushvalue.
    rewrite (index2addr_below_top _ s v (Table e))
      by (cbn; rewrite Hs, <- app_assoc; reflexivity).
    vm_state. replace (obj _ (Slot (length s))) with v.
    2:{ cbn. rewrite Hs, <- app_assoc. cbn [app].
        now rewrite list_lookup_middle. }
    vm_state. unfold lua_rawseti.
    rewrite (index2addr_below_top _ (s ++ [v]) (Table e) v)
      by (cbn; rewrite Hs, <- !app_assoc; reflexivity).
    vm_state. replace (obj _ (Slot (length (s ++ [v])))) with (Table e).
    2:{ cbn. rewrite Hs. rewrite <- (app_assoc (s ++ [v]) [Table e] [v]).
        cbn [app]. now rewrite list_lookup_middle. }
    vm_state. rewrite lookup_insert_eq. vm_state.
    rewrite last_snoc, take_init_snoc. vm_state.
    erewrite lua_pop_2 by (cbn [stack]; rewrite Hs, <- app_assoc; reflexivity).
    vm_state. now rewrite insert_insert_eq.
Qed.

(** Reading through [push]: the value is determined by the result. *)
Lemma push_result_inj L v w (t1 t2 : lua_Type) :
  Some (push L v, t1) = Some (push L w, t2) -> v = w.
Proof.
  intros [= H _]. now apply app_inj_tail in H as [_ ->].
Qed.

(** X6: storing a user value at position [n] leaves every other position of
    the same userdata as it was: a later read at [m <> n] yields what a read
    at [m] yielded before the store. *)
Theorem lua_setiuservalue_keeps_other_positions L s v idx p r u n m w :
  stack L = s ++ [v] ->
  index2addr L idx = Some (Slot p) ->
  s !! p = Some (Userdata r) ->
  udata L !! r = Some u ->
  (forall e, ud_env u = Some e -> is_Some (tables L !! e)) ->
  m <> n ->
  lua_getiuservalue L idx m = Some (push L w, ttype w) ->
  exists L1,
    lua_setiuservalue L idx n = Some (L1, 1) /\
    forall idx1, index2addr L1 idx1 = Some (Slot p) ->
      lua_getiuservalue L1 idx1 m = Some (push L1 w, ttype w).
Proof.
  intros Hs Ha Hp Hu Henv Hmn Hbefore.
  assert (Hp' : stack L !! p = Some (Userdata r)).
  { rewrite Hs. apply lookup_app_l_Some. exact Hp. }
  rewrite (lua_getiuservalue_reads L idx p r u m Ha Hp' Hu Henv) in Hbefore.
  apply push_result_inj in Hbefore.
  destruct (lua_setiuservalue_effect L s v idx p r u n Hs Ha Hp Hu Henv)
    as (e & t0 & Hcase & Hset).
  eexists. split; [exact Hset|]. intros idx1 Ha1.
  rewrite (lua_getiuservalue_reads _ idx1 p r
             (mkUdata (ud_tag u) (ud_size u) (Some e)) m Ha1); cycle 1.
  - exact Hp.
  - cbn. apply lookup_insert_eq.
  - cbn. intros e0 [= <-]. rewrite lookup_insert_eq. eauto.
  - cbn [ud_env tables]. rewrite lookup_insert_eq. cbn [mbind option_bind].
    rewrite lookup_insert_ne by congruence.
    replace (default Nil (t0 !! m)) with w; [reflexivity|].
    rewrite <- Hbefore.
    destruct Hcase as [[He Ht]|(He & _ & ->)]; rewrite He.
    + now rewrite Ht.
    + now rewrite lookup_empty.
Qed.

(** X7: user values are per object: storing a user value on one userdata
    leaves every position of another userdata as it was, as long as the two
    do not share their auxiliary table. *)
Theorem lua_setiuservalue_keeps_other_objects L s v idx p r u n q r2 u2 idx2 m w :
  stack L = s ++ [v] ->
  index2addr L idx = Some (Slot p) ->
  s !! p = Some (Userdata r) ->
  udata L !! r = Some u ->
  (forall e, ud_env u = Some e -> is_Some (tables L !! e)) ->
  r2 <> r ->
  s !! q = Some (Userdata r2) ->
  udata L !! r2 = Some u2 ->
  (forall e, ud_env u2 = Some e -> is_Some (tables L !! e) /\ ud_env u <> Some e) ->
  index2addr L idx2 = Some (Slot q) ->
  lua_getiuservalue L idx2 m = Some (push L w, ttype w) ->
  exists L1,
    lua_setiuservalue L idx n = Some (L1, 1) /\
    forall idx1, index2addr L1 idx1 = Some (Slot q) ->
      lua_getiuservalue L1 idx1 m = Some (push L1 w, ttype w).
Proof.
  intros Hs Ha Hp Hu Henv Hr Hq Hu2 Henv2 Ha2 Hbefore.
  assert (Hq' : stack L !! q = Some (Userdata r2)).
  { rewrite Hs. apply lookup_app_l_Some. exact Hq. }
  rewrite (lua_getiuservalue_reads L idx2 q r2 u2 m Ha2 Hq' Hu2) in Hbefore
    by (intros e He; apply (Henv2 e He)).
  apply push_result_inj in Hbefore.
  destruct (lua_setiuservalue_effect L s v idx p r u n Hs Ha Hp Hu Henv)
    as (e & t0 & Hcase & Hset).
  eexists. split; [exact Hset|]. intros idx1 Ha1.
  assert (Hne : forall e2, ud_env u2 = Some e2 -> e <> e2).
  { intros e2 He2 <-. destruct (Henv2 e He2) as [[t Ht] Hshare].
    destruct Hcase as [[He _]|(_ & -> & _)]; [contradiction|].
    apply (is_fresh (dom (tables L))), elem_of_dom. eauto. }
  rewrite (lua_getiuservalue_reads _ idx1 q r2 u2 m Ha1); cycle 1.
  - exact Hq.
  - cbn. now rewrite lookup_insert_ne.
  - cbn. intros e2 He2. rewrite lookup_insert_ne by (now apply Hne).
    apply (Henv2 e2 He2).
  - cbn [tables]. rewrite <- Hbefore.
    destruct (ud_env u2) as [e2|] eqn:He2; [|reflexivity].
    rewrite lookup_insert_ne by (now apply Hne). reflexivity.
Qed.

(** X8: [lua_newuserdatauv] never fails; it pushes exactly one value, a
    userdata that did not exist before, and every user value of the new
    object reads nil, whatever count was asked for. *)
Theorem lua_newuserdatauv_fresh L sz nuvalue :
  exists L1 r,
    lua_newuserdatauv L sz nuvalue = Some (L1, r) /\
    stack L1 = stack L ++ [Userdata r] /\
    udata L !! r = None /\
    forall n, lua_getiuservalue L1 (-1) n = Some (push L1 Nil, LUA_TNIL).
Proof.
  unfold lua_newuserdatauv, lua_newuserdata, lua_newuserdatatagged.
  set (r := fresh (dom (udata L))).
  assert (Hfresh : udata L !! r = None).
  { apply not_elem_of_dom, is_fresh. }
  destruct (0 <? nuvalue).
  - unfold lua_createtable. vm_state. set (e := fresh (dom (tables L))).
    unfold lua_setfenv.
    rewrite (index2addr_below_top _ (stack L) (Userdata r) (Table e))
      by (cbn; now rewrite <- app_assoc).
    vm_state. rewrite last_snoc, take_init_snoc. vm_state.
    replace (obj _ (Slot (length (stack L)))) with (Userdata r).
    2:{ cbn. rewrite <- app_assoc. cbn [app]. now rewrite list_lookup_middle. }
    rewrite lookup_insert_eq. vm_state.
    eexists _, r. split; [reflexivity|]. split; [reflexivity|].
    split; [exact Hfresh|]. intros n.
    rewrite (lua_getiuservalue_reads _ (-1) (length (stack L)) r
               (mkUdata 0 sz (Some e)) n).
    + cbn [ud_env tables]. rewrite lookup_insert_eq. cbn [mbind option_bind].
      now rewrite lookup_empty.
    + now apply (index2addr_top _ (stack L) (Userdata r)).
    + cbn. now rewrite list_lookup_middle.
    + cbn. rewrite insert_insert_eq. apply lookup_insert_eq.
    + cbn. intros e0 [= <-]. rewrite lookup_insert_eq. eauto.
  - eexists _, r. split; [reflexivity|]. split; [reflexivity|].
    split; [exact Hfresh|]. intros n.
    rewrite (lua_getiuservalue_reads _ (-1) (length (stack L)) r
               (mkUdata 0 sz None) n).
    + reflexivity.
    + now apply (index2addr_top _ (stack L) (Userdata r)).
    + cbn. now rewrite list_lookup_middle.
    + cbn. apply lookup_insert_eq.
    + cbn. intros e0 [=].
Qed.

End UserValuesMore.

Lemma lua_setiuservalue_keeps_other_positions_witness :
  exists L1,
    lua_setiuservalue MoreExamples.one_block 1 1 = Some (L1, 1) /\
    forall idx1, index2addr L1 idx1 = Some (Slot 0) ->
      lua_getiuservalue L1 idx1 2 = Some (push L1 Nil, ttype Nil).
Proof.
  assert (Hs : stack MoreExamples.one_block = [Userdata 0] ++ [Str "x"])
    by reflexivity.
  assert (Ha : index2addr MoreExamples.one_block 1 = Some (Slot 0)) by reflexivity.
  assert (Hp : [Userdata 0] !! 0%nat = Some (Userdata 0)) by reflexivity.
  assert (Hu : udata MoreExamples.one_block !! 0%nat = Some (mkUdata 0 8 None))
    by reflexivity.
  assert (He : forall e, ud_env (mkUdata 0 8 None) = Some e ->
                         is_Some (tables MoreExamples.one_block !! e))
    by (intros e [=]).
  assert (Hn : 2 <> 1) by discriminate.
  assert (Hg : lua_getiuservalue MoreExamples.one_block 1 2
               = Some (push MoreExamples.one_block Nil, ttype Nil))
    by reflexivity.
  exact (lua_setiuservalue_keeps_other_positions MoreExamples.one_block
           [Userdata 0] (Str "x") 1 0%nat 0%nat (mkUdata 0 8 None) 1 2 Nil
           Hs Ha Hp Hu He Hn Hg).
Defined.

Lemma lua_setiuservalue_keeps_other_objects_witness :
  exists L1,
    lua_setiuservalue MoreExamples.two_blocks 1 1 = Some (L1, 1) /\
    forall idx1, index2addr L1 idx1 = Some (Slot 1) ->
      lua_getiuservalue L1 idx1 1 = Some (push L1 Nil, ttype Nil).
Proof.
  assert (Hs : stack MoreExamples.two_blocks
               = [Userdata 0; Userdata 1] ++ [Str "x"]) by reflexivity.
  assert (Ha : index2addr MoreExamples.two_blocks 1 = Some (Slot 0)) by reflexivity.
  assert (Hp : [Userdata 0; Userdata 1] !! 0%nat = Some (Userdata 0)) by reflexivity.
  assert (Hu : udata MoreExamples.two_blocks !! 0%nat = Some (mkUdata 0 8 None))
    by reflexivity.
  assert (He : forall e, ud_env (mkUdata 0 8 None) = Some e ->
                         is_Some (tables MoreExamples.two_blocks !! e))
    by (intros e [=]).
  assert (Hr : 1%nat <> 0%nat) by discriminate.
  assert (Hq : [Userdata 0; Userdata 1] !! 1%nat = Some (Userdata 1)) by reflexivity.
  assert (Hu2 : udata MoreExamples.two_blocks !! 1%nat = Some (mkUdata 0 8 None))
    by reflexivity.
  assert (He2 : forall e, ud_env (mkUdata 0 8 None) = Some e ->
                  is_Some (tables MoreExamples.two_blocks !! e) /\
                  ud_env (mkUdata 0 8 None) <> Some e)
    by (intros e [=]).
  assert (Ha2 : index2addr MoreExamples.two_blocks 2 = Some (Slot 1)) by reflexivity.
  assert (Hg : lua_getiuservalue MoreExamples.two_blocks 2 1
               = Some (push MoreExamples.two_blocks Nil, ttype Nil))
    by reflexivity.
  exact (lua_setiuservalue_keeps_other_objects MoreExamples.two_blocks
           [Userdata 0; Userdata 1] (Str "x") 1 0%nat 0%nat (mkUdata 0 8 None) 1
           1%nat 1%nat (mkUdata 0 8 None) 2 1 Nil
           Hs Ha Hp Hu He Hr Hq Hu2 He2 Ha2 Hg).
Defined.

(** ** Slot copy *)

Section SlotCopy.

Lemma take_insert_snoc (s : list Value) (i : nat) v :
  (i <= length s)%nat ->
  take (length (s ++ [v]) - 1) (<[i := v]> (s ++ [v])) = <[i := v]> s.
Proof.
  intros Hi. rewrite length_app. cbn [length]. rewrite Nat.add_sub.
  destruct (decide (i = length s)) as [->|Hne].
  - replace (length s) with (length s + 0)%nat at 2 by lia.
    rewrite insert_app_r. cbn. rewrite take_app_length.
    now rewrite list_insert_ge.
  - rewrite insert_app_l by lia.
    rewrite <- (length_insert s i v) at 1. apply take_app_length.
Qed.

(** What [lua_copy] does in terms of the slot its second step resolves. *)
Lemma lua_copy_slot L fromidx toidx o (i : nat) :
  index2addr L fromidx = Some o ->
  index2addr (push L (obj L o)) toidx = Some (Slot i) ->
  (i <= length (stack L))%nat ->
  lua_copy L fromidx toidx
  = Some (set_stack L (<[i := obj L o]> (stack L))).
Proof.
  intros Hfrom Hto Hi. unfold lua_copy, lua_pushvalue. rewrite Hfrom.
  cbn [mbind option_bind]. unfold lua_replace. rewrite Hto.
  cbn [stack push set_stack]. rewrite last_snoc. cbn [mbind option_bind].
  now rewrite take_insert_snoc.
Qed.

(** X9: with an absolute destination [1 <= toidx <= top], [lua_copy]
    overwrites that slot with the value at [fromidx] and changes nothing
    else: the stack keeps its height and its other slots. *)
Theorem lua_copy_absolute L fromidx toidx o :
  index2addr L fromidx = Some o ->
  1 <= toidx <= lua_gettop L ->
  lua_copy L fromidx toidx
  = Some (set_stack L (<[Z.to_nat (toidx - 1) := obj L o]> (stack L))).
Proof.
  intros Hfrom Hto. unfold lua_gettop in Hto.
  apply lua_copy_slot; [exact Hfrom| |lia].
  unfold index2addr, lua_gettop. cbn [stack push set_stack].
  rewrite length_app. cbn [length].
  replace (0 <? toidx) with true by (symmetry; apply Z.ltb_lt; lia).
  replace (toidx <=? Z.of_nat (length (stack L) + 1)) with true
    by (symmetry; apply Z.leb_le; lia).
  reflexivity.
Qed.

(** X10: a destination relative to the top is resolved after the copy has
    been pushed, so it lands one slot higher than the slot the index denoted
    when [lua_copy] was called: [lua_copy (from, -1)] leaves the stack
    unchanged, and [lua_copy (from, -k)] writes the slot that was [-(k-1)]. *)
Theorem lua_copy_relative L fromidx toidx o :
  index2addr L fromidx = Some o ->
  LUA_REGISTRYINDEX < toidx <= -1 ->
  - toidx <= lua_gettop L + 1 ->
  lua_copy L fromidx toidx
  = Some (set_stack L
            (<[Z.to_nat (lua_gettop L + 1 + toidx) := obj L o]> (stack L))) /\
  (toidx = -1 -> lua_copy L fromidx toidx = Some L).
Proof.
  intros Hfrom Hto Hlen. unfold lua_gettop in *.
  assert (Hcopy : lua_copy L fromidx toidx
            = Some (set_stack L
                (<[Z.to_nat (Z.of_nat (length (stack L)) + 1 + toidx)
                   := obj L o]> (stack L)))).
  { apply lua_copy_slot; [exact Hfrom| |lia].
    unfold index2addr, lua_gettop. cbn [stack push set_stack].
    rewrite length_app. cbn [length].
    replace (0 <? toidx) with false by (symmetry; apply Z.ltb_ge; lia).
    replace (LUA_REGISTRYINDEX <? toidx) with true
      by (symmetry; apply Z.ltb_lt; lia).
    replace (toidx <? 0) with true by (symmetry; apply Z.ltb_lt; lia).
    replace (- toidx <=? Z.of_nat (length (stack L) + 1)) with true
      by (symmetry; apply Z.leb_le; lia).
    cbn [andb]. do 2 f_equal. lia. }
  split; [exact Hcopy|]. intros ->. rewrite Hcopy.
  rewrite list_insert_ge by lia. now rewrite set_stack_same.
Qed.

End SlotCopy.

Lemma lua_copy_absolute_witness :
  lua_copy MoreExamples.abc_stack 1 3
  = Some (set_stack MoreExamples.abc_stack [Str "a"; Str "b"; Str "a"]).
Proof.
  assert (Ha : index2addr MoreExamples.abc_stack 1 = Some (Slot 0)) by reflexivity.
  assert (Hr : 1 <= 3 <= lua_gettop MoreExamples.abc_stack)
    by (vm_compute; split; discriminate).
  exact (lua_copy_absolute MoreExamples.abc_stack 1 3 (Slot 0) Ha Hr).
Defined.

Lemma lua_copy_relative_witness :
  lua_copy MoreExamples.abc_stack 1 (-2)
  = Some (set_stack MoreExamples.abc_stack [Str "a"; Str "b"; Str "a"]) /\
  (-2 = -1 -> lua_copy MoreExamples.abc_stack 1 (-2) = Some MoreExamples.abc_stack).
Proof.
  assert (Ha : index2addr MoreExamples.abc_stack 1 = Some (Slot 0)) by reflexivity.
  assert (Hr : LUA_REGISTRYINDEX < -2 <= -1)
    by (vm_compute; split; [reflexivity | discriminate]).
  assert (Ht : - -2 <= lua_gettop MoreExamples.abc_stack + 1)
    by (vm_compute; discriminate).
  exact (lua_copy_relative MoreExamples.abc_stack 1 (-2) (Slot 0) Ha Hr Ht).
Defined.

(** ** 64-bit integers, continued *)

Section IntegersMoreProperties.

Variable str2d : string -> option double.

(** X11: [lua_tointegerx] returns the integer [lua_tointeger] returns and
    reports through [isnum] what [lua_isinteger] returns.  For a value that
    is not numeric both are 0; and when the flag is 1 the integer returned
    is exactly the number: the number has no fraction and its whole part is
    the result. *)
Theorem lua_tointegerx_agrees L idx o :
  index2addr L idx = Some o ->
  exists z f,
    lua_tointegerx_64 str2d L idx true = Some (z, Some f) /\
    lua_tointeger_64 str2d L idx = Some z /\
    lua_isinteger str2d L idx = Some f /\
    (tonumber str2d (obj L o) = None -> z = 0 /\ f = 0) /\
    (f = 1 -> exists n, tonumber str2d (obj L o) = Some n /\
                        integral n /\ trunc n = Some z).
Proof.
  intros Ha. rewrite (lua_isinteger_value str2d L idx o Ha).
  unfold lua_tointegerx_64, lua_tointeger_64, lua_tonumber, lua_isnumber.
  rewrite Ha. cbn [mbind option_bind].
  destruct (tonumber str2d (obj L o)) as [n|] eqn:Hn; cbn [default from_option id].
  - rewrite bool_decide_eq_true_2 by eauto. cbn [andb].
    eexists _, _. split; [reflexivity|]. split; [reflexivity|].
    split; [reflexivity|]. split; [discriminate|].
    intros Hf. exists n. split; [reflexivity|].
    destruct (eqb n (of_int64 (to_int64 n))) eqn:He; [|discriminate].
    destruct (truncation_fixpoint_sound n He) as [Hint Hrange].
    split; [exact Hint|].
    unfold in_int64_range in Hrange. unfold to_int64.
    destruct (trunc n) as [z|]; [|contradiction].
    destruct Hrange as [H1 H2]. apply Z.leb_le in H1, H2. now rewrite H1, H2.
  - rewrite bool_decide_eq_false_2 by (intros [? ?]; discriminate).
    cbn [andb Z.b2z].
    eexists _, _. split; [reflexivity|]. split; [reflexivity|].
    split; [reflexivity|]. split; [done|discriminate].
Qed.

Lemma eqb_of_int64_refl v :
  Z.abs v <= 2 ^ 53 -> eqb (of_int64 v) (of_int64 v) = true.
Proof.
  intros Hv.
  destruct (Z.eq_dec (Z.abs v) (2 ^ 53)) as [Heq|Hne].
  - destruct (Z.abs_eq_or_opp v) as [E|E]; rewrite E in Heq.
    + subst v. vm_compute. reflexivity.
    + assert (v = - 2 ^ 53) as -> by lia. vm_compute. reflexivity.
  - destruct v as [|m|m]; [reflexivity| |].
    + destruct (binary_round_small false m) as (m' & e' & Hr & _);
        [simpl in Hv; unfold prec; lia|].
      unfold of_int64, binary_normalize. rewrite Hr. apply SFeqb_finite_refl.
    + destruct (binary_round_small true m) as (m' & e' & Hr & _);
        [simpl in Hv; unfold prec; lia|].
      unfold of_int64, binary_normalize. rewrite Hr. apply SFeqb_finite_refl.
Qed.

(** X12: an integer [v] with [|v| <= 2^53] pushed with [lua_pushinteger] is
    recognised by [lua_isinteger]. *)
Theorem lua_pushinteger_isinteger L v :
  Z.abs v <= 2 ^ 53 ->
  lua_isinteger str2d (lua_pushinteger_64 L v) (-1) = Some 1.
Proof.
  intros Hv.
  rewrite (lua_isinteger_value str2d _ (-1) (Slot (length (stack L)))).
  - unfold lua_pushinteger_64, lua_pushnumber.
    rewrite (obj_top _ (stack L) (Number (of_int64 v))) by reflexivity.
    cbn [tonumber]. rewrite to_of_int64 by exact Hv.
    now rewrite eqb_of_int64_refl.
  - now apply (index2addr_top _ (stack L) (Number (of_int64 v))).
Qed.

End IntegersMoreProperties.

Lemma lua_tointegerx_agrees_witness :
  exists z f,
    lua_tointegerx_64 (fun _ => None) MoreExamples.abc_stack 1 true
    = Some (z, Some f) /\
    lua_tointeger_64 (fun _ => None) MoreExamples.abc_stack 1 = Some z /\
    lua_isinteger (fun _ => None) MoreExamples.abc_stack 1 = Some f /\
    (tonumber (fun _ => None) (obj MoreExamples.abc_stack (Slot 0)) = None ->
     z = 0 /\ f = 0) /\
    (f = 1 -> exists n,
       tonumber (fun _ => None) (obj MoreExamples.abc_stack (Slot 0)) = Some n /\
       integral n /\ trunc n = Some z).
Proof.
  assert (Ha : index2addr MoreExamples.abc_stack 1 = Some (Slot 0)) by reflexivity.
  exact (lua_tointegerx_agrees (fun _ => None) MoreExamples.abc_stack 1 (Slot 0) Ha).
Defined.

Lemma lua_pushinteger_isinteger_witness :
  lua_isinteger (fun _ => None)
    (lua_pushinteger_64 (Examples.empty_state 1) 42) (-1) = Some 1.
Proof.
  assert (Hv : Z.abs 42 <= 2 ^ 53) by (vm_compute; discriminate).
  exact (lua_pushinteger_isinteger (fun _ => None) (Examples.empty_state 1) 42 Hv).
Defined.

(** ** Debug-frame adapter, continued *)

Section DebugFramesMore.

Variable lua_getinfo : lua_State -> Z -> string -> lua_Debug -> Z * lua_Debug.
Variable lua_getlocal : lua_State -> Z -> Z -> lua_State * option string.

Lemma last_captured_other_threads tid calls :
  Forall (fun c : nat * lua_State * Z * lua_Debug => c.1.1.1 <> tid) calls ->
  last_captured tid calls = None.
Proof.
  intros Hall. unfold last_captured.
  replace (omap _ calls) with (@nil Z); [reflexivity|].
  induction Hall as [|[[[tid1 L] level] ar] calls Hc _ IH]; [reflexivity|].
  cbn [omap list_omap]. cbn in Hc.
  rewrite bool_decide_eq_false_2 by exact Hc. cbn [andb]. exact IH.
Qed.

(** X13: the cursor is per thread: captures made by other threads,
    successful or not, never change the level a thread's next query uses. *)
Theorem lua_getstack_threads_isolated tid tls calls :
  Forall (fun c : nat * lua_State * Z * lua_Debug => c.1.1.1 <> tid) calls ->
  LuauCompat.s_current_debug_level (run_getstack tls calls) tid
  = LuauCompat.s_current_debug_level tls tid /\
  (forall L w a,
     luau_getinfo_3arg lua_getinfo tid (run_getstack tls calls) L w a
     = luau_getinfo_3arg lua_getinfo tid tls L w a) /\
  (forall L a n,
     luau_getlocal_3arg lua_getlocal tid (run_getstack tls calls) L a n
     = luau_getlocal_3arg lua_getlocal tid tls L a n).
Proof.
  intros Hall.
  assert (Hcur : LuauCompat.s_current_debug_level (run_getstack tls calls) tid
                 = LuauCompat.s_current_debug_level tls tid).
  { rewrite run_getstack_cursor.
    now rewrite (last_captured_other_threads tid calls Hall). }
  split; [exact Hcur|]. split; intros.
  - unfold luau_getinfo_3arg. now rewrite Hcur.
  - unfold luau_getlocal_3arg. now rewrite Hcur.
Qed.

(** X14: a frame record does not remember its level: after a thread has
    captured level [a] and then level [b], a query made with the record of
    the first capture reports on level [b]. *)
Theorem lua_getstack_second_capture_wins tid tls La Lb a b ar ar' :
  0 <= a < lua_stackdepth La ->
  0 <= b < lua_stackdepth Lb ->
  let first := lua_getstack tid tls La a ar in
  let second := lua_getstack tid first.1.1 Lb b ar' in
  (forall L w,
     luau_getinfo_3arg lua_getinfo tid second.1.1 L w first.1.2
     = lua_getinfo L b w first.1.2) /\
  (forall L n,
     luau_getlocal_3arg lua_getlocal tid second.1.1 L first.1.2 n
     = lua_getlocal L b n).
Proof.
  intros Ha Hb first second. unfold second, first.
  rewrite (lua_getstack_in_range tid tls La a ar Ha). cbn [fst snd].
  rewrite (lua_getstack_in_range tid _ Lb b ar' Hb). cbn [fst snd].
  assert (Hcur : LuauCompat.s_current_debug_level
                   (<[tid := b]> (<[tid := a]> tls)) tid = b).
  { unfold LuauCompat.s_current_debug_level. now rewrite lookup_insert_eq. }
  split; intros.
  - unfold luau_getinfo_3arg. now rewrite Hcur.
  - unfold luau_getlocal_3arg. now rewrite Hcur.
Qed.

End DebugFramesMore.

Lemma lua_getstack_threads_isolated_witness :
  let calls := [(8%nat, Examples.empty_state 3, 1, Examples.used_frame)] in
  LuauCompat.s_current_debug_level (run_getstack ∅ calls) 7%nat
  = LuauCompat.s_current_debug_level ∅ 7%nat /\
  (forall L w a,
     luau_getinfo_3arg Examples.getinfo_level 7%nat (run_getstack ∅ calls) L w a
     = luau_getinfo_3arg Examples.getinfo_level 7%nat ∅ L w a) /\
  (forall L a n,
     luau_getlocal_3arg Examples.getlocal_none 7%nat (run_getstack ∅ calls) L a n
     = luau_getlocal_3arg Examples.getlocal_none 7%nat ∅ L a n).
Proof.
  intros calls.
  assert (Hc : Forall (fun c : nat * lua_State * Z * lua_Debug => c.1.1.1 <> 7%nat)
                 calls) by (repeat constructor; discriminate).
  exact (lua_getstack_threads_isolated Examples.getinfo_level
           Examples.getlocal_none 7%nat ∅ calls Hc).
Defined.

Lemma lua_getstack_second_capture_wins_witness :
  let first := lua_getstack 7%nat ∅ (Examples.empty_state 3) 1
                 Examples.used_frame in
  let second := lua_getstack 7%nat first.1.1 (Examples.empty_state 3) 2
                  Examples.used_frame in
  (forall L w,
     luau_getinfo_3arg Examples.getinfo_level 7%nat second.1.1 L w first.1.2
     = Examples.getinfo_level L 2 w first.1.2) /\
  (forall L n,
     luau_getlocal_3arg Examples.getlocal_none 7%nat second.1.1 L first.1.2 n
     = Examples.getlocal_none L 2 n).
Proof.
  assert (Ha : 0 <= 1 < lua_stackdepth (Examples.empty_state 3))
    by (vm_compute; split; [discriminate | reflexivity]).
  assert (Hb : 0 <= 2 < lua_stackdepth (Examples.empty_state 3))
    by (vm_compute; split; [discriminate | reflexivity]).
  exact (lua_getstack_second_capture_wins Examples.getinfo_level
           Examples.getlocal_none 7%nat ∅ (Examples.empty_state 3)
           (Examples.empty_state 3) 1 2 Examples.used_frame Examples.used_frame
           Ha Hb).
Defined.

(** ** Loading files and running chunks *)

Lemma substring_length (n : nat) (s : string) :
  String.length (String.substring 0 n s) = Nat.min n (String.length s).
Proof.
  revert s. induction n as [|n IH]; intros [|c s]; cbn; try reflexivity.
  now rewrite IH.
Qed.

(** X15: the four outcomes of [luaL_loadfile].  A file that cannot be
    opened gives [LUA_ERRFILE] with "cannot open <name>" pushed.  The size
    [ftell] reports is used unchecked as a [size_t]: when a string of that
    length cannot be constructed (as for the -1 of a failed [ftell]) the
    function is left by the exception and returns nothing.  A file of which
    fewer bytes arrive than that size gives [LUA_ERRFILE] with "cannot read
    <name>" pushed.  None of these three consults the compiler or the native
    loader; only a file read in full goes through [luaL_loadbuffer], with
    the file name as chunk name. *)
Theorem luaL_loadfile_outcomes compile luau_load fopen allocates L filename :
  (fopen filename = None /\
   forall compile1 load1 allocates1,
     luaL_loadfile compile1 load1 fopen allocates1 L filename
     = Returned (lua_pushstring L ("cannot open " +:+ filename), LUA_ERRFILE)) \/
  (exists f, fopen filename = Some f /\
     allocates (to_size_t (f_tell f)) = false /\
     forall compile1 load1,
       luaL_loadfile compile1 load1 fopen allocates L filename = Thrown) \/
  (exists f, fopen filename = Some f /\
     allocates (to_size_t (f_tell f)) = true /\
     Z.of_nat (String.length (f_data f)) < to_size_t (f_tell f) /\
     forall compile1 load1,
       luaL_loadfile compile1 load1 fopen allocates L filename
       = Returned (lua_pushstring L ("cannot read " +:+ filename),
                   LUA_ERRFILE)) \/
  (exists f, fopen filename = Some f /\
     allocates (to_size_t (f_tell f)) = true /\
     to_size_t (f_tell f) <= Z.of_nat (String.length (f_data f)) /\
     luaL_loadfile compile luau_load fopen allocates L filename
     = Returned (luaL_loadbuffer compile luau_load L
                   (String.substring 0 (Z.to_nat (to_size_t (f_tell f)))
                      (f_data f))
                   filename)).
Proof.
  unfold luaL_loadfile. destruct (fopen filename) as [f|] eqn:Hopen.
  2:{ left. split; reflexivity. }
  right. destruct (allocates (to_size_t (f_tell f))) eqn:Halloc; cbn [negb].
  2:{ left. exists f. split_and!; first [exact Halloc | reflexivity]. }
  right.
  assert (Hnn : 0 <= to_size_t (f_tell f))
    by (unfold to_size_t; apply Z.mod_pos_bound; lia).
  destruct (Z_le_gt_dec (to_size_t (f_tell f))
              (Z.of_nat (String.length (f_data f)))) as [Hfull|Hshort].
  - right. exists f. split_and!; try reflexivity; try exact Halloc; [exact Hfull|].
    rewrite substring_length, Nat.min_l by lia.
    rewrite Z2Nat.id, Z.eqb_refl by exact Hnn. reflexivity.
  - left. exists f. split_and!; try reflexivity; try exact Halloc; [lia|].
    intros compile1 load1. rewrite substring_length, Nat.min_r by lia.
    replace (Z.of_nat (String.length (f_data f)) =? to_size_t (f_tell f))
      with false by (symmetry; apply Z.eqb_neq; lia).
    reflexivity.
Qed.

(** A failed [ftell]: the size -1 becomes a length no string can have. *)
Example luaL_loadfile_failed_ftell :
  luaL_loadfile Examples.compile_accept Examples.load_ok
    (fun _ => Some (mkFILE (-1) EmptyString)) (fun n => n <? 2 ^ 62)
    (Examples.empty_state 1) "dir"
  = Thrown.
Proof. reflexivity. Qed.

(** X16: [luaL_dostring] runs a chunk only when it was loaded: if the
    compiler rejects the source, or the native loader reports a non-zero
    status, the result is true (an error) and [lua_pcall] is not consulted;
    otherwise the result is that of [lua_pcall] on the loaded chunk, with no
    arguments and all results. *)
Theorem luaL_dostring_runs_only_loaded_chunks compile luau_load lua_pcall L s :
  (bool_decide (compile (c_str s) = EmptyString)
   || starts_with_nul (compile (c_str s)) = true ->
   exists msg, forall load1 pcall1,
     luaL_dostring compile load1 pcall1 L s = (lua_pushstring L msg, true)) /\
  (forall L1 st,
     bool_decide (compile (c_str s) = EmptyString)
     || starts_with_nul (compile (c_str s)) = false ->
     luau_load L "chunk" (compile (c_str s)) 0 = (L1, st) ->
     (st <> 0 ->
      forall pcall1, luaL_dostring compile luau_load pcall1 L s = (L1, true)) /\
     (st = 0 ->
      luaL_dostring compile luau_load lua_pcall L s
      = ((lua_pcall L1 0 LUA_MULTRET 0).1,
         negb ((lua_pcall L1 0 LUA_MULTRET 0).2 =? 0)))).
Proof.
  split.
  - intros Hfail.
    exists (if (1 <? String.length (compile (c_str s)))%nat
            then c_str (string_tail (compile (c_str s)))
            else "compilation failed").
    intros load1 pcall1. unfold luaL_dostring.
    rewrite luaL_loadstring_loadbuffer. unfold luaL_loadbuffer.
    rewrite Hfail.
    destruct (1 <? String.length (compile (c_str s)))%nat; reflexivity.
  - intros L1 st Hok Hload. split.
    + intros Hst pcall1. unfold luaL_dostring.
      rewrite luaL_loadstring_loadbuffer. unfold luaL_loadbuffer.
      rewrite Hok, Hload.
      replace (st =? 0) with false by (symmetry; apply Z.eqb_neq; exact Hst).
      reflexivity.
    + intros ->. unfold luaL_dostring.
      rewrite luaL_loadstring_loadbuffer. unfold luaL_loadbuffer.
      rewrite Hok, Hload. cbn.
      now destruct (lua_pcall L1 0 LUA_MULTRET 0).
Qed.

(** ** The io library *)

Section IOLibrary.

Import IOLib.

Lemma scan_mode_closed_form m : forall st,
  scan_mode m st
  = mkScan (has_read st || occurs "r" (c_str m) || occurs "+" (c_str m))
           (has_write st || occurs "w" (c_str m) || occurs "a" (c_str m)
            || occurs "+" (c_str m))
           (has_binary st || occurs "b" (c_str m))
           (bit_trunc st || occurs "w" (c_str m))
           (bit_app st || occurs "a" (c_str m)).
Proof.
  induction m as [|c m IH]; intros [hr hw hb bt ba].
  - cbn. now rewrite !orb_false_r.
  - cbn [scan_mode c_str].
    destruct (Ascii.eqb c Ascii.zero) eqn:Hz.
    { cbn. now rewrite !orb_false_r. }
    rewrite IH. cbn [occurs]. unfold scan_char.
    destruct (Ascii.eqb c "r") eqn:Hr.
    { apply Ascii.eqb_eq in Hr. subst c. cbn.
      f_equal; repeat (rewrite ?orb_true_r, ?orb_false_r; cbn); reflexivity. }
    destruct (Ascii.eqb c "w") eqn:Hw.
    { apply Ascii.eqb_eq in Hw. subst c. cbn.
      f_equal; repeat (rewrite ?orb_true_r, ?orb_false_r; cbn); reflexivity. }
    destruct (Ascii.eqb c "a") eqn:Hq.
    { apply Ascii.eqb_eq in Hq. subst c. cbn.
      f_equal; repeat (rewrite ?orb_true_r, ?orb_false_r; cbn); reflexivity. }
    destruct (Ascii.eqb c "b") eqn:Hb.
    { apply Ascii.eqb_eq in Hb. subst c. cbn.
      f_equal; repeat (rewrite ?orb_true_r, ?orb_false_r; cbn); reflexivity. }
    destruct (Ascii.eqb c "+") eqn:Hp.
    { apply Ascii.eqb_eq in Hp. subst c. cbn.
      f_equal; repeat (rewrite ?orb_true_r, ?orb_false_r; cbn); reflexivity. }
    cbn. reflexivity.
Qed.

(** X17: the open mode [lua_io_open] derives from a mode string depends
    only on which of the characters r, w, a, b and + occur in it (before a
    NUL): order, repetition and all other characters are irrelevant.  The
    stream is opened for input iff r or + occurs, for output iff w, a or +
    occurs, truncating iff w occurs, appending iff a occurs, binary iff b
    occurs. *)
Theorem open_mode_of_closed_form m :
  open_mode_of m
  = mkMode (occurs "r" (c_str m) || occurs "+" (c_str m))
           (occurs "w" (c_str m) || occurs "a" (c_str m) || occurs "+" (c_str m))
           (occurs "w" (c_str m))
           (occurs "a" (c_str m))
           (occurs "b" (c_str m)).
Proof. unfold open_mode_of. now rewrite scan_mode_closed_form. Qed.

Lemma split_line_newline l rest :
  occurs "010" l = false ->
  split_line (l +:+ String "010" rest) = (l, Some rest).
Proof.
  induction l as [|c l IH]; intros H.
  - reflexivity.
  - cbn [occurs] in H. apply orb_false_elim in H as [Hc Hl].
    change (String c l +:+ String "010" rest)
      with (String c (l +:+ String "010" rest)).
    cbn [split_line]. rewrite Hc, (IH Hl). reflexivity.
Qed.

Lemma split_line_end l :
  occurs "010" l = false -> split_line l = (l, None).
Proof.
  induction l as [|c l IH]; cbn [occurs split_line]; [reflexivity|].
  intros H. apply orb_false_elim in H as [Hc Hl].
  rewrite Hc, (IH Hl). reflexivity.
Qed.

Lemma getline_line f l rest :
  eofbit f = false -> failbit f = false ->
  occurs "010" l = false ->
  unread f = l +:+ String "010" rest ->
  getline f
  = (mkStream rest (written f) (writable f) (appending f) false false, Some l).
Proof.
  intros He Hf Hl Hu. unfold getline. rewrite He, Hf, Hu. cbn [orb].
  rewrite (split_line_newline l rest Hl).
  destruct l; reflexivity.
Qed.

Lemma getline_last f tail :
  eofbit f = false -> failbit f = false ->
  occurs "010" tail = false -> tail <> EmptyString ->
  unread f = tail ->
  getline f
  = (mkStream EmptyString (written f) (writable f) (appending f) true false,
     Some tail).
Proof.
  intros He Hf Hl Hne Hu. unfold getline. rewrite He, Hf, Hu. cbn [orb].
  rewrite (split_line_end tail Hl).
  destruct tail; [contradiction|reflexivity].
Qed.

Lemma getline_exhausted f :
  unread f = EmptyString \/ eofbit f = true \/ failbit f = true ->
  exists f1, getline f = (f1, None) /\ failbit f1 = true /\
             written f1 = written f.
Proof.
  intros H. unfold getline.
  destruct (eofbit f || failbit f) eqn:Hbits.
  - eexists. split; [reflexivity|]. split; reflexivity.
  - apply orb_false_elim in Hbits as [He Hf].
    destruct H as [Hu|[H|H]]; [|congruence|congruence].
    rewrite Hu. eexists. split; [reflexivity|]. split; reflexivity.
Qed.

Lemma iterate_app step a b h :
  iterate step (a + b) h
  = ((iterate step a h).1 ++ (iterate step b (iterate step a h).2).1,
     (iterate step b (iterate step a h).2).2).
Proof.
  revert h. induction a as [|a IH]; intros h.
  - cbn. now destruct (iterate step b h).
  - cbn [Nat.add iterate]. destruct (step h) as [h1 vs].
    rewrite IH. destruct (iterate step a h1) as [r1 h2]. cbn [fst snd].
    destruct (iterate step b h2) as [r2 h3]. cbn [fst snd].
    now rewrite app_assoc.
Qed.

(** Both iterators hand out the lines of the text while there are some. *)
Lemma iterate_lines step ls : forall tail f md,
  (forall h0, is_open h0 = true ->
     forall f1 l, getline (file h0) = (f1, Some l) ->
       step (Some h0) = (Some (mkHandle f1 true (mode h0)), [Str (c_str l)])) ->
  Forall (fun l => occurs "010" l = false) ls ->
  occurs "010" tail = false ->
  eofbit f = false -> failbit f = false ->
  unread f = text_of ls tail ->
  exists f1,
    iterate step (length (lines_of ls tail)) (Some (mkHandle f true md))
    = ((fun l => Str (c_str l)) <$> lines_of ls tail,
       Some (mkHandle f1 true md)) /\
    written f1 = written f /\
    (unread f1 = EmptyString \/ eofbit f1 = true \/ failbit f1 = true).
Proof.
  intros tail f md Hstep Hls Htail. revert f.
  induction Hls as [|l ls Hl Hls IH]; intros f He Hf Hu.
  - unfold lines_of, text_of in *. cbn [foldr app] in *.
    destruct tail as [|c tl].
    + exists f. cbn. split; [reflexivity|]. split; [reflexivity|]. now left.
    + cbn [length iterate].
      rewrite (Hstep (mkHandle f true md) eq_refl _ _
                 (getline_last f (String c tl) He Hf Htail ltac:(discriminate) Hu)).
      cbn. eexists. split; [reflexivity|]. split; [reflexivity|].
      right. now left.
  - unfold lines_of in *. cbn [app length iterate fmap list_fmap].
    cbn [text_of foldr] in Hu.
    rewrite (Hstep (mkHandle f true md) eq_refl _ _
               (getline_line f l _ He Hf Hl Hu)).
    cbn [mode].
    destruct (IH (mkStream (foldr (fun l acc => l +:+ String "010" acc) tail ls)
                           (written f) (writable f) (appending f) false false)
                 eq_refl eq_refl eq_refl) as (f1 & Hit & Hw & Hend).
    rewrite Hit. exists f1. split; [reflexivity|]. split; [exact Hw|exact Hend].
Qed.

(** X18: the iterator of [io.lines] returns the lines of the file in order,
    each as a C string, then nil; with that nil it closes the file, and
    every later call returns nil and leaves the handle alone. *)
Theorem io_lines_iterator_enumerates ls tail f md :
  Forall (fun l => occurs "010" l = false) ls ->
  occurs "010" tail = false ->
  eofbit f = false -> failbit f = false ->
  unread f = text_of ls tail ->
  exists f1 f2,
    iterate io_lines_iterator (length (lines_of ls tail))
      (Some (mkHandle f true md))
    = ((fun l => Str (c_str l)) <$> lines_of ls tail,
       Some (mkHandle f1 true md)) /\
    io_lines_iterator (Some (mkHandle f1 true md))
    = (Some (mkHandle f2 false md), [Nil]) /\
    forall k,
      iterate io_lines_iterator k (Some (mkHandle f2 false md))
      = (replicate k Nil, Some (mkHandle f2 false md)).
Proof.
  intros Hls Htail He Hf Hu.
  destruct (iterate_lines io_lines_iterator ls tail f md) as (f1 & Hit & _ & Hend);
    try assumption.
  { intros h0 Hopen f1 l Hg. unfold io_lines_iterator.
    rewrite Hopen, Hg. reflexivity. }
  destruct (getline_exhausted f1 Hend) as (f2 & Hg & _).
  exists f1, f2. split; [exact Hit|]. split.
  - unfold io_lines_iterator. cbn [is_open negb file mode]. now rewrite Hg.
  - induction k as [|k IH]; [reflexivity|].
    cbn [iterate io_lines_iterator is_open negb]. rewrite IH. reflexivity.
Qed.

(** X19: the iterator of [file:lines] returns the same lines and then nil
    on every further call, but never closes the file: the handle is still
    open afterwards, and nothing was written to the stream. *)
Theorem file_lines_iterator_enumerates ls tail f md k :
  Forall (fun l => occurs "010" l = false) ls ->
  occurs "010" tail = false ->
  eofbit f = false -> failbit f = false ->
  unread f = text_of ls tail ->
  exists f1,
    iterate file_lines_iterator (length (lines_of ls tail) + k)
      (Some (mkHandle f true md))
    = (((fun l => Str (c_str l)) <$> lines_of ls tail) ++ replicate k Nil,
       Some (mkHandle f1 true md)) /\
    written f1 = written f.
Proof.
  intros Hls Htail He Hf Hu.
  destruct (iterate_lines file_lines_iterator ls tail f md) as (f1 & Hit & Hw & Hend);
    try assumption.
  { intros h0 Hopen f1 l Hg. unfold file_lines_iterator.
    rewrite Hopen, Hg. reflexivity. }
  rewrite iterate_app, Hit. cbn [fst snd].
  clear Hit. revert f1 Hw Hend. induction k as [|k IH]; intros f1 Hw Hend.
  - exists f1. split; [reflexivity|exact Hw].
  - destruct (getline_exhausted f1 Hend) as (f2 & Hg & Hfail & Hw2).
    cbn [iterate file_lines_iterator is_open negb file mode]. rewrite Hg.
    destruct (IH f2) as (f3 & Hit3 & Hw3); [congruence|now right; right|].
    destruct (iterate file_lines_iterator k (Some (mkHandle f2 true md)))
      as [vs h3] eqn:Hk.
    cbn [fst snd] in *. injection Hit3 as Hvs Hh3.
    exists f3. split; [|exact Hw3].
    cbn [replicate]. rewrite Hh3. f_equal.
    apply app_inv_head in Hvs. now subst vs.
Qed.

(** X20: [file:close] always returns true and is final: closing again
    changes nothing, both line iterators return nil, [file:write] returns
    nil and "file is closed", and none of them touches the stream. *)
Theorem file_close_is_final num2str self h0 args :
  let h1 := Some (mkHandle (file h0) false (mode h0)) in
  file_close (Some h0) = (if is_open h0 then h1 else Some h0, [Boolean true]) /\
  file_close h1 = (h1, [Boolean true]) /\
  file_lines_iterator h1 = (h1, [Nil]) /\
  io_lines_iterator h1 = (h1, [Nil]) /\
  file_write num2str self h1 args = (h1, inr [Nil; Str "file is closed"]).
Proof.
  intros h1. split; [|by split_and!].
  unfold file_close. now destruct (is_open h0).
Qed.



Lemma length_append (a r : string) :
  String.length (a +:+ r) = (String.length a + String.length r)%nat.
Proof.
  induction a as [|c a IH]; [reflexivity|].
  change (String c a +:+ r) with (String c (a +:+ r)). cbn. now rewrite IH.
Qed.






(** X28: [file:read] with the format "*l" or "*line" is one step of the
    iterator of [file:lines]: both leave the same handle and return the same
    value, on every handle. *)
Theorem file_read_line_is_iterator_step extract_double h format count :
  format = "*l"%string \/ format = "*line"%string ->
  file_read extract_double h format count
  = ((file_lines_iterator h).1, inr (file_lines_iterator h).2).
Proof.
  intros [-> | ->]; unfold file_read, file_lines_iterator;
    (destruct h as [h0|]; [|reflexivity]);
    (destruct (is_open h0); cbn [negb]; [|reflexivity]);
    cbn [String.eqb Ascii.eqb Bool.eqb orb andb];
    destruct (getline (file h0)) as [f [line|]]; reflexivity.
Qed.

(** X29: reading all of an open file never returns nil: it returns the
    rest of the file up to its first NUL, whatever the state bits of the
    stream, and leaves nothing to read, so that reading all again returns
    the empty string and reading a line returns nil. *)
Theorem file_read_all_then_empty extract_double f md format c1 c2 c3 :
  format = "*a"%string \/ format = "*all"%string ->
  exists h1,
    file_read extract_double (Some (mkHandle f true md)) format c1
    = (h1, inr [Str (c_str (unread f))]) /\
    file_read extract_double h1 format c2 = (h1, inr [Str EmptyString]) /\
    (file_read extract_double h1 "*l" c3).2 = inr [Nil].
Proof.
  intros [-> | ->]; eexists; (split; [reflexivity|]); (split; [reflexivity|]);
    unfold file_read, getline; cbn [is_open negb file unread eofbit failbit];
    cbn [String.eqb Ascii.eqb Bool.eqb orb andb];
    destruct (eofbit f || failbit f); reflexivity.
Qed.

Lemma substring_whole (r : string) : String.substring 0 (String.length r) r = r.
Proof. induction r as [|c r IH]; cbn; [reflexivity | now rewrite IH]. Qed.

Lemma substring_prefix (a r : string) :
  String.substring 0 (String.length a) (a +:+ r) = a.
Proof.
  induction a as [|c a IH].
  - cbn. now destruct r.
  - change (String c a +:+ r) with (String c (a +:+ r)). cbn. now rewrite IH.
Qed.

Lemma substring_suffix (a r : string) :
  String.substring (String.length a) (String.length r) (a +:+ r) = r.
Proof.
  induction a as [|c a IH]; [apply substring_whole|].
  change (String c a +:+ r) with (String c (a +:+ r)). cbn. apply IH.
Qed.

Lemma fread_prefix f (a r : string) :
  eofbit f = false -> failbit f = false -> unread f = a +:+ r ->
  fread f (String.length a)
  = (mkStream r (written f) (writable f) (appending f) false false, a).
Proof.
  intros He Hf Hu. unfold fread. rewrite He, Hf, Hu. cbn [orb].
  rewrite length_append.
  destruct (_ <? _)%nat eqn:Hlt; [apply Nat.ltb_lt in Hlt; lia|].
  replace (String.length a + String.length r - String.length a)%nat
    with (String.length r) by lia.
  now rewrite substring_prefix, substring_suffix.
Qed.

Lemma file_read_counted extract_double h0 format n :
  counted format = true -> is_open h0 = true -> 0 < n ->
  file_read extract_double (Some h0) format (Some n)
  = (Some (mkHandle (fread (file h0) (Z.to_nat n)).1 true (mode h0)),
     inr [if (0 <? String.length (fread (file h0) (Z.to_nat n)).2)%nat
          then Str (fread (file h0) (Z.to_nat n)).2 else Nil]).
Proof.
  unfold counted, file_read. intros Hc Ho Hn. rewrite Ho. cbn [negb].
  apply negb_true_iff in Hc.
  repeat (apply orb_false_iff in Hc as [Hc ?]).
  repeat match goal with H : String.eqb _ _ = false |- _ => rewrite H; clear H end.
  cbn [orb]. replace (0 <? n) with true by lia.
  now destruct (fread (file h0) (Z.to_nat n)).
Qed.

(** X30: counted reads hand out the file piece by piece and then stop.  On
    a good stream whose unread text is [a] followed by [b], reading
    [length a] bytes returns [a]; asking then for more than is left returns
    what is left, [b]; and every counted read after that returns nil. *)
Theorem file_read_counted_sequence extract_double f md (a b : string)
    format1 format2 format3 (k j : Z) :
  eofbit f = false -> failbit f = false -> unread f = a +:+ b ->
  a <> EmptyString -> b <> EmptyString ->
  counted format1 = true -> counted format2 = true -> counted format3 = true ->
  Z.of_nat (String.length b) < k -> 0 < j ->
  exists h1 h2 h3,
    file_read extract_double (Some (mkHandle f true md)) format1
      (Some (Z.of_nat (String.length a))) = (h1, inr [Str a]) /\
    file_read extract_double h1 format2 (Some k) = (h2, inr [Str b]) /\
    file_read extract_double h2 format3 (Some j) = (h3, inr [Nil]).
Proof.
  intros He Hf Hu Ha Hb Hc1 Hc2 Hc3 Hk Hj.
  assert (Hla : (0 < String.length a)%nat) by (destruct a; [congruence | cbn; lia]).
  assert (Hlb : (0 < String.length b)%nat) by (destruct b; [congruence | cbn; lia]).
  do 3 eexists. split; [|split].
  - rewrite file_read_counted by (try reflexivity; try assumption; lia).
    cbn [file mode]. rewrite Nat2Z.id, (fread_prefix f a b He Hf Hu).
    cbn [fst snd]. destruct (0 <? String.length a)%nat eqn:E;
      [reflexivity | apply Nat.ltb_ge in E; lia].
  - rewrite file_read_counted by (try reflexivity; try assumption; lia).
    cbn [file mode]. unfold fread at 1 2 3. cbn [eofbit failbit unread orb].
    destruct (String.length b <? Z.to_nat k)%nat eqn:E;
      [|apply Nat.ltb_ge in E; lia].
    cbn [fst snd]. destruct (0 <? String.length b)%nat eqn:E2;
      [reflexivity | apply Nat.ltb_ge in E2; lia].
  - rewrite file_read_counted by (try reflexivity; try assumption; lia).
    reflexivity.
Qed.

End IOLibrary.

Section IOLibraryInstances.

Import IOLib.

Lemma io_lines_iterator_enumerates_witness :
  exists f1 f2,
    iterate io_lines_iterator (length (lines_of ["ab"; "cd"]%string "e"))
      (Some (mkHandle MoreExamples.three_lines true "r"))
    = ((fun l => Str (c_str l)) <$> lines_of ["ab"; "cd"]%string "e",
       Some (mkHandle f1 true "r")) /\
    io_lines_iterator (Some (mkHandle f1 true "r"))
    = (Some (mkHandle f2 false "r"), [Nil]) /\
    forall k,
      iterate io_lines_iterator k (Some (mkHandle f2 false "r"))
      = (replicate k Nil, Some (mkHandle f2 false "r")).
Proof.
  assert (Hl : Forall (fun l => occurs "010" l = false) ["ab"; "cd"]%string)
    by (repeat constructor).
  assert (Ht : occurs "010" "e" = false) by reflexivity.
  assert (He : eofbit MoreExamples.three_lines = false) by reflexivity.
  assert (Hf : failbit MoreExamples.three_lines = false) by reflexivity.
  assert (Hu : unread MoreExamples.three_lines = text_of ["ab"; "cd"]%string "e")
    by reflexivity.
  exact (io_lines_iterator_enumerates ["ab"; "cd"]%string "e"
           MoreExamples.three_lines "r" Hl Ht He Hf Hu).
Defined.

Lemma file_lines_iterator_enumerates_witness :
  exists f1,
    iterate file_lines_iterator (length (lines_of ["ab"; "cd"]%string "e") + 2)
      (Some (mkHandle MoreExamples.three_lines true "r"))
    = (((fun l => Str (c_str l)) <$> lines_of ["ab"; "cd"]%string "e")
         ++ replicate 2 Nil,
       Some (mkHandle f1 true "r")) /\
    written f1 = written MoreExamples.three_lines.
Proof.
  assert (Hl : Forall (fun l => occurs "010" l = false) ["ab"; "cd"]%string)
    by (repeat constructor).
  assert (Ht : occurs "010" "e" = false) by reflexivity.
  assert (He : eofbit MoreExamples.three_lines = false) by reflexivity.
  assert (Hf : failbit MoreExamples.three_lines = false) by reflexivity.
  assert (Hu : unread MoreExamples.three_lines = text_of ["ab"; "cd"]%string "e")
    by reflexivity.
  exact (file_lines_iterator_enumerates ["ab"; "cd"]%string "e"
           MoreExamples.three_lines "r" 2 Hl Ht He Hf Hu).
Defined.


(** Reading after a write on a stream opened for both: the two characters
    written have replaced "ab", and the lines that follow are the empty rest
    of the first line and "cd". *)
Example file_write_then_lines :
  (iterate file_lines_iterator 3
     (file_write (fun _ => EmptyString) (Userdata 0)
        (Some (mkHandle MoreExamples.update_stream true "r+")) [Str "XY"]).1).1
  = [Str EmptyString; Str "cd"; Nil].
Proof. reflexivity. Qed.

Lemma file_read_line_is_iterator_step_witness :
  file_read MoreExamples.extract_none
    (Some (mkHandle MoreExamples.three_lines true "r")) "*l" None
  = ((file_lines_iterator (Some (mkHandle MoreExamples.three_lines true "r"))).1,
     inr (file_lines_iterator
            (Some (mkHandle MoreExamples.three_lines true "r"))).2).
Proof.
  assert (Hfmt : "*l"%string = "*l"%string \/ "*l"%string = "*line"%string)
    by (left; reflexivity).
  exact (file_read_line_is_iterator_step MoreExamples.extract_none
           (Some (mkHandle MoreExamples.three_lines true "r")) "*l" None Hfmt).
Defined.

Lemma file_read_all_then_empty_witness :
  exists h1,
    file_read MoreExamples.extract_none
      (Some (mkHandle MoreExamples.five_bytes true "r")) "*a" None
    = (h1, inr [Str "abcde"]) /\
    file_read MoreExamples.extract_none h1 "*a" None
    = (h1, inr [Str EmptyString]) /\
    (file_read MoreExamples.extract_none h1 "*l" None).2 = inr [Nil].
Proof.
  assert (Hfmt : "*a"%string = "*a"%string \/ "*a"%string = "*all"%string)
    by (left; reflexivity).
  exact (file_read_all_then_empty MoreExamples.extract_none
           MoreExamples.five_bytes "r" "*a" None None None Hfmt).
Defined.

Lemma file_read_counted_sequence_witness :
  exists h1 h2 h3,
    file_read MoreExamples.extract_none
      (Some (mkHandle MoreExamples.five_bytes true "r")) "2" (Some 2)
    = (h1, inr [Str "ab"]) /\
    file_read MoreExamples.extract_none h1 "9" (Some 9) = (h2, inr [Str "cde"]) /\
    file_read MoreExamples.extract_none h2 "1" (Some 1) = (h3, inr [Nil]).
Proof.
  assert (He : eofbit MoreExamples.five_bytes = false) by reflexivity.
  assert (Hf : failbit MoreExamples.five_bytes = false) by reflexivity.
  assert (Hu : unread MoreExamples.five_bytes = ("ab" +:+ "cde")%string)
    by reflexivity.
  assert (Ha : "ab"%string <> EmptyString) by discriminate.
  assert (Hb : "cde"%string <> EmptyString) by discriminate.
  assert (H1 : counted "2" = true) by reflexivity.
  assert (H2 : counted "9" = true) by reflexivity.
  assert (H3 : counted "1" = true) by reflexivity.
  assert (Hk : Z.of_nat (String.length "cde") < 9) by reflexivity.
  assert (Hj : 0 < 1) by reflexivity.
  exact (file_read_counted_sequence MoreExamples.extract_none
           MoreExamples.five_bytes "r" "ab" "cde" "2" "9" "1" 9 1
           He Hf Hu Ha Hb H1 H2 H3 Hk Hj).
Defined.

End IOLibraryInstances.

(** ** The metatable helpers *)

Section MetatableHelpers.

Import Luau.

Lemma with_vm_vm (S : State) : with_vm S (vm S) = S.
Proof. now destruct S. Qed.

Lemma set_stack_stack (L : lua_State) : set_stack L (stack L) = L.
Proof. now destruct L. Qed.

Lemma index2addr_length L1 L2 idx :
  length (stack L1) = length (stack L2) -> index2addr L1 idx = index2addr L2 idx.
Proof. intros H. unfold index2addr, VM.lua_gettop. now rewrite H. Qed.

Lemma to_absolute_slot S idx i :
  index2addr (vm S) idx = Some (Slot i) ->
  to_absolute S idx = Z.of_nat i + 1 /\ (i < length (stack (vm S)))%nat.
Proof.
  unfold index2addr, to_absolute, lua_gettop, VM.lua_gettop, LUA_REGISTRYINDEX.
  intros H.
  destruct (0 <? idx) eqn:Hpos.
  - destruct (idx <=? _) eqn:Hle; [|discriminate].
    injection H as <-.
    replace (idx <? 0) with false by lia. cbn [andb]. lia.
  - destruct (-10000 <? idx) eqn:Hreg; [|discriminate].
    destruct ((idx <? 0) && _) eqn:Hneg; [|discriminate].
    apply andb_true_iff in Hneg as [Hn Hle].
    injection H as <-. rewrite Hn. cbn [andb]. lia.
Qed.

Lemma index2addr_above L (i : nat) :
  (i < length (stack L))%nat -> index2addr L (Z.of_nat i + 1) = Some (Slot i).
Proof.
  intros Hi. pose (k := length (stack L)). assert (HL : length (stack L) = k) by reflexivity.
  fold k in Hi. unfold index2addr, VM.lua_gettop. rewrite HL.
  replace (0 <? Z.of_nat i + 1) with true by lia.
  replace (Z.of_nat i + 1 <=? Z.of_nat k) with true by lia.
  f_equal. f_equal. lia.
Qed.

Lemma index2addr_back L (s : list Value) (back : list Value) :
  stack L = s ++ back -> (0 < length back)%nat ->
  Z.of_nat (length back) < 10000 ->
  index2addr L (- Z.of_nat (length back)) = Some (Slot (length s)).
Proof.
  intros Hs Hb Hlim. unfold index2addr, VM.lua_gettop, LUA_REGISTRYINDEX.
  rewrite Hs, length_app.
  replace (0 <? - Z.of_nat (length back)) with false by lia.
  replace (-10000 <? - Z.of_nat (length back)) with true by lia.
  assert (H1 : (- Z.of_nat (length back) <? 0) = true) by (apply Z.ltb_lt; lia).
  assert (H2 : (- - Z.of_nat (length back) <=? Z.of_nat (length s + length back))
               = true) by (apply Z.leb_le; lia).
  rewrite H1, H2. cbn [andb]. f_equal. f_equal. lia.
Qed.

Lemma rawget_at S (a : nat) r key :
  stack (vm S) !! a = Some (Table r) -> is_Some (tables (vm S) !! r) ->
  lua_rawget (lua_pushstring S key) (Z.of_nat a + 1)
  = Some (pushv S (field_of S r key)).
Proof.
  intros Ha [t Ht]. unfold lua_rawget, lua_pushstring, pushv, with_vm, push.
  cbn [vm fields metatable].
  pose proof (lookup_lt_Some _ _ _ Ha) as Hlt.
  rewrite index2addr_above
    by (destruct (vm S); cbn [stack set_stack] in *; rewrite length_app; cbn [length]; lia).
  cbn [mbind option_bind obj].
  replace (stack (set_stack (vm S) (stack (vm S) ++ [Str key])))
    with (stack (vm S) ++ [Str key]) by now destruct (vm S).
  rewrite lookup_app_l, Ha by assumption. cbn [default from_option id].
  replace (tables (set_stack (vm S) (stack (vm S) ++ [Str key])))
    with (tables (vm S)) by now destruct (vm S).
  rewrite Ht. cbn [mbind option_bind]. rewrite last_snoc. cbn [mbind option_bind].
  rewrite length_app. cbn [length].
  replace (length (stack (vm S)) + 1 - 1)%nat with (length (stack (vm S))) by lia.
  rewrite take_app_length. unfold field_of. cbn [fields].
  destruct (vm S); reflexivity.
Qed.

Lemma index2addr_top1 L v : index2addr (push L v) (-1) = Some (Slot (length (stack L))).
Proof.
  apply (index2addr_back (push L v) (stack L) [v]); cbn; [|lia..].
  now destruct L.
Qed.

Lemma index2addr_top2 L v w :
  index2addr (push (push L v) w) (-2) = Some (Slot (length (stack L))).
Proof.
  apply (index2addr_back (push (push L v) w) (stack L) [v; w]); cbn; [|lia..].
  destruct L; cbn. now rewrite <- app_assoc.
Qed.

Lemma stack_push L v : stack (push L v) = stack L ++ [v].
Proof. now destruct L. Qed.

Lemma tables_push L v : tables (push L v) = tables L.
Proof. now destruct L. Qed.

Lemma obj_push_top L v : obj (push L v) (Slot (length (stack L))) = v.
Proof. apply (obj_top _ (stack L)). apply stack_push. Qed.

Lemma lua_type_top L v : lua_type (push L v) (-1) = Some (ttype v).
Proof.
  unfold lua_type. rewrite index2addr_top1. cbn [mbind option_bind].
  now rewrite obj_push_top.
Qed.

Lemma lua_pop_back L (s back : list Value) :
  stack L = s ++ back -> (0 < length back)%nat ->
  VM.lua_pop L (Z.of_nat (length back)) = Some (set_stack L s).
Proof.
  intros Hs Hb. unfold VM.lua_pop, lua_settop, VM.lua_gettop.
  rewrite Hs, length_app.
  destruct (0 <=? _) eqn:H0; [lia|].
  destruct (- _ <=? _) eqn:H1; [|exfalso; apply Z.leb_gt in H1; lia].
  do 2 f_equal.
  replace (Z.to_nat _) with (length s) by lia.
  apply take_app_length.
Qed.

Lemma pop_pushv S v : lua_pop (pushv S v) 1 = Some S.
Proof.
  unfold lua_pop, pushv, with_vm. cbn [vm fields metatable].
  change 1 with (Z.of_nat (length [v])).
  rewrite (lua_pop_back (push (vm S) v) (stack (vm S)) [v])
    by (try apply stack_push; cbn; lia).
  destruct S as [[stk tb ud gc ci] fl mt]. reflexivity.
Qed.

Lemma pop2_pushv S v w : lua_pop (pushv (pushv S v) w) 2 = Some S.
Proof.
  unfold lua_pop, pushv, with_vm. cbn [vm fields metatable].
  change 2 with (Z.of_nat (length [v; w])).
  rewrite (lua_pop_back (push (push (vm S) v) w) (stack (vm S)) [v; w]).
  - destruct S as [[stk tb ud gc ci] fl mt]. reflexivity.
  - rewrite !stack_push, <- app_assoc. reflexivity.
  - cbn; lia.
Qed.

Lemma remove_below_top S v w :
  lua_remove (pushv (pushv S v) w) (-2) = Some (pushv S w).
Proof.
  unfold lua_remove, VM.lua_remove, pushv, with_vm. cbn [vm fields metatable].
  rewrite index2addr_top2. cbn [mbind option_bind].
  destruct S as [[stk tb ud gc ci] fl mt]. cbn. do 3 f_equal.
  rewrite <- app_assoc. cbn [app].
  rewrite delete_middle. reflexivity.
Qed.

Lemma rawget_below_key S r key :
  is_Some (tables (vm S) !! r) ->
  lua_rawget (lua_pushstring (pushv S (Table r)) key) (-2)
  = Some (pushv (pushv S (Table r)) (field_of S r key)).
Proof.
  intros [t Ht]. unfold lua_rawget, lua_pushstring, pushv, with_vm.
  cbn [vm fields metatable].
  rewrite index2addr_top2. cbn [mbind option_bind].
  destruct S as [[stk tb ud gc ci] fl mt]. cbn in Ht.
  cbn [obj push set_stack stack tables vm udata udatagc ci_depth].
  rewrite <- app_assoc. cbn [app].
  rewrite list_lookup_middle by reflexivity. cbn [default from_option id].
  rewrite Ht. cbn [mbind option_bind].
  change (stk ++ [Table r; Str key]) with (stk ++ [Table r] ++ [Str key]).
  rewrite app_assoc, last_snoc. cbn [mbind option_bind].
  rewrite length_app. cbn [length].
  replace (length (stk ++ [Table r]) + 1 - 1)%nat with (length (stk ++ [Table r])) by lia.
  rewrite take_app_length. reflexivity.
Qed.

Lemma rawgeti_top S r t n :
  tables (vm S) !! r = Some t ->
  lua_rawgeti (pushv S (Table r)) (-1) n
  = Some (pushv (pushv S (Table r)) (default Nil (t !! n))).
Proof.
  intros Ht. unfold lua_rawgeti, VM.lua_rawgeti, pushv, with_vm.
  cbn [vm fields metatable].
  rewrite index2addr_top1. cbn [mbind option_bind].
  rewrite obj_push_top, tables_push, Ht. reflexivity.
Qed.

Lemma rawset_at S (a : nat) r key v :
  stack (vm S) !! a = Some (Table r) -> is_Some (tables (vm S) !! r) ->
  lua_rawset (pushv (lua_pushstring S key) v) (Z.of_nat a + 1)
  = Some (mkMeta (vm S)
            (<[r := set_field (default ∅ (fields S !! r)) key v]> (fields S))
            (metatable S)).
Proof.
  intros Ha [t Ht]. unfold lua_rawset, lua_pushstring, pushv, with_vm.
  cbn [vm fields metatable].
  pose proof (lookup_lt_Some _ _ _ Ha) as Hlt.
  rewrite index2addr_above by (rewrite !stack_push, !length_app; cbn [length]; lia).
  cbn [mbind option_bind obj].
  rewrite !stack_push, !tables_push.
  rewrite <- app_assoc, lookup_app_l, Ha by assumption.
  cbn [default from_option id]. rewrite Ht. cbn [mbind option_bind].
  rewrite app_assoc, last_snoc. cbn [mbind option_bind].
  rewrite !length_app. cbn [length].
  replace (length (stack (vm S)) + 1 + 1 - 1)%nat
    with (length (stack (vm S) ++ [Str key])) by (rewrite length_app; cbn; lia).
  rewrite take_app_length, last_snoc. cbn [mbind option_bind].
  replace (length (stack (vm S)) + 1 + 1 - 2)%nat with (length (stack (vm S))) by lia.
  rewrite <- app_assoc, take_app_length.
  destruct S as [[stk tb ud gc ci] fl mt]. reflexivity.
Qed.

Lemma index2addr_to_absolute S idx o :
  index2addr (vm S) idx = Some o -> index2addr (vm S) (to_absolute S idx) = Some o.
Proof.
  intros H. destruct o as [a|].
  - destruct (to_absolute_slot S idx a H) as [-> Hlt].
    now apply index2addr_above.
  - replace (to_absolute S idx) with idx; [assumption|].
    unfold to_absolute. unfold index2addr in H.
    destruct (0 <? idx) eqn:Hpos.
    + replace (idx <? 0) with false by lia. reflexivity.
    + destruct (LUA_REGISTRYINDEX <? idx); [|discriminate].
      destruct ((idx <? 0) && _); discriminate.
Qed.

Lemma lua_isnil_pushed S v :
  lua_isnil (pushv S v) (-1) = Some (bool_decide (ttype v = LUA_TNIL)).
Proof.
  unfold lua_isnil, VM.lua_isnil, pushv, with_vm. cbn [vm].
  now rewrite lua_type_top.
Qed.

Lemma field_of_set S r key v :
  field_of (mkMeta (vm S)
              (<[r := set_field (default ∅ (fields S !! r)) key v]> (fields S))
              (metatable S)) r key = v.
Proof.
  unfold field_of. cbn [fields]. rewrite lookup_insert_eq. cbn [mbind option_bind].
  unfold set_field.
  destruct v; rewrite ?lookup_delete_eq, ?lookup_insert_eq; reflexivity.
Qed.

Lemma ttype_nil v : ttype v = LUA_TNIL <-> v = Nil.
Proof. destruct v; cbn; split; congruence. Qed.

(** What a store does when the key is absent. *)
Lemma store_absent S idx a r key v push_value :
  index2addr (vm S) idx = Some (Slot a) ->
  stack (vm S) !! a = Some (Table r) ->
  is_Some (tables (vm S) !! r) ->
  field_of S r key = Nil ->
  (forall S0, push_value S0 = Some (pushv S0 v)) ->
  store_on_metatable_if_absent S idx key push_value
  = Some (mkMeta (vm S)
            (<[r := set_field (default ∅ (fields S !! r)) key v]> (fields S))
            (metatable S), true).
Proof.
  intros Hidx Ha Ht Habs Hpush. unfold store_on_metatable_if_absent.
  destruct (to_absolute_slot S idx a Hidx) as [-> _].
  rewrite (rawget_at S a r key Ha Ht). cbn [mbind option_bind].
  rewrite lua_isnil_pushed, Habs. cbn [mbind option_bind ttype].
  rewrite bool_decide_eq_true_2 by reflexivity. cbn [negb].
  rewrite pop_pushv. cbn [mbind option_bind].
  rewrite Hpush. cbn [mbind option_bind].
  rewrite (rawset_at S a r key v Ha Ht). reflexivity.
Qed.

(** What a store does when the key is present. *)
Lemma store_present S idx a r key push_value :
  index2addr (vm S) idx = Some (Slot a) ->
  stack (vm S) !! a = Some (Table r) ->
  is_Some (tables (vm S) !! r) ->
  field_of S r key <> Nil ->
  store_on_metatable_if_absent S idx key push_value = Some (S, false).
Proof.
  intros Hidx Ha Ht Hpres. unfold store_on_metatable_if_absent.
  destruct (to_absolute_slot S idx a Hidx) as [-> _].
  rewrite (rawget_at S a r key Ha Ht). cbn [mbind option_bind].
  rewrite lua_isnil_pushed. cbn [mbind option_bind].
  rewrite bool_decide_eq_false_2 by (now rewrite ttype_nil). cbn [negb].
  now rewrite pop_pushv.
Qed.

Lemma get_from_metatable_reads S idx a r key :
  index2addr (vm S) idx = Some (Slot a) ->
  stack (vm S) !! a = Some (Table r) ->
  is_Some (tables (vm S) !! r) ->
  get_from_metatable S idx key
  = Some (pushv S (field_of S r key),
          negb (bool_decide (ttype (field_of S r key) = LUA_TNIL))).
Proof.
  intros Hidx Ha Ht. unfold get_from_metatable.
  destruct (to_absolute_slot S idx a Hidx) as [-> _].
  rewrite (rawget_at S a r key Ha Ht). cbn [mbind option_bind].
  now rewrite lua_isnil_pushed.
Qed.

Lemma lua_getmetatable_absolute S idx o :
  index2addr (vm S) idx = Some o ->
  lua_getmetatable S (to_absolute S idx)
  = Some (match metatable S (obj (vm S) o) with
          | Some r => (pushv S (Table r), true)
          | None => (S, false)
          end).
Proof.
  intros H. unfold lua_getmetatable.
  rewrite (index2addr_to_absolute S idx o H). cbn [mbind option_bind].
  now destruct (metatable S (obj (vm S) o)).
Qed.

Lemma lua_toboolean_pushed S v :
  lua_toboolean (pushv S v) (-1) = Some (negb (l_isfalse v)).
Proof.
  unfold lua_toboolean, pushv, with_vm. cbn [vm].
  rewrite index2addr_top1. cbn [mbind option_bind]. now rewrite obj_push_top.
Qed.

Lemma lua_istable_pushed S v :
  lua_istable (pushv S v) (-1) = Some (bool_decide (ttype v = LUA_TTABLE)).
Proof.
  unfold lua_istable, pushv, with_vm. cbn [vm]. now rewrite lua_type_top.
Qed.

Lemma lua_isuserdata_pushed S v :
  lua_isuserdata (pushv S v) (-1) = Some (bool_decide (ttype v = LUA_TUSERDATA)).
Proof.
  unfold lua_isuserdata, pushv, with_vm. cbn [vm]. now rewrite lua_type_top.
Qed.

Lemma is_polymorphic_type_effect S idx o :
  index2addr (vm S) idx = Some o ->
  (forall r, metatable S (obj (vm S) o) = Some r -> is_Some (tables (vm S) !! r)) ->
  is_polymorphic_type S idx
  = Some (S, match metatable S (obj (vm S) o) with
             | Some r => negb (l_isfalse (field_of S r MT_KEY_IS_POLYMORPHIC))
             | None => false
             end).
Proof.
  intros Hidx Hmt. unfold is_polymorphic_type.
  rewrite (lua_getmetatable_absolute S idx o Hidx).
  destruct (metatable S (obj (vm S) o)) as [r|]; cbn [mbind option_bind negb];
    [|reflexivity].
  rewrite rawget_below_key by now apply Hmt. cbn [mbind option_bind].
  rewrite lua_toboolean_pushed. cbn [mbind option_bind].
  now rewrite pop2_pushv.
Qed.

(** X22: when the key is absent from the table at a valid index (of either
    sign), [store_on_metatable_if_absent] runs the callback, stores the
    value it pushed under the key, leaves the stack, every other key and
    every other part of the state as they were, and returns true;
    [get_from_metatable] then pushes that value, and reports it found unless
    the callback pushed nil, in which case nothing has been stored. *)
Theorem store_on_metatable_then_get S idx a r key v push_value :
  index2addr (vm S) idx = Some (Slot a) ->
  stack (vm S) !! a = Some (Table r) ->
  is_Some (tables (vm S) !! r) ->
  field_of S r key = Nil ->
  (forall S0, push_value S0 = Some (pushv S0 v)) ->
  exists S',
    store_on_metatable_if_absent S idx key push_value = Some (S', true) /\
    vm S' = vm S /\ metatable S' = metatable S /\
    (forall r' k', (r', k') <> (r, key) -> field_of S' r' k' = field_of S r' k') /\
    get_from_metatable S' idx key
    = Some (pushv S' v, negb (bool_decide (ttype v = LUA_TNIL))).
Proof.
  intros Hidx Ha Ht Habs Hpush.
  eexists. split; [now apply (store_absent S idx a r key v)|].
  split; [reflexivity|]. split; [reflexivity|]. split.
  - intros r' k' Hne. unfold field_of. cbn [fields].
    destruct (decide (r' = r)) as [->|Hr].
    + rewrite lookup_insert_eq. cbn [mbind option_bind].
      assert (Hk : key <> k') by congruence.
      unfold set_field.
      destruct (fields S !! r) as [t|] eqn:Hf; cbn [default from_option id mbind option_bind];
        destruct v; rewrite ?lookup_delete_ne, ?lookup_insert_ne by assumption;
        reflexivity.
    + now rewrite lookup_insert_ne by congruence.
  - rewrite (get_from_metatable_reads (mkMeta (vm S) _ (metatable S))
               idx a r key Hidx Ha Ht).
    now rewrite field_of_set.
Qed.

(** X23: the store is made once: after a first call has stored a value that
    is not nil, a second call for the same key returns false without running
    its callback and changes nothing, so the first value stays. *)
Theorem store_on_metatable_stores_once S idx a r key v push_value other :
  index2addr (vm S) idx = Some (Slot a) ->
  stack (vm S) !! a = Some (Table r) ->
  is_Some (tables (vm S) !! r) ->
  field_of S r key = Nil ->
  v <> Nil ->
  (forall S0, push_value S0 = Some (pushv S0 v)) ->
  exists S',
    store_on_metatable_if_absent S idx key push_value = Some (S', true) /\
    store_on_metatable_if_absent S' idx key other = Some (S', false) /\
    field_of S' r key = v.
Proof.
  intros Hidx Ha Ht Habs Hv Hpush.
  eexists. split; [now apply (store_absent S idx a r key v)|].
  split; [|apply field_of_set].
  apply (store_present _ idx a r key); try assumption.
  now rewrite field_of_set.
Qed.

(** X24: [is_polymorphic_type] leaves the state exactly as it found it, for
    every valid index; its result is false when the value has no metatable,
    and otherwise the truth value of the metatable's [__is_polymorphic]
    entry (false when the entry is absent). *)
Theorem is_polymorphic_type_reads_flag S idx o :
  index2addr (vm S) idx = Some o ->
  (forall r, metatable S (obj (vm S) o) = Some r -> is_Some (tables (vm S) !! r)) ->
  is_polymorphic_type S idx
  = Some (S, match metatable S (obj (vm S) o) with
             | Some r => negb (l_isfalse (field_of S r MT_KEY_IS_POLYMORPHIC))
             | None => false
             end).
Proof. apply is_polymorphic_type_effect. Qed.

(** X25: [get_member_funcs_table] pushes exactly one value on every path
    and returns whether that value is a table: the metatable's
    [__member_funcs] entry when that is a table, else the metatable's entry
    at integer key 1 when that is a table, else nil (also when the value has
    no metatable). *)
Theorem get_member_funcs_table_result S idx o :
  index2addr (vm S) idx = Some o ->
  (forall r, metatable S (obj (vm S) o) = Some r -> is_Some (tables (vm S) !! r)) ->
  let found :=
    match metatable S (obj (vm S) o) with
    | Some r =>
        match field_of S r MT_KEY_MEMBER_FUNCS with
        | Table m => Table m
        | _ =>
            match default Nil (t ← tables (vm S) !! r; t !! 1) with
            | Table m => Table m
            | _ => Nil
            end
        end
    | None => Nil
    end in
  get_member_funcs_table S idx
  = Some (pushv S found, bool_decide (ttype found = LUA_TTABLE)).
Proof.
  intros Hidx Hmt found. unfold get_member_funcs_table.
  rewrite (lua_getmetatable_absolute S idx o Hidx). subst found.
  destruct (metatable S (obj (vm S) o)) as [r|]; cbn [mbind option_bind negb];
    [|reflexivity].
  destruct (Hmt r eq_refl) as [t Ht].
  rewrite rawget_below_key by (now exists t). cbn [mbind option_bind].
  rewrite lua_istable_pushed. cbn [mbind option_bind].
  rewrite Ht. cbn [mbind option_bind].
  destruct (field_of S r MT_KEY_MEMBER_FUNCS) eqn:Hf; cbn [ttype];
    try (rewrite bool_decide_eq_true_2 by reflexivity;
         rewrite remove_below_top; reflexivity);
    rewrite bool_decide_eq_false_2 by discriminate;
    rewrite pop_pushv; cbn [mbind option_bind];
    rewrite (rawgeti_top S r t 1 Ht); cbn [mbind option_bind];
    rewrite lua_istable_pushed; cbn [mbind option_bind];
    (destruct (default Nil (t !! 1)) eqn:Hone; cbn [ttype];
     try (rewrite bool_decide_eq_true_2 by reflexivity;
          rewrite remove_below_top; reflexivity);
     rewrite bool_decide_eq_false_2 by discriminate;
     rewrite pop2_pushv; reflexivity).
Qed.

(** X26: [get_user_metamethods] pushes exactly one value on every path:
    nil when the value has no metatable, else the metatable's
    [__user_metamethods] entry whatever it is; it returns whether the pushed
    value is a userdata. *)
Theorem get_user_metamethods_result S idx o :
  index2addr (vm S) idx = Some o ->
  (forall r, metatable S (obj (vm S) o) = Some r -> is_Some (tables (vm S) !! r)) ->
  let found :=
    match metatable S (obj (vm S) o) with
    | Some r => field_of S r MT_KEY_USER_METAMETHODS
    | None => Nil
    end in
  get_user_metamethods S idx
  = Some (pushv S found, bool_decide (ttype found = LUA_TUSERDATA)).
Proof.
  intros Hidx Hmt found. unfold get_user_metamethods.
  rewrite (lua_getmetatable_absolute S idx o Hidx). subst found.
  destruct (metatable S (obj (vm S) o)) as [r|]; cbn [mbind option_bind negb];
    [|reflexivity].
  rewrite rawget_below_key by now apply Hmt. cbn [mbind option_bind].
  rewrite remove_below_top. cbn [mbind option_bind].
  now rewrite lua_isuserdata_pushed.
Qed.

(** X27: marking a metatable through [store_on_metatable_if_absent] under
    [MT_KEY_IS_POLYMORPHIC] with [lua_pushboolean (L, true)] is what
    [is_polymorphic_type] reads back: a userdata with that metatable is not
    polymorphic before the store and is polymorphic after it. *)
Theorem polymorphic_flag_round_trip S mi a r ui b u :
  index2addr (vm S) mi = Some (Slot a) ->
  stack (vm S) !! a = Some (Table r) ->
  is_Some (tables (vm S) !! r) ->
  index2addr (vm S) ui = Some (Slot b) ->
  stack (vm S) !! b = Some (Userdata u) ->
  metatable S (Userdata u) = Some r ->
  field_of S r MT_KEY_IS_POLYMORPHIC = Nil ->
  exists S',
    store_on_metatable_if_absent S mi MT_KEY_IS_POLYMORPHIC
      (fun S0 => Some (lua_pushboolean S0 true)) = Some (S', true) /\
    is_polymorphic_type S ui = Some (S, false) /\
    is_polymorphic_type S' ui = Some (S', true).
Proof.
  intros Hmi Ha Ht Hui Hb Hmeta Habs.
  eexists. split.
  { apply (store_absent S mi a r _ (Boolean true)); try assumption.
    reflexivity. }
  split.
  - rewrite (is_polymorphic_type_effect S ui (Slot b) Hui).
    + cbn [obj]. rewrite Hb. cbn [default from_option id].
      now rewrite Hmeta, Habs.
    + cbn [obj]. rewrite Hb. cbn [default from_option id].
      intros r0. rewrite Hmeta. now intros [= <-].
  - rewrite (is_polymorphic_type_effect _ ui (Slot b)); cbn [vm metatable obj].
    + rewrite Hb. cbn [default from_option id].
      now rewrite Hmeta, field_of_set.
    + assumption.
    + rewrite Hb. cbn [default from_option id].
      intros r0. rewrite Hmeta. now intros [= <-].
Qed.

End MetatableHelpers.

Section MetatableInstances.

Import Luau.

Lemma store_on_metatable_then_get_witness :
  exists S',
    store_on_metatable_if_absent MoreExamples.bound_object (-1) "k"
      (fun S0 => Some (lua_pushnil S0)) = Some (S', true) /\
    vm S' = vm MoreExamples.bound_object /\
    metatable S' = metatable MoreExamples.bound_object /\
    (forall r' k', (r', k') <> (0%nat, "k"%string) ->
       field_of S' r' k' = field_of MoreExamples.bound_object r' k') /\
    get_from_metatable S' (-1) "k" = Some (pushv S' Nil, false).
Proof.
  assert (Ha : index2addr (vm MoreExamples.bound_object) (-1) = Some (Slot 1))
    by reflexivity.
  assert (Ht : stack (vm MoreExamples.bound_object) !! 1%nat = Some (Table 0))
    by reflexivity.
  assert (Hm : is_Some (tables (vm MoreExamples.bound_object) !! 0%nat))
    by (exists ∅; reflexivity).
  assert (Hk : field_of MoreExamples.bound_object 0 "k" = Nil) by reflexivity.
  assert (Hp : forall S0, (fun S1 => Some (lua_pushnil S1)) S0 = Some (pushv S0 Nil))
    by reflexivity.
  exact (store_on_metatable_then_get MoreExamples.bound_object (-1) 1%nat 0%nat
           "k" Nil (fun S0 => Some (lua_pushnil S0)) Ha Ht Hm Hk Hp).
Defined.

Lemma store_on_metatable_stores_once_witness :
  exists S',
    store_on_metatable_if_absent MoreExamples.bound_object 2 "k"
      (fun S0 => Some (lua_pushstring S0 "v")) = Some (S', true) /\
    store_on_metatable_if_absent S' 2 "k" (fun _ => None) = Some (S', false) /\
    field_of S' 0 "k" = Str "v".
Proof.
  assert (Ha : index2addr (vm MoreExamples.bound_object) 2 = Some (Slot 1))
    by reflexivity.
  assert (Ht : stack (vm MoreExamples.bound_object) !! 1%nat = Some (Table 0))
    by reflexivity.
  assert (Hm : is_Some (tables (vm MoreExamples.bound_object) !! 0%nat))
    by (exists ∅; reflexivity).
  assert (Hk : field_of MoreExamples.bound_object 0 "k" = Nil) by reflexivity.
  assert (Hv : Str "v" <> Nil) by discriminate.
  assert (Hp : forall S0, (fun S1 => Some (lua_pushstring S1 "v")) S0
                          = Some (pushv S0 (Str "v"))) by reflexivity.
  exact (store_on_metatable_stores_once MoreExamples.bound_object 2 1%nat 0%nat
           "k" (Str "v") (fun S0 => Some (lua_pushstring S0 "v")) (fun _ => None)
           Ha Ht Hm Hk Hv Hp).
Defined.

Lemma is_polymorphic_type_reads_flag_witness :
  is_polymorphic_type MoreExamples.described_object 1
  = Some (MoreExamples.described_object, true).
Proof.
  assert (Ha : index2addr (vm MoreExamples.described_object) 1 = Some (Slot 0))
    by reflexivity.
  assert (Hm : forall r,
             metatable MoreExamples.described_object
               (obj (vm MoreExamples.described_object) (Slot 0)) = Some r ->
             is_Some (tables (vm MoreExamples.described_object) !! r))
    by (intros r [= <-]; exists ∅; reflexivity).
  exact (is_polymorphic_type_reads_flag MoreExamples.described_object 1 (Slot 0)
           Ha Hm).
Defined.

Lemma get_member_funcs_table_result_witness :
  get_member_funcs_table MoreExamples.described_object (-2)
  = Some (pushv MoreExamples.described_object (Table 1), true).
Proof.
  assert (Ha : index2addr (vm MoreExamples.described_object) (-2) = Some (Slot 0))
    by reflexivity.
  assert (Hm : forall r,
             metatable MoreExamples.described_object
               (obj (vm MoreExamples.described_object) (Slot 0)) = Some r ->
             is_Some (tables (vm MoreExamples.described_object) !! r))
    by (intros r [= <-]; exists ∅; reflexivity).
  exact (get_member_funcs_table_result MoreExamples.described_object (-2) (Slot 0)
           Ha Hm).
Defined.

Lemma get_user_metamethods_result_witness :
  get_user_metamethods MoreExamples.described_object 1
  = Some (pushv MoreExamples.described_object (Userdata 5), true).
Proof.
  assert (Ha : index2addr (vm MoreExamples.described_object) 1 = Some (Slot 0))
    by reflexivity.
  assert (Hm : forall r,
             metatable MoreExamples.described_object
               (obj (vm MoreExamples.described_object) (Slot 0)) = Some r ->
             is_Some (tables (vm MoreExamples.described_object) !! r))
    by (intros r [= <-]; exists ∅; reflexivity).
  exact (get_user_metamethods_result MoreExamples.described_object 1 (Slot 0)
           Ha Hm).
Defined.

Lemma polymorphic_flag_round_trip_witness :
  exists S',
    store_on_metatable_if_absent MoreExamples.bound_object (-1)
      MT_KEY_IS_POLYMORPHIC (fun S0 => Some (lua_pushboolean S0 true))
    = Some (S', true) /\
    is_polymorphic_type MoreExamples.bound_object 1
    = Some (MoreExamples.bound_object, false) /\
    is_polymorphic_type S' 1 = Some (S', true).
Proof.
  assert (Ha : index2addr (vm MoreExamples.bound_object) (-1) = Some (Slot 1))
    by reflexivity.
  assert (Ht : stack (vm MoreExamples.bound_object) !! 1%nat = Some (Table 0))
    by reflexivity.
  assert (Hm : is_Some (tables (vm MoreExamples.bound_object) !! 0%nat))
    by (exists ∅; reflexivity).
  assert (Hu : index2addr (vm MoreExamples.bound_object) 1 = Some (Slot 0))
    by reflexivity.
  assert (Hb : stack (vm MoreExamples.bound_object) !! 0%nat = Some (Userdata 0))
    by reflexivity.
  assert (Hmt : metatable MoreExamples.bound_object (Userdata 0) = Some 0%nat)
    by reflexivity.
  assert (Hk : field_of MoreExamples.bound_object 0 MT_KEY_IS_POLYMORPHIC = Nil)
    by reflexivity.
  exact (polymorphic_flag_round_trip MoreExamples.bound_object (-1) 1%nat 0%nat
           1 0%nat 0%nat Ha Ht Hm Hu Hb Hmt Hk).
Defined.

End MetatableInstances.
